(** * GDPR parser: a shallow embedding of [gdpr_parser.py] and its verification

    The development follows the pipeline of [GDPRParser]: text normalisation,
    structural segmentation, article extraction, paragraph decomposition,
    requirement classification, cross-reference extraction, and the SQLite
    knowledge store with its population, reconstruction, search and export
    operations.

    Conventions of the embedding:
    - a Python [str] is a list of Unicode code points ([str := list N]);
    - Python integers (offsets, row ids) are [Z];
    - [None]-able values are [option];
    - Python dictionaries that the code iterates over are insertion-ordered
      association lists ([Dict]); dictionaries that are only looked up are
      [gmap]s;
    - the [re] module, spaCy and PyPDF2 are interfaces (type classes);
    - the [sqlite3] connection is an explicit state with a committed and a
      working copy of the database, threaded through a state-and-exception
      monad;
    - a read operation that may raise returns an [option], [None] standing
      for the exception. *)

From Stdlib Require Import ZArith NArith List String Ascii Lia Bool.
From Stdlib Require Import Sorting.Sorted Sorting.Permutation.
From Stdlib Require Import DecimalString.
From stdpp Require Import base option countable strings gmap.

Import ListNotations.
Local Open Scope Z_scope.

(* ===================================================================== *)
(** * Part I: the embedding *)
(* ===================================================================== *)

(** ** Python strings *)

Module Py.

Definition char := N.
Definition str := list N.

(** An ASCII literal as a [str]. *)
Definition lit (s : string) : str :=
  List.map N_of_ascii (list_ascii_of_string s).

Definition in_range (c : char) (r : N * N) : bool :=
  ((fst r <=? c) && (c <=? snd r))%N.

(** Code points for which [str.isspace()] holds, and which [\s] matches in a
    [str] pattern (CPython's [_PyUnicode_IsWhitespace]). *)
Definition ws_ranges : list (N * N) :=
  [(9,13); (28,32); (133,133); (160,160); (5760,5760); (8192,8202);
   (8232,8233); (8239,8239); (8287,8287); (12288,12288)]%N.

Definition isspace (c : char) : bool := existsb (in_range c) ws_ranges.

(** Code points of category Nd, which [\d] matches in a [str] pattern
    (Unicode 14, as shipped with CPython 3.11). *)
Definition nd_ranges : list (N * N) :=
  [(48,57); (1632,1641); (1776,1785); (1984,1993); (2406,2415); (2534,2543);
   (2662,2671); (2790,2799); (2918,2927); (3046,3055); (3174,3183);
   (3302,3311); (3430,3439); (3558,3567); (3664,3673); (3792,3801);
   (3872,3881); (4160,4169); (4240,4249); (6112,6121); (6160,6169);
   (6470,6479); (6608,6617); (6784,6793); (6800,6809); (6992,7001);
   (7088,7097); (7232,7241); (7248,7257); (42528,42537); (43216,43225);
   (43264,43273); (43472,43481); (43504,43513); (43600,43609); (44016,44025);
   (65296,65305); (66720,66729); (68912,68921); (69734,69743); (69872,69881);
   (69942,69951); (70096,70105); (70384,70393); (70736,70745); (70864,70873);
   (71248,71257); (71360,71369); (71472,71481); (71904,71913); (72016,72025);
   (72784,72793); (73040,73049); (73120,73129); (92768,92777); (92864,92873);
   (93008,93017); (120782,120831); (123200,123209); (123632,123641);
   (125264,125273); (130032,130041)]%N.

Definition isdecimal (c : char) : bool := existsb (in_range c) nd_ranges.

Definition len (s : str) : Z := Z.of_nat (length s).

Definition str_eqb (a b : str) : bool := bool_decide (a = b).

(** [s.startswith(p)] *)
Fixpoint startswith (p s : str) : bool :=
  match p, s with
  | [], _ => true
  | _ :: _, [] => false
  | a :: p', b :: s' => (a =? b)%N && startswith p' s'
  end.

(** [s.find(sub)] counted from offset [i]: the lowest index of an occurrence,
    or -1. *)
Fixpoint find_from (i : Z) (s sub : str) : Z :=
  match s with
  | [] => if startswith sub [] then i else -1
  | _ :: s' => if startswith sub s then i else find_from (i + 1) s' sub
  end.

Definition find (s sub : str) : Z := find_from 0 s sub.

(** [sub in s] *)
Definition contains (sub s : str) : bool := 0 <=? find s sub.

(** [s.lstrip()], [s.rstrip()], [s.strip()] *)
Fixpoint lstrip (s : str) : str :=
  match s with
  | [] => []
  | c :: s' => if isspace c then lstrip s' else s
  end.

Definition rstrip (s : str) : str := rev (lstrip (rev s)).

Definition strip (s : str) : str := rstrip (lstrip s).

(** A slice bound as Python clamps it: a negative bound counts from the end. *)
Definition clamp (n i : Z) : Z :=
  if i <? 0 then Z.max 0 (i + n) else Z.min i n.

(** [s[start:stop]] *)
Definition slice (s : str) (start stop : Z) : str :=
  let a := clamp (len s) start in
  let b := clamp (len s) stop in
  firstn (Z.to_nat (b - a)) (skipn (Z.to_nat a) s).

(** [s[start:]] *)
Definition slice_from (s : str) (start : Z) : str :=
  skipn (Z.to_nat (clamp (len s) start)) s.

Fixpoint replace_aux (old new : str) (skip : nat) (s : str) : str :=
  match s with
  | [] => []
  | c :: s' =>
      match skip with
      | S k => replace_aux old new k s'
      | O =>
          if startswith old s
          then new ++ replace_aux old new (length old - 1) s'
          else c :: replace_aux old new 0 s'
      end
  end.

(** [s.replace(old, new)]: every non-overlapping occurrence, left to right. *)
Definition replace (old new s : str) : str :=
  match old with
  | [] => new ++ flat_map (fun c => c :: new) s
  | _ :: _ => replace_aux old new 0 s
  end.

(** [x in l] for a list [l] *)
Definition mem {A} `{EqDecision A} (x : A) (l : list A) : bool :=
  existsb (fun y => bool_decide (x = y)) l.

(** [str.lower()] is not a code-point-wise map (final sigma, U+0130), so it is
    an interface of the Unicode database. *)
Class Lower := lower : str -> str.

(** Lexicographic comparison of code-point sequences: Python's [<=] on [str]
    and SQLite's BINARY collation on TEXT. *)
Fixpoint compare (a b : str) : comparison :=
  match a, b with
  | [], [] => Eq
  | [], _ :: _ => Lt
  | _ :: _, [] => Gt
  | x :: a', y :: b' =>
      match (x ?= y)%N with
      | Eq => compare a' b'
      | c => c
      end
  end.

Definition leb (a b : str) : bool :=
  match compare a b with Gt => false | _ => true end.

End Py.

Import Py.

(** ** TextNormalizer ([preprocess_text]) *)

Definition SP : char := 32%N.

(** [re.sub(r'\s+', ' ', text)]: [in_run] tells that the previous code point
    belonged to the whitespace run being replaced. *)
Fixpoint sub_whitespace_runs (in_run : bool) (text : str) : str :=
  match text with
  | [] => []
  | c :: rest =>
      if isspace c
      then (if in_run then sub_whitespace_runs true rest
            else SP :: sub_whitespace_runs true rest)
      else c :: sub_whitespace_runs false rest
  end.

(** The longest prefix of code points satisfying [p], and the rest. *)
Fixpoint span (p : char -> bool) (s : str) : str * str :=
  match s with
  | [] => ([], [])
  | c :: s' =>
      if p c then let '(a, b) := span p s' in (c :: a, b) else ([], s)
  end.

Fixpoint strip_prefix (p s : str) : option str :=
  match p, s with
  | [], _ => Some s
  | _ :: _, [] => None
  | a :: p', b :: s' => if (a =? b)%N then strip_prefix p' s' else None
  end.

(** The class [[—–-]]: em dash, en dash, hyphen-minus. *)
Definition is_dash (c : char) : bool :=
  ((c =? 8212) || (c =? 8211) || (c =? 45))%N.

(** One match of [Article\s+(\d+)\s*[—–-]\s*] anchored at the head of [s]:
    group 1 and the unmatched rest.  The classes [\s], [\d] and the dashes
    are pairwise disjoint, so the greedy spans are the only way to match. *)
Definition match_article_header (s : str) : option (str * str) :=
  match strip_prefix (lit "Article") s with
  | None => None
  | Some s1 =>
      let '(ws, s2) := span isspace s1 in
      match ws with
      | [] => None
      | _ :: _ =>
          let '(ds, s3) := span isdecimal s2 in
          match ds with
          | [] => None
          | _ :: _ =>
              let '(_, s4) := span isspace s3 in
              match s4 with
              | d :: s5 =>
                  if is_dash d then Some (ds, snd (span isspace s5)) else None
              | [] => None
              end
          end
      end
  end.

(** [re.sub(r'Article\s+(\d+)\s*[—–-]\s*', r'Article \1 - ', text)]:
    [skip] counts the code points of the current match still to be dropped. *)
Fixpoint sub_article_headers (skip : nat) (text : str) : str :=
  match text with
  | [] => []
  | c :: rest =>
      match skip with
      | S k => sub_article_headers k rest
      | O =>
          match match_article_header text with
          | Some (num, tail) =>
              lit "Article " ++ num ++ lit " - "
                ++ sub_article_headers (length rest - length tail) rest
          | None => c :: sub_article_headers 0 rest
          end
      end
  end.

Definition preprocess_text (text : str) : str :=
  let text := sub_whitespace_runs false text in
  let text := replace (lit "|") (lit "I") text in
  let text := replace (lit "l1") (lit "h") text in
  let text := replace [8212%N] (lit "-") text in
  let text := replace [8211%N] (lit "-") text in
  sub_article_headers 0 text.

(** ** External interfaces *)

(** The [re] module.  A match object carries its start offset and its
    capture groups; a group that did not take part in the match is [None]. *)
Module Re.

Inductive Flag := DOTALL | IGNORECASE.

Record Match := { m_start : Z; m_groups : list (option str) }.

(** [match.group(i)] for [i >= 1] *)
Definition group_opt (m : Match) (i : nat) : option str :=
  nth (i - 1) (m_groups m) None.

(** [match.group(i)] of a group the pattern always fills *)
Definition group (m : Match) (i : nat) : str := default [] (group_opt m i).

Class Engine := {
  (** [re.finditer(pattern, text, flags)] *)
  finditer : str -> list Flag -> str -> list Match;
  (** [re.search(pattern, text, flags)] *)
  search : str -> list Flag -> str -> option Match;
  (** [re.sub(pattern, '', text)] *)
  sub_empty : str -> str -> str;
  (** [re.split(pattern, text)], never empty *)
  split : str -> str -> list str
}.

End Re.

Import Re.

(** spaCy: sentence segmentation and named-entity recognition. *)
Record Span := {
  ent_text : str; ent_label : str; ent_start_char : Z; ent_end_char : Z
}.

Class NLP := {
  (** the [.text] of [nlp(text).sents] *)
  sents : str -> list str;
  (** [nlp(text).ents] *)
  ents : str -> list Span
}.

(** ** Data model: the dictionaries built by the extraction stages *)

(** [{'number': ..., 'title': ...}] *)
Record Heading := { h_number : str; h_title : str }.

Record Subsubparagraph := { ssp_number : str; ssp_text : str }.

Record Subparagraph := {
  sp_letter : str; sp_text : str; sp_subsubparagraphs : list Subsubparagraph
}.

Record Paragraph := {
  p_number : str; p_text : str; p_subparagraphs : list Subparagraph
}.

Record Requirement := {
  r_paragraph : str;
  r_subparagraph : option str;
  r_text : str;
  r_is_obligation : bool;
  r_is_right : bool;
  r_is_time_requirement : bool
}.

Record Entity := { e_text : str; e_label : str; e_start : Z; e_end : Z }.

(** An article dictionary; the keys ['paragraphs'], ['requirements'] and
    ['entities'] are read with [.get(key, [])], so an absent key is []. *)
Record Article := {
  a_number : str;
  a_title : str;
  a_content : str;
  a_chapter : option Heading;
  a_section : option Heading;
  a_paragraphs : list Paragraph;
  a_requirements : list Requirement;
  a_entities : list Entity
}.

Record TimeRequirement := {
  t_article : str; t_paragraph : str; t_subparagraph : option str; t_text : str
}.

Record Reference := { ref_article : str; ref_paragraph : option str }.

Record Definition_ := {
  d_term : str; d_definition : str; d_article : str; d_paragraph : str;
  d_subparagraph : option str
}.

Record Mention := { mn_article : str; mn_text : str }.

Record Recital := { rc_number : str; rc_content : str }.

#[global] Instance Reference_eq_dec : EqDecision Reference.
Proof. solve_decision. Defined.

(** ** Insertion-ordered dictionaries *)

Module Dict.
Section dict.
Context {K V : Type} `{EqDecision K}.

Definition t := list (K * V).

(** [d.get(k)] *)
Fixpoint get (d : t) (k : K) : option V :=
  match d with
  | [] => None
  | (k', v) :: d' => if decide (k = k') then Some v else get d' k
  end.

(** Reading [d[k]] in a [defaultdict]: a missing key is created with the
    default value. *)
Definition touch (d : t) (k : K) (v : V) : t :=
  match get d k with
  | Some _ => d
  | None => d ++ [(k, v)]
  end.

(** [d[k] = v]: an existing key keeps its place, a new one goes last. *)
Fixpoint set (d : t) (k : K) (v : V) : t :=
  match d with
  | [] => [(k, v)]
  | (k', v') :: d' =>
      if decide (k = k') then (k, v) :: d' else (k', v') :: set d' k v
  end.
End dict.
Arguments t : clear implicits.
End Dict.

(** ** StructuralSegmenter and ArticleExtractor
    ([extract_articles_with_structure]) *)

Definition chapter_pattern : str := lit "CHAPTER\s+([IVX]+)\s+([^\n]+)".
Definition section_pattern : str := lit "Section\s+(\d+)[:\s]+([^\n]+)".
Definition article_pattern : str := lit "Article\s+(\d+)\s*-\s*([^\n]+)".

(** [{'number', 'title', 'start', 'end'}] *)
Record Position := {
  pos_number : str; pos_title : str; pos_start : Z; pos_end : option Z
}.

Definition with_end (p : Position) (e : Z) : Position :=
  {| pos_number := pos_number p; pos_title := pos_title p;
     pos_start := pos_start p; pos_end := Some e |}.

Definition found_positions (ms : list Match) : list Position :=
  List.map (fun m => {| pos_number := group m 1;
                        pos_title := strip (group m 2);
                        pos_start := m_start m;
                        pos_end := None |}) ms.

(** Every position ends where the next one starts, the last one at
    [len(text)]. *)
Fixpoint set_end_positions (text_len : Z) (ps : list Position)
  : list Position :=
  match ps with
  | [] => []
  | p :: rest =>
      match rest with
      | [] => [with_end p text_len]
      | q :: _ => with_end p (pos_start q) :: set_end_positions text_len rest
      end
  end.

Definition positions `{Engine} (pattern text : str) : list Position :=
  set_end_positions (len text) (found_positions (finditer pattern [] text)).

(** [prev_start >= pos['start'] and (pos['end'] is None or
    prev_start < pos['end'])] *)
Definition encloses (p : Position) (prev_start : Z) : bool :=
  (pos_start p <=? prev_start)
  && match pos_end p with None => true | Some e => prev_start <? e end.

(** The [for ... if ...: ...; break] scan. *)
Fixpoint enclosing (ps : list Position) (prev_start : Z) : option Heading :=
  match ps with
  | [] => None
  | p :: rest =>
      if encloses p prev_start
      then Some {| h_number := pos_number p; h_title := pos_title p |}
      else enclosing rest prev_start
  end.

Definition new_article (chapter_positions section_positions : list Position)
    (prev_start : Z) (prev_number prev_title content : str) : Article :=
  {| a_number := prev_number; a_title := prev_title; a_content := content;
     a_chapter := enclosing chapter_positions prev_start;
     a_section := enclosing section_positions prev_start;
     a_paragraphs := []; a_requirements := []; a_entities := [] |}.

(** One round of the loop over the article headers: the state is the list
    built so far and [prev_start, prev_number, prev_title]. *)
Definition article_step (text : str) (chs secs : list Position)
    (st : list Article * option (Z * str * str)) (m : Match)
  : list Article * option (Z * str * str) :=
  let '(articles, prev) := st in
  let articles :=
    match prev with
    | Some (prev_start, prev_number, prev_title) =>
        articles ++ [new_article chs secs prev_start prev_number prev_title
                       (strip (slice text prev_start (m_start m)))]
    | None => articles
    end in
  (articles, Some (m_start m, group m 1, strip (group m 2))).

Definition extract_articles_with_structure `{Engine} (text : str)
  : list Article :=
  let chapter_positions := positions chapter_pattern text in
  let section_positions := positions section_pattern text in
  let '(articles, prev) :=
    fold_left (article_step text chapter_positions section_positions)
              (finditer article_pattern [] text) ([], None) in
  match prev with
  | Some (prev_start, prev_number, prev_title) =>
      articles ++ [new_article chapter_positions section_positions
                     prev_start prev_number prev_title
                     (strip (slice_from text prev_start))]
  | None => articles
  end.

(** ** ParagraphDecomposer ([extract_paragraphs_and_subparagraphs]) *)

Definition header_pattern : str := lit "Article\s+(\d+)\s*-\s*([^\n]+)".
Definition paragraph_pattern : str :=
  lit "(\d+)\.(\s+[^0-9]+?)(?=(?:\d+\.)|(?:\([a-z]\))|$)".
Definition subparagraph_pattern : str :=
  lit "\(([a-z])\)([^()]+?)(?=\([a-z]\)|$)".
Definition subsubparagraph_pattern : str :=
  lit "\(([ivx]+)\)([^()]+?)(?=\([ivx]+\)|$)".
Definition letter_marker_pattern : str := lit "\([a-z]\)".

Definition set_paragraphs (a : Article) (ps : list Paragraph) : Article :=
  {| a_number := a_number a; a_title := a_title a; a_content := a_content a;
     a_chapter := a_chapter a; a_section := a_section a;
     a_paragraphs := ps;
     a_requirements := a_requirements a; a_entities := a_entities a |}.

Definition subsubparagraph_of (m : Match) : Subsubparagraph :=
  {| ssp_number := group m 1; ssp_text := strip (group m 2) |}.

Definition subparagraph_of `{Engine} (m : Match) : Subparagraph :=
  let subparagraph_text := strip (group m 2) in
  {| sp_letter := group m 1;
     sp_text := subparagraph_text;
     sp_subsubparagraphs :=
       List.map subsubparagraph_of
         (finditer subsubparagraph_pattern [DOTALL] subparagraph_text) |}.

Definition paragraph_of `{Engine} (m : Match) : Paragraph :=
  let number := group m 1 in
  let text := strip (group m 2) in
  let subparagraphs :=
    List.map subparagraph_of (finditer subparagraph_pattern [DOTALL] text) in
  match subparagraphs with
  | _ :: _ =>
      {| p_number := number;
         p_text := strip (hd [] (split letter_marker_pattern text));
         p_subparagraphs := subparagraphs |}
  | [] => {| p_number := number; p_text := text; p_subparagraphs := [] |}
  end.

Definition extract_paragraphs_and_subparagraphs `{Engine} (article : Article)
  : Article :=
  let content := strip (sub_empty header_pattern (a_content article)) in
  let paragraphs :=
    List.map paragraph_of (finditer paragraph_pattern [DOTALL] content) in
  let paragraphs :=
    match paragraphs with
    | [] => [{| p_number := lit "1"; p_text := content;
                p_subparagraphs := [] |}]
    | _ :: _ => paragraphs
    end in
  set_paragraphs article paragraphs.

(** ** RequirementClassifier ([extract_requirements]) *)

Definition obligation_keywords : list str :=
  List.map lit ["shall"; "must"; "required"; "ensure"; "necessary";
                "obligation"; "right"; "responsibility"; "liable";
                "accountable"; "duty"; "comply"]%string.

Definition right_keywords : list str :=
  List.map lit ["right to"; "entitled to"; "freedom of"; "liberty to"]%string.

Definition time_keywords : list str :=
  List.map lit ["within"; "days"; "months"; "years"; "period"; "delay";
                "without undue delay"; "immediately"; "promptly";
                "no later than"]%string.

Definition entity_labels : list str :=
  List.map lit ["ORG"; "PERSON"; "GPE"; "LOC"; "NORP"]%string.

(** [any(keyword in sent_text.lower() for keyword in keywords)] *)
Definition any_keyword `{Lower} (keywords : list str) (sent_text : str) : bool :=
  existsb (fun keyword => contains keyword (lower sent_text)) keywords.

Definition set_requirements (a : Article) (rs : list Requirement)
    (es : list Entity) : Article :=
  {| a_number := a_number a; a_title := a_title a; a_content := a_content a;
     a_chapter := a_chapter a; a_section := a_section a;
     a_paragraphs := a_paragraphs a;
     a_requirements := rs; a_entities := es |}.

(** The body of the loop over the sentences of one paragraph
    ([subparagraph = None]) or subparagraph; the state is the local list
    [requirements] and the instance attribute [self.time_requirements]. *)
Definition classify_sentence `{Lower} (article_number paragraph : str)
    (subparagraph : option str)
    (st : list Requirement * list TimeRequirement) (sent : str)
  : list Requirement * list TimeRequirement :=
  let '(requirements, time_requirements) := st in
  let sent_text := strip sent in
  let is_obligation := any_keyword obligation_keywords sent_text in
  let is_right := any_keyword right_keywords sent_text in
  let is_time_requirement := any_keyword time_keywords sent_text in
  if is_obligation || is_right then
    let req := {| r_paragraph := paragraph; r_subparagraph := subparagraph;
                  r_text := sent_text; r_is_obligation := is_obligation;
                  r_is_right := is_right;
                  r_is_time_requirement := is_time_requirement |} in
    let requirements := requirements ++ [req] in
    if is_time_requirement then
      (requirements,
       time_requirements ++
         [{| t_article := article_number; t_paragraph := paragraph;
             t_subparagraph := subparagraph; t_text := sent_text |}])
    else (requirements, time_requirements)
  else (requirements, time_requirements).

Definition classify_subparagraph `{Lower} `{NLP} (article_number paragraph : str)
    (st : list Requirement * list TimeRequirement) (subpara : Subparagraph)
  : list Requirement * list TimeRequirement :=
  fold_left (classify_sentence article_number paragraph
               (Some (sp_letter subpara)))
            (sents (sp_text subpara)) st.

Definition classify_paragraph `{Lower} `{NLP} (article_number : str)
    (st : list Requirement * list TimeRequirement) (para : Paragraph)
  : list Requirement * list TimeRequirement :=
  let st := fold_left (classify_sentence article_number (p_number para) None)
                      (sents (p_text para)) st in
  fold_left (classify_subparagraph article_number (p_number para))
            (p_subparagraphs para) st.

Definition entity_of (ent : Span) : Entity :=
  {| e_text := ent_text ent; e_label := ent_label ent;
     e_start := ent_start_char ent; e_end := ent_end_char ent |}.

(** Returns the updated article and the updated [self.time_requirements]. *)
Definition extract_requirements `{Lower} `{NLP} (article : Article)
    (time_requirements : list TimeRequirement)
  : Article * list TimeRequirement :=
  let entities :=
    List.map entity_of
      (List.filter (fun ent => mem (ent_label ent) entity_labels)
                   (ents (a_content article))) in
  let '(requirements, time_requirements) :=
    fold_left (classify_paragraph (a_number article))
              (a_paragraphs article) ([], time_requirements) in
  (set_requirements article requirements entities, time_requirements).

(** ** CrossReferenceExtractor ([extract_cross_references]) *)

Definition article_ref_pattern : str :=
  lit "Article\s+(\d+)(?:\s*\(\s*(\d+)\s*\))?".

(** [match.group(2) if match.group(2) else None] *)
Definition truthy_group (m : Match) (i : nat) : option str :=
  match group_opt m i with
  | Some (c :: g) => Some (c :: g)
  | _ => None
  end.

Definition reference_of (m : Match) : Reference :=
  {| ref_article := group m 1; ref_paragraph := truthy_group m 2 |}.

(** The body of the loop over the matches of one article;
    [cross_references] is a [defaultdict(list)]. *)
Definition add_reference (article_num : str)
    (cross_references : Dict.t str (list Reference)) (m : Match)
  : Dict.t str (list Reference) :=
  let reference := reference_of m in
  if bool_decide (ref_article reference <> article_num) then
    let cross_references := Dict.touch cross_references article_num [] in
    let current := default [] (Dict.get cross_references article_num) in
    if negb (mem reference current)
    then Dict.set cross_references article_num (current ++ [reference])
    else cross_references
  else cross_references.

Definition extract_cross_references `{Engine} (articles : list Article)
  : Dict.t str (list Reference) :=
  fold_left
    (fun cross_references article =>
       fold_left (add_reference (a_number article))
                 (finditer article_ref_pattern [] (a_content article))
                 cross_references)
    articles [].

(** ** DefinitionExtractor ([extract_definitions]) *)

(** The double quote and the backslash, kept out of the literals. *)
Definition DQ : str := [34%N].
Definition BS : str := [92%N].

Definition quoted_term : str :=
  lit "[\'" ++ DQ ++ lit "]([^\'" ++ BS ++ DQ ++ lit "]+)[\'" ++ DQ ++ lit "]".

Definition definition_patterns : list str :=
  [quoted_term ++ lit " means (.+)";
   quoted_term ++ lit " refers to (.+)";
   quoted_term ++ lit " shall mean (.+)"].

Definition add_definitions `{Engine} (article paragraph : str)
    (subparagraph : option str) (text : str)
    (definitions : Dict.t str Definition_) : Dict.t str Definition_ :=
  fold_left
    (fun definitions pattern =>
       fold_left
         (fun definitions m =>
            let term := strip (group m 1) in
            Dict.set definitions term
              {| d_term := term; d_definition := strip (group m 2);
                 d_article := article; d_paragraph := paragraph;
                 d_subparagraph := subparagraph |})
         (finditer pattern [IGNORECASE] text) definitions)
    definition_patterns definitions.

Definition extract_definitions `{Lower} `{Engine} (articles : list Article)
  : Dict.t str Definition_ :=
  let definition_articles :=
    List.filter (fun a => contains (lit "definition") (lower (a_title a))
                          || bool_decide (a_number a = lit "4")) articles in
  fold_left
    (fun definitions article =>
       fold_left
         (fun definitions paragraph =>
            let definitions :=
              add_definitions (a_number article) (p_number paragraph) None
                              (p_text paragraph) definitions in
            fold_left
              (fun definitions subpara =>
                 add_definitions (a_number article) (p_number paragraph)
                                 (Some (sp_letter subpara)) (sp_text subpara)
                                 definitions)
              (p_subparagraphs paragraph) definitions)
         (a_paragraphs article) definitions)
    definition_articles [].

(** ** Recitals and table of contents *)

Definition recital_pattern : str :=
  lit "\((\d+)\)\s+([^(]+?)(?=\(\d+\)|HAVE ADOPTED THIS REGULATION)".

Definition extract_recitals `{Engine} (text : str) : list Recital :=
  List.map (fun m => {| rc_number := group m 1;
                        rc_content := strip (group m 2) |})
           (finditer recital_pattern [DOTALL] text).

Definition toc_pattern : str :=
  lit "(?:TABLE OF CONTENTS|CONTENTS|INDEX)(.*?)(?:CHAPTER|Article|HAVE ADOPTED THIS REGULATION)".

Definition headings_in `{Engine} (pattern text : str) : list Heading :=
  List.map (fun m => {| h_number := group m 1; h_title := strip (group m 2) |})
           (finditer pattern [] text).

(** [extract_table_of_contents] appends to [self.chapters] and
    [self.sections]; it returns their new values. *)
Definition extract_table_of_contents `{Engine} (full_text : str)
    (chapters sections : list Heading) : list Heading * list Heading :=
  let '(chapters, sections) :=
    match search toc_pattern [DOTALL] full_text with
    | Some toc_match =>
        let toc_text := group toc_match 1 in
        (chapters ++ headings_in chapter_pattern toc_text,
         sections ++ headings_in section_pattern toc_text)
    | None => (chapters, sections)
    end in
  match chapters with
  | [] => (chapters ++ headings_in chapter_pattern full_text,
           sections ++ headings_in section_pattern full_text)
  | _ :: _ => (chapters, sections)
  end.

(** ** Key actors ([identify_key_actors]) *)

Definition actor_keywords : Dict.t str (list str) :=
  [(lit "data_subject", List.map lit ["data subject"; "natural person";
                                      "concerned person"; "individual"]%string);
   (lit "controller", List.map lit ["controller"; "joint controller"]%string);
   (lit "processor", List.map lit ["processor"; "sub-processor"]%string);
   (lit "authority", List.map lit ["supervisory authority";
                                   "competent authority";
                                   "lead authority"]%string);
   (lit "third_party", List.map lit ["third party"; "third-party";
                                     "third country"]%string);
   (lit "recipient", List.map lit ["recipient"]%string)].

Definition identify_key_actors `{Lower} `{NLP} (articles : list Article)
  : Dict.t str (list Mention) :=
  fold_left
    (fun actors article =>
       let content := lower (a_content article) in
       fold_left
         (fun actors '(actor_type, keywords) =>
            fold_left
              (fun actors keyword =>
                 if contains keyword content then
                   fold_left
                     (fun actors sent =>
                        if contains keyword (lower sent) then
                          Dict.set actors actor_type
                            (default [] (Dict.get actors actor_type) ++
                               [{| mn_article := a_number article;
                                   mn_text := strip sent |}])
                        else actors)
                     (sents (a_content article)) actors
                 else actors)
              keywords actors)
         actor_keywords actors)
    articles
    (List.map (fun '(actor_type, _) => (actor_type, [])) actor_keywords).

(** ** Vocabulary of the statements about the extraction stages *)

(** [x] lies in the half-open interval [[start, end)] of [p]. *)
Definition covers (p : Position) (x : Z) : Prop :=
  exists e, pos_end p = Some e /\ pos_start p <= x < e.

Definition heading_of (p : Position) : Heading :=
  {| h_number := pos_number p; h_title := pos_title p |}.

(** [r] is the heading of the first interval of [ps], in list order, that
    covers [x]; [None] when no interval covers it. *)
Definition first_covering (ps : list Position) (x : Z) (r : option Heading)
  : Prop :=
  match r with
  | Some h =>
      exists before p after,
        ps = before ++ p :: after /\ covers p x /\
        Forall (fun q => ~ covers q x) before /\ h = heading_of p
  | None => Forall (fun q => ~ covers q x) ps
  end.

(** A sentence handed to the classifier, with the paragraph and the
    subparagraph it was segmented from. *)
Record Sentence := {
  s_paragraph : str; s_subparagraph : option str; s_text : str
}.

(** The sentences of an article in the order [extract_requirements] visits
    them: per paragraph, those of its text, then those of each of its
    subparagraphs. *)
Definition sentences_of `{NLP} (article : Article) : list Sentence :=
  flat_map
    (fun para =>
       List.map (fun s => {| s_paragraph := p_number para;
                             s_subparagraph := None; s_text := strip s |})
                (sents (p_text para))
       ++ flat_map
            (fun subpara =>
               List.map (fun s => {| s_paragraph := p_number para;
                                     s_subparagraph := Some (sp_letter subpara);
                                     s_text := strip s |})
                        (sents (sp_text subpara)))
            (p_subparagraphs para))
    (a_paragraphs article).

Definition obligation_flag `{Lower} (s : Sentence) : bool :=
  any_keyword obligation_keywords (s_text s).
Definition right_flag `{Lower} (s : Sentence) : bool :=
  any_keyword right_keywords (s_text s).
Definition time_flag `{Lower} (s : Sentence) : bool :=
  any_keyword time_keywords (s_text s).

Definition requirement_for `{Lower} (s : Sentence) : Requirement :=
  {| r_paragraph := s_paragraph s; r_subparagraph := s_subparagraph s;
     r_text := s_text s; r_is_obligation := obligation_flag s;
     r_is_right := right_flag s; r_is_time_requirement := time_flag s |}.

Definition time_requirement_for (article_number : str) (s : Sentence)
  : TimeRequirement :=
  {| t_article := article_number; t_paragraph := s_paragraph s;
     t_subparagraph := s_subparagraph s; t_text := s_text s |}.

(** The references that the pattern finds in the articles numbered
    [source], in document order. *)
Definition mentions `{Engine} (articles : list Article) (source : str)
  : list Reference :=
  flat_map
    (fun a => List.map reference_of
                (finditer article_ref_pattern [] (a_content a)))
    (List.filter (fun a => bool_decide (a_number a = source)) articles).

(** The elements of [l] not in [seen], each at its first occurrence. *)
Fixpoint first_seen {A} `{EqDecision A} (seen l : list A) : list A :=
  match l with
  | [] => []
  | x :: l' =>
      if mem x seen then first_seen seen l'
      else x :: first_seen (seen ++ [x]) l'
  end.

(** [cross_references.get(source, [])] *)
Definition references_from (cross_references : Dict.t str (list Reference))
    (source : str) : list Reference :=
  default [] (Dict.get cross_references source).

(** ** Concrete instances of the interfaces, for examples *)

(** [str.lower()] on the ASCII range. *)
Definition ascii_lower : Lower :=
  List.map (fun c => if ((65 <=? c) && (c <=? 90))%N then (c + 32)%N else c).

(** An engine that answers [finditer] from a table of (pattern, text,
    matches) and finds nothing elsewhere. *)
Definition scripted_engine (script : list (str * str * list Match)) : Engine :=
  {| finditer pattern _ text :=
       default [] (Dict.get (List.map (fun '(p, t, ms) => ((p, t), ms)) script)
                            (pattern, text));
     search _ _ _ := None;
     sub_empty _ text := text;
     split _ text := [text] |}.

(** Sentences end after each full stop. *)
Fixpoint split_sentences (cur : str) (text : str) : list str :=
  match text with
  | [] => match cur with [] => [] | _ :: _ => [cur] end
  | c :: rest =>
      if (c =? 46)%N then (cur ++ [c]) :: split_sentences [] rest
      else split_sentences (cur ++ [c]) rest
  end.

Definition full_stop_nlp : NLP :=
  {| sents := split_sentences []; ents _ := [] |}.

(** ** Vocabulary of the statements about the normaliser *)

Definition NEWLINE : char := 10%N.

(** No two neighbouring code points of [s] are both whitespace. *)
Definition no_adjacent_whitespace (s : str) : Prop :=
  forall before c d after,
    s = before ++ c :: d :: after -> isspace c && isspace d = false.

(** [f] leaves text without whitespace alone and turns a maximal run of
    whitespace between two pieces of text into one U+0020. *)
Definition collapses_whitespace_runs (f : str -> str) : Prop :=
  (forall w, forallb (fun c => negb (isspace c)) w = true -> f w = w) /\
  (forall a run b,
     run <> [] -> forallb isspace run = true ->
     isspace (List.last a 0%N) = false -> isspace (hd 0%N b) = false ->
     f (a ++ run ++ b) = f a ++ SP :: f b).

(** ** The SQLite store: schema, connection and statements *)

Module Sql.

(** A value of a column or of a fetched row: [None], an [int] or a [str]. *)
Inductive Value := Null | Int (z : Z) | Text (s : str).

#[global] Instance Value_eq_dec : EqDecision Value.
Proof. solve_decision. Defined.

(** A row: its [id] (the rowid) and its other columns, in schema order. *)
Record Row := { rowid : Z; cells : list (string * Value) }.

(** The value of column [name] of [r]. *)
Definition col (r : Row) (name : string) : Value :=
  if bool_decide (name = "id"%string) then Int (rowid r)
  else default Null (Dict.get (cells r) name).

(** A database: table name to rows, in rowid order. *)
Abbreviation DB := (gmap string (list Row)).

(** The rows of table [t]; a table that the database does not have has no
    rows.  A statement that names such a table raises in SQLite ("no such
    table"): [execute] below checks for it, and so do the read operations
    [search] and [requirements_for_role].  [get_article] and
    [export_articles] read the tables through [table]: they are given for
    the databases that have the tables of the schema, as every database has
    that [init_database] has opened. *)
Definition table (db : DB) (t : string) : list Row := default [] (db !! t).

Record Column := {
  c_name : string; c_not_null : bool; c_references : option string
}.

Definition column (name : string) : Column :=
  {| c_name := name; c_not_null := false; c_references := None |}.
Definition not_null (name : string) : Column :=
  {| c_name := name; c_not_null := true; c_references := None |}.
Definition foreign_key (name parent : string) : Column :=
  {| c_name := name; c_not_null := false; c_references := Some parent |}.
Definition not_null_key (name parent : string) : Column :=
  {| c_name := name; c_not_null := true; c_references := Some parent |}.

(** The tables of [init_database], without their [id INTEGER PRIMARY KEY]. *)
Definition schema : Dict.t string (list Column) :=
  [("chapters", [not_null "number"; not_null "title"]);
   ("sections", [foreign_key "chapter_id" "chapters"; not_null "number";
                 not_null "title"]);
   ("articles", [not_null "number"; not_null "title"; column "content";
                 foreign_key "chapter_id" "chapters";
                 foreign_key "section_id" "sections"]);
   ("recitals", [not_null "number"; not_null "content"]);
   ("paragraphs", [not_null_key "article_id" "articles"; not_null "number";
                   not_null "text"]);
   ("subparagraphs", [not_null_key "paragraph_id" "paragraphs";
                      not_null "letter"; not_null "text"]);
   ("subsubparagraphs", [not_null_key "subparagraph_id" "subparagraphs";
                         not_null "number"; not_null "text"]);
   ("requirements", [not_null_key "article_id" "articles";
                     foreign_key "paragraph_id" "paragraphs";
                     foreign_key "subparagraph_id" "subparagraphs";
                     not_null "text"; not_null "is_obligation";
                     not_null "is_right"; not_null "is_time_requirement"]);
   ("entities", [not_null_key "article_id" "articles"; not_null "text";
                 not_null "label"; column "start_pos"; column "end_pos"]);
   ("definitions", [not_null "term"; not_null "definition";
                    foreign_key "article_id" "articles";
                    foreign_key "paragraph_id" "paragraphs";
                    foreign_key "subparagraph_id" "subparagraphs"]);
   ("cross_references", [not_null_key "from_article_id" "articles";
                         not_null_key "to_article_id" "articles";
                         column "to_paragraph"]);
   ("time_requirements", [not_null_key "article_id" "articles";
                          foreign_key "paragraph_id" "paragraphs";
                          foreign_key "subparagraph_id" "subparagraphs";
                          not_null "text"]);
   ("key_actors", [not_null "actor_type";
                   not_null_key "article_id" "articles"; not_null "text"]);
   ("privacy_policy_sections", [not_null "section_name";
                                not_null "description";
                                not_null "related_articles";
                                not_null "required_information"])]%string.

(** [INSERT INTO into (columns) VALUES (values)] *)
Record Insert := {
  into : string; columns : list string; values : list Value
}.

(** The cells of the row a statement inserts: a column that the statement
    does not name is NULL. *)
Definition cells_of (cols : list Column) (stmt : Insert)
  : list (string * Value) :=
  List.map
    (fun c => (c_name c,
               default Null (Dict.get (combine (columns stmt) (values stmt))
                                      (c_name c))))
    cols.

Definition has_rowid (db : DB) (t : string) (id : Z) : bool :=
  existsb (fun r => rowid r =? id) (table db t).

(** NOT NULL, and the foreign keys ([PRAGMA foreign_keys = ON]). *)
Definition satisfies (db : DB) (cells : list (string * Value)) (c : Column)
  : bool :=
  let v := default Null (Dict.get cells (c_name c)) in
  (negb (c_not_null c) || negb (bool_decide (v = Null)))
  && match c_references c, v with
     | Some parent, Int id => has_rowid db parent id
     | Some _, Text _ => false
     | _, _ => true
     end.

(** The rowid of a new row: one more than the largest in the table. *)
Definition next_rowid (rows : list Row) : Z :=
  match rows with
  | [] => 1
  | _ :: _ => 1 + fold_right Z.max 0 (List.map rowid rows)
  end.

(** An open connection with its cursor: the database as the connection sees
    it, uncommitted changes included, and [cursor.lastrowid]. *)
Record Session := { view : DB; lastrowid : Z }.

(** The database file and the connection of the parser ([self.conn],
    [self.cursor]), if one is open. *)
Record Store := { disk : DB; conn : option Session }.

Definition view_of (s : Store) : DB :=
  match conn s with Some c => view c | None => ∅ end.

Inductive Error :=
| IntegrityError      (* a constraint failed *)
| OperationalError    (* no such table, or the storage failed *)
| AttributeError      (* no connection: [self.cursor] is [None] *)
| ReadError.          (* the document could not be read *)

(** The result of running a piece of the program: a value or an exception,
    and the state it leaves. *)
Inductive Outcome (S A : Type) :=
| Returned (a : A) (s : S)
| Raised (e : Error) (s : S).
Arguments Returned {S A}.
Arguments Raised {S A}.

Definition M (A : Type) : Type := Store -> Outcome Store A.

#[global] Instance M_ret : MRet M := fun A a s => Returned a s.
#[global] Instance M_bind : MBind M := fun A B f m s =>
  match m s with
  | Returned a s' => f a s'
  | Raised e s' => Raised e s'
  end.

(** Failures of the storage itself (disk full, I/O error, lock): which
    statement fails in which state is up to the environment. *)
Class Storage := storage_fails : Insert -> DB -> bool.

(** [self.cursor.execute("INSERT ...", values)].  Python's [sqlite3] opens a
    transaction before the first INSERT; a failing statement changes nothing
    and leaves the transaction open. *)
Definition execute `{Storage} (stmt : Insert) : M unit := fun s =>
  match conn s with
  | None => Raised AttributeError s
  | Some c =>
      match Dict.get schema (into stmt), view c !! into stmt with
      | Some cols, Some rows =>
          if storage_fails stmt (view c) then Raised OperationalError s
          else
            let cells := cells_of cols stmt in
            if forallb (satisfies (view c) cells) cols then
              let id := next_rowid rows in
              Returned tt
                {| disk := disk s;
                   conn := Some
                     {| view := <[into stmt :=
                                    rows ++ [{| rowid := id; cells := cells |}]]>
                                (view c);
                        lastrowid := id |} |}
            else Raised IntegrityError s
      | _, _ => Raised OperationalError s
      end
  end.

(** [self.cursor.lastrowid] *)
Definition cursor_lastrowid : M Z := fun s =>
  match conn s with
  | None => Raised AttributeError s
  | Some c => Returned (lastrowid c) s
  end.

(** [self.conn.commit()] *)
Definition commit : M unit := fun s =>
  match conn s with
  | None => Raised AttributeError s
  | Some c => Returned tt {| disk := view c; conn := Some c |}
  end.

(** [sqlite3.connect(db_path)]: a connection dropped without a commit loses
    its changes. *)
Definition connect (s : Store) : Store :=
  {| disk := disk s; conn := Some {| view := disk s; lastrowid := 0 |} |}.

(** [if not self.conn: self.conn = sqlite3.connect(self.db_path)] *)
Definition ensure_connected (s : Store) : Store :=
  match conn s with Some _ => s | None => connect s end.

(** [self.conn.close()] *)
Definition close (s : Store) : Store := {| disk := disk s; conn := None |}.

(** [for x in l: acc = body(acc, x)] *)
Fixpoint foldM {A B} (body : B -> A -> M B) (l : list A) (acc : B) : M B :=
  match l with
  | [] => mret acc
  | x :: l' => acc' ← body acc x; foldM body l' acc'
  end.

(** [for x in l: body(x)] *)
Definition for_each {A} (l : list A) (body : A -> M unit) : M unit :=
  foldM (fun _ x => body x) l tt.

End Sql.

Import Sql.

(** ** KnowledgeStore: [init_database] and [populate_database] *)

(** The parsing caches of the parser instance. *)
Record Caches := {
  chapters : list Heading;
  sections : list Heading;
  definitions : Dict.t str Definition_;
  cross_references : Dict.t str (list Reference);
  time_requirements : list TimeRequirement
}.

Definition no_caches : Caches :=
  {| chapters := []; sections := []; definitions := [];
     cross_references := []; time_requirements := [] |}.

(** The DDL of [init_database] runs outside a transaction:
    [CREATE TABLE IF NOT EXISTS] for every table of the schema. *)
Definition create_tables (db : DB) : DB :=
  fold_left (fun db '(name, _) =>
               match db !! name with
               | Some _ => db
               | None => <[name := []]> db
               end)
            schema db.

(** [init_database] opens a new connection, creates the tables and resets
    the caches. *)
Definition init_database (s : Store) : Store * Caches :=
  let db := create_tables (disk s) in
  ({| disk := db; conn := Some {| view := db; lastrowid := 0 |} |}, no_caches).

Definition opt_int (v : option Z) : Value :=
  match v with Some z => Int z | None => Null end.
Definition opt_text (v : option str) : Value :=
  match v with Some t => Text t | None => Null end.
Definition boolean (b : bool) : Value := Int (if b then 1 else 0).

(** Truth value of an optional string: [None] and [''] are false. *)
Definition truthy (v : option str) : bool :=
  match v with Some (_ :: _) => true | _ => false end.

(** Truth value of an optional row id: [None] and [0] are false. *)
Definition truthy_id (v : option Z) : bool :=
  match v with Some z => negb (z =? 0) | None => false end.

(** The INSERT statements of [populate_database]. *)
Definition insert_chapter (chapter : Heading) : Insert :=
  {| into := "chapters"; columns := ["number"; "title"];
     values := [Text (h_number chapter); Text (h_title chapter)] |}%string.

Definition insert_section (chapter_id : option Z) (section : Heading) : Insert :=
  {| into := "sections"; columns := ["chapter_id"; "number"; "title"];
     values := [opt_int chapter_id; Text (h_number section);
                Text (h_title section)] |}%string.

Definition insert_recital (recital : Recital) : Insert :=
  {| into := "recitals"; columns := ["number"; "content"];
     values := [Text (rc_number recital); Text (rc_content recital)] |}%string.

Definition insert_article (article : Article) (chapter_id section_id : option Z)
  : Insert :=
  {| into := "articles";
     columns := ["number"; "title"; "content"; "chapter_id"; "section_id"];
     values := [Text (a_number article); Text (a_title article);
                Text (a_content article); opt_int chapter_id;
                opt_int section_id] |}%string.

Definition insert_paragraph (article_id : Z) (paragraph : Paragraph) : Insert :=
  {| into := "paragraphs"; columns := ["article_id"; "number"; "text"];
     values := [Int article_id; Text (p_number paragraph);
                Text (p_text paragraph)] |}%string.

Definition insert_subparagraph (paragraph_id : Z) (subparagraph : Subparagraph)
  : Insert :=
  {| into := "subparagraphs"; columns := ["paragraph_id"; "letter"; "text"];
     values := [Int paragraph_id; Text (sp_letter subparagraph);
                Text (sp_text subparagraph)] |}%string.

Definition insert_subsubparagraph (subparagraph_id : Z)
    (subsubparagraph : Subsubparagraph) : Insert :=
  {| into := "subsubparagraphs";
     columns := ["subparagraph_id"; "number"; "text"];
     values := [Int subparagraph_id; Text (ssp_number subsubparagraph);
                Text (ssp_text subsubparagraph)] |}%string.

Definition insert_requirement (article_id : Z)
    (paragraph_id subparagraph_id : option Z) (requirement : Requirement)
  : Insert :=
  {| into := "requirements";
     columns := ["article_id"; "paragraph_id"; "subparagraph_id"; "text";
                 "is_obligation"; "is_right"; "is_time_requirement"];
     values := [Int article_id; opt_int paragraph_id; opt_int subparagraph_id;
                Text (r_text requirement);
                boolean (r_is_obligation requirement);
                boolean (r_is_right requirement);
                boolean (r_is_time_requirement requirement)] |}%string.

Definition insert_entity (article_id : Z) (entity : Entity) : Insert :=
  {| into := "entities";
     columns := ["article_id"; "text"; "label"; "start_pos"; "end_pos"];
     values := [Int article_id; Text (e_text entity); Text (e_label entity);
                Int (e_start entity); Int (e_end entity)] |}%string.

Definition insert_definition (term : str) (definition : Definition_)
    (article_id paragraph_id subparagraph_id : option Z) : Insert :=
  {| into := "definitions";
     columns := ["term"; "definition"; "article_id"; "paragraph_id";
                 "subparagraph_id"];
     values := [Text term; Text (d_definition definition); opt_int article_id;
                opt_int paragraph_id; opt_int subparagraph_id] |}%string.

Definition insert_cross_reference (from_article_id to_article_id : Z)
    (reference : Reference) : Insert :=
  {| into := "cross_references";
     columns := ["from_article_id"; "to_article_id"; "to_paragraph"];
     values := [Int from_article_id; Int to_article_id;
                opt_text (ref_paragraph reference)] |}%string.

Definition insert_time_requirement
    (article_id paragraph_id subparagraph_id : option Z)
    (time_req : TimeRequirement) : Insert :=
  {| into := "time_requirements";
     columns := ["article_id"; "paragraph_id"; "subparagraph_id"; "text"];
     values := [opt_int article_id; opt_int paragraph_id;
                opt_int subparagraph_id; Text (t_text time_req)] |}%string.

Definition insert_key_actor (actor_type : str) (article_id : Z)
    (mention : Mention) : Insert :=
  {| into := "key_actors"; columns := ["actor_type"; "article_id"; "text"];
     values := [Text actor_type; Int article_id;
                Text (mn_text mention)] |}%string.

Definition insert_policy_section (section : string * string * string * string)
  : Insert :=
  let '(section_name, description, related_articles, required_information) :=
    section in
  {| into := "privacy_policy_sections";
     columns := ["section_name"; "description"; "related_articles";
                 "required_information"];
     values := [Text (lit section_name); Text (lit description);
                Text (lit related_articles);
                Text (lit required_information)] |}%string.

Definition privacy_policy_sections
  : list (string * string * string * string) :=
  [("Identity and Contact Details",
    "Information about the data controller and their contact details",
    "13(1)(a), 14(1)(a)",
    "Controller identity, contact details, DPO contact if applicable");
   ("Types of Data Collected",
    "Categories of personal data being processed",
    "13(1)(c), 14(1)(d)",
    "Description of all categories of personal data processed");
   ("Purposes of Processing",
    "Purposes for which personal data is processed",
    "13(1)(c), 14(1)(c)",
    "All purposes for which data is collected and processed");
   ("Legal Basis",
    "Legal basis for processing personal data",
    "13(1)(c), 14(1)(c)",
    "Legal basis under Article 6 (and Article 9 if applicable)");
   ("Recipients of Data",
    "Third parties who receive the data",
    "13(1)(e), 14(1)(e)",
    "Recipients or categories of recipients of personal data");
   ("Data Transfers",
    "Information about international data transfers",
    "13(1)(f), 14(1)(f)",
    "Details of transfers to third countries, safeguards, means to obtain copy");
   ("Retention Period",
    "How long data will be stored",
    "13(2)(a), 14(2)(a)",
    "Period data will be stored or criteria to determine period");
   ("Data Subject Rights",
    "Rights available to individuals",
    "13(2)(b), 14(2)(c)",
    "Access, rectification, erasure, restriction, objection, portability rights");
   ("Withdrawal of Consent",
    "Right to withdraw consent at any time",
    "13(2)(c), 14(2)(d)",
    "Information about right to withdraw consent and how to do so");
   ("Complaint Rights",
    "Right to lodge a complaint with supervisory authority",
    "13(2)(d), 14(2)(e)",
    "Right to lodge complaint and contact details of supervisory authority");
   ("Automated Decision Making",
    "Information about automated decision-making, including profiling",
    "13(2)(f), 14(2)(g)",
    "Existence, logic involved, significance and consequences of such processing")
  ]%string.

(** The chapter of a section: that of the first article tagged with both. *)
Fixpoint section_chapter_id (chapter_id_map : gmap str Z)
    (section : Heading) (articles : list Article) : option Z :=
  match articles with
  | [] => None
  | article :: rest =>
      match a_section article, a_chapter article with
      | Some s, Some c =>
          if bool_decide (h_number s = h_number section)
          then chapter_id_map !! h_number c
          else section_chapter_id chapter_id_map section rest
      | _, _ => section_chapter_id chapter_id_map section rest
      end
  end.

Section Populate.
Context `{Storage}.

Definition populate_chapters (self : Caches) : M (gmap str Z) :=
  foldM (fun (chapter_id_map : gmap str Z) chapter =>
           execute (insert_chapter chapter);;
           chapter_id ← cursor_lastrowid;
           mret (<[h_number chapter := chapter_id]> chapter_id_map))
        (chapters self) ∅.

Definition populate_sections (self : Caches) (articles : list Article)
    (chapter_id_map : gmap str Z) : M (gmap str Z) :=
  foldM (fun (section_id_map : gmap str Z) section =>
           let chapter_id :=
             section_chapter_id chapter_id_map section articles in
           execute (insert_section chapter_id section);;
           section_id ← cursor_lastrowid;
           mret (<[h_number section := section_id]> section_id_map))
        (sections self) ∅.

Definition populate_subparagraph (article : Article) (paragraph : Paragraph)
    (paragraph_id : Z) (subparagraph_id_map : gmap (str * str * str) Z)
    (subparagraph : Subparagraph) : M (gmap (str * str * str) Z) :=
  execute (insert_subparagraph paragraph_id subparagraph);;
  subparagraph_id ← cursor_lastrowid;
  for_each (sp_subsubparagraphs subparagraph)
    (fun subsubparagraph =>
       execute (insert_subsubparagraph subparagraph_id subsubparagraph));;
  mret (<[(a_number article, p_number paragraph, sp_letter subparagraph)
          := subparagraph_id]> subparagraph_id_map).

Definition populate_paragraph (article : Article) (article_id : Z)
    (maps : gmap (str * str) Z * gmap (str * str * str) Z)
    (paragraph : Paragraph)
  : M (gmap (str * str) Z * gmap (str * str * str) Z) :=
  let '(paragraph_id_map, subparagraph_id_map) := maps in
  execute (insert_paragraph article_id paragraph);;
  paragraph_id ← cursor_lastrowid;
  subparagraph_id_map ←
    foldM (populate_subparagraph article paragraph paragraph_id)
          (p_subparagraphs paragraph) subparagraph_id_map;
  mret (<[(a_number article, p_number paragraph) := paragraph_id]>
          paragraph_id_map, subparagraph_id_map).

Definition populate_requirement (article : Article) (article_id : Z)
    (paragraph_id_map : gmap (str * str) Z)
    (subparagraph_id_map : gmap (str * str * str) Z)
    (requirement : Requirement) : M unit :=
  let paragraph_id :=
    paragraph_id_map !! (a_number article, r_paragraph requirement) in
  let subparagraph_id :=
    if truthy (r_subparagraph requirement)
    then subparagraph_id_map !!
           (a_number article, r_paragraph requirement,
            default [] (r_subparagraph requirement))
    else None in
  execute (insert_requirement article_id paragraph_id subparagraph_id
                              requirement).

Definition IdMaps : Type :=
  gmap str Z * gmap (str * str) Z * gmap (str * str * str) Z.

Definition populate_article (chapter_id_map section_id_map : gmap str Z)
    (maps : IdMaps) (article : Article) : M IdMaps :=
  let '(article_id_map, paragraph_id_map, subparagraph_id_map) := maps in
  let chapter_id :=
    match a_chapter article with
    | Some c => chapter_id_map !! h_number c
    | None => None
    end in
  let section_id :=
    match a_section article with
    | Some s => section_id_map !! h_number s
    | None => None
    end in
  execute (insert_article article chapter_id section_id);;
  article_id ← cursor_lastrowid;
  let article_id_map := <[a_number article := article_id]> article_id_map in
  '(paragraph_id_map, subparagraph_id_map) ←
    foldM (populate_paragraph article article_id) (a_paragraphs article)
          (paragraph_id_map, subparagraph_id_map);
  for_each (a_requirements article)
    (populate_requirement article article_id paragraph_id_map
                          subparagraph_id_map);;
  for_each (a_entities article)
    (fun entity => execute (insert_entity article_id entity));;
  mret (article_id_map, paragraph_id_map, subparagraph_id_map).

Definition populate_definition (maps : IdMaps)
    (item : str * Definition_) : M unit :=
  let '(article_id_map, paragraph_id_map, subparagraph_id_map) := maps in
  let '(term, definition) := item in
  let article_id := article_id_map !! d_article definition in
  let paragraph_id :=
    paragraph_id_map !! (d_article definition, d_paragraph definition) in
  let subparagraph_id :=
    if truthy (d_subparagraph definition)
    then subparagraph_id_map !!
           (d_article definition, d_paragraph definition,
            default [] (d_subparagraph definition))
    else None in
  execute (insert_definition term definition article_id paragraph_id
                             subparagraph_id).

Definition populate_cross_references (article_id_map : gmap str Z)
    (item : str * list Reference) : M unit :=
  let '(from_article, references) := item in
  let from_article_id := article_id_map !! from_article in
  if truthy_id from_article_id then
    for_each references
      (fun reference =>
         let to_article_id := article_id_map !! ref_article reference in
         if truthy_id to_article_id
         then execute (insert_cross_reference (default 0 from_article_id)
                         (default 0 to_article_id) reference)
         else mret tt)
  else mret tt.

Definition populate_time_requirement (maps : IdMaps)
    (time_req : TimeRequirement) : M unit :=
  let '(article_id_map, paragraph_id_map, subparagraph_id_map) := maps in
  let article_id := article_id_map !! t_article time_req in
  let paragraph_id :=
    paragraph_id_map !! (t_article time_req, t_paragraph time_req) in
  let subparagraph_id :=
    if truthy (t_subparagraph time_req)
    then subparagraph_id_map !!
           (t_article time_req, t_paragraph time_req,
            default [] (t_subparagraph time_req))
    else None in
  execute (insert_time_requirement article_id paragraph_id subparagraph_id
                                   time_req).

Definition populate_key_actors (article_id_map : gmap str Z)
    (item : str * list Mention) : M unit :=
  let '(actor_type, mentions) := item in
  for_each mentions
    (fun mention =>
       let article_id := article_id_map !! mn_article mention in
       if truthy_id article_id
       then execute (insert_key_actor actor_type (default 0 article_id)
                                      mention)
       else mret tt).

(** The statements of [populate_database] up to the final commit. *)
Definition populate_rows (self : Caches) (recitals : list Recital)
    (articles : list Article) (actors : Dict.t str (list Mention)) : M unit :=
  chapter_id_map ← populate_chapters self;
  section_id_map ← populate_sections self articles chapter_id_map;
  for_each recitals (fun recital => execute (insert_recital recital));;
  maps ← foldM (populate_article chapter_id_map section_id_map) articles
               (∅, ∅, ∅);
  for_each (definitions self) (populate_definition maps);;
  for_each (cross_references self) (populate_cross_references maps.1.1);;
  for_each (time_requirements self) (populate_time_requirement maps);;
  for_each actors (populate_key_actors maps.1.1);;
  for_each privacy_policy_sections
    (fun section => execute (insert_policy_section section)).

Definition populate_database (self : Caches) (recitals : list Recital)
    (articles : list Article) (actors : Dict.t str (list Mention)) : M unit :=
  populate_rows self recitals articles actors;;
  commit.

End Populate.

(** ** Vocabulary of the statements about population *)

Definition is_foreign_key (t name : string) : bool :=
  existsb (fun c => bool_decide (c_name c = name)
                    && bool_decide (c_references c <> None))
          (default [] (Dict.get schema t)).

(** What a row says apart from its id and its references to other rows. *)
Definition payload (t : string) (cells : list (string * Value))
  : list (string * Value) :=
  List.filter (fun '(name, _) => negb (is_foreign_key t name)) cells.

Definition payloads (db : DB) (t : string) : list (list (string * Value)) :=
  List.map (fun r => payload t (cells r)) (table db t).

(** A statement as a table name and the payload of the row it inserts. *)
Definition Entry : Type := string * list (string * Value).

Definition entry_of (stmt : Insert) : Entry :=
  (into stmt,
   payload (into stmt)
           (cells_of (default [] (Dict.get schema (into stmt))) stmt)).

(** Cross-references and key-actor mentions are inserted only when the
    article they name is known ([if from_article_id:], [if to_article_id:],
    [if article_id:]). *)
Definition guarded (t : string) : bool :=
  bool_decide (t = "cross_references"%string)
  || bool_decide (t = "key_actors"%string).

Definition subparagraph_entries (subparagraph : Subparagraph) : list Entry :=
  entry_of (insert_subparagraph 0 subparagraph)
  :: List.map (fun ssp => entry_of (insert_subsubparagraph 0 ssp))
              (sp_subsubparagraphs subparagraph).

Definition paragraph_entries (paragraph : Paragraph) : list Entry :=
  entry_of (insert_paragraph 0 paragraph)
  :: flat_map subparagraph_entries (p_subparagraphs paragraph).

Definition article_entries (article : Article) : list Entry :=
  entry_of (insert_article article None None)
  :: flat_map paragraph_entries (a_paragraphs article)
  ++ List.map (fun r => entry_of (insert_requirement 0 None None r))
              (a_requirements article)
  ++ List.map (fun e => entry_of (insert_entity 0 e)) (a_entities article).

(** The rows of the model, in insertion order, the guarded tables apart. *)
Definition model_entries (self : Caches) (recitals : list Recital)
    (articles : list Article) : list Entry :=
  List.map (fun c => entry_of (insert_chapter c)) (chapters self)
  ++ List.map (fun s => entry_of (insert_section None s)) (sections self)
  ++ List.map (fun r => entry_of (insert_recital r)) recitals
  ++ flat_map article_entries articles
  ++ List.map (fun '(term, d) =>
                 entry_of (insert_definition term d None None None))
              (definitions self)
  ++ List.map (fun t => entry_of (insert_time_requirement None None None t))
              (time_requirements self)
  ++ List.map (fun p => entry_of (insert_policy_section p))
              privacy_policy_sections.

Definition rows_in (entries : list Entry) (t : string)
  : list (list (string * Value)) :=
  List.map snd (List.filter (fun e => bool_decide (fst e = t)) entries).

Definition model_rows (self : Caches) (recitals : list Recital)
    (articles : list Article) (t : string) : list (list (string * Value)) :=
  rows_in (model_entries self recitals articles) t.

(** A storage that never fails by itself. *)
Definition reliable_storage : Storage := fun _ _ => false.

(** A storage that fails on every statement for table [t]. *)
Definition failing_storage (t : string) : Storage :=
  fun stmt _ => bool_decide (into stmt = t).

Definition empty_store : Store := {| disk := ∅; conn := None |}.

Definition sample_article : Article :=
  {| a_number := lit "5"; a_title := lit "Principles";
     a_content := lit "Article 5 - Principles 1. Data shall be processed lawfully.";
     a_chapter := None; a_section := None;
     a_paragraphs :=
       [{| p_number := lit "1"; p_text := lit "Data shall be processed lawfully.";
           p_subparagraphs := [] |}];
     a_requirements := []; a_entities := [] |}.

(** A time requirement that names an article the store does not hold. *)
Definition stray_caches : Caches :=
  {| chapters := []; sections := []; definitions := [];
     cross_references := [];
     time_requirements :=
       [{| t_article := lit "9"; t_paragraph := lit "1";
           t_subparagraph := None; t_text := lit "within one month" |}] |}.

(** ** The rows of a population, with their ids and references *)

(** The cells of the row a statement inserts. *)
Definition row_cells (stmt : Insert) : list (string * Value) :=
  cells_of (default [] (Dict.get schema (into stmt))) stmt.

(** The cells of the rows that [stmts] insert into table [t], in order. *)
Definition rows_for (t : string) (stmts : list Insert)
  : list (list (string * Value)) :=
  List.map row_cells
           (List.filter (fun stmt => String.eqb (into stmt) t) stmts).

(** Rows with consecutive ids from [first]. *)
Fixpoint new_rows (first : Z) (rows : list (list (string * Value)))
  : list Row :=
  match rows with
  | [] => []
  | c :: rows' => {| rowid := first; cells := c |} :: new_rows (first + 1) rows'
  end.

(** Table [t] of [db] with the rows of [stmts] after its own, numbered from
    its next row id. *)
Definition table_after (db : DB) (stmts : list Insert) (t : string)
  : list Row :=
  table db t ++ new_rows (next_rowid (table db t)) (rows_for t stmts).

(** The ids of chapters or sections that get consecutive ids from [first]:
    a number maps to the id of the last heading that carries it. *)
Fixpoint heading_ids (first : Z) (headings : list Heading) (ids : gmap str Z)
  : gmap str Z :=
  match headings with
  | [] => ids
  | h :: rest => heading_ids (first + 1) rest (<[h_number h := first]> ids)
  end.

(** The rows of a subparagraph: its own, under its paragraph, and those of
    its sub-subparagraphs, under it. *)
Definition subparagraph_rows (paragraph_id subparagraph_id : Z)
    (subparagraph : Subparagraph) : list Insert :=
  insert_subparagraph paragraph_id subparagraph
  :: List.map (insert_subsubparagraph subparagraph_id)
              (sp_subsubparagraphs subparagraph).

(** The rows of the subparagraphs of a paragraph; the subparagraphs get
    consecutive ids from [first]. *)
Fixpoint subparagraphs_rows (paragraph_id first : Z)
    (subparagraphs : list Subparagraph) : list Insert :=
  match subparagraphs with
  | [] => []
  | sp :: rest =>
      subparagraph_rows paragraph_id first sp
      ++ subparagraphs_rows paragraph_id (first + 1) rest
  end.

Fixpoint subparagraph_ids (article : Article) (paragraph : Paragraph)
    (first : Z) (subparagraphs : list Subparagraph)
    (ids : gmap (str * str * str) Z) : gmap (str * str * str) Z :=
  match subparagraphs with
  | [] => ids
  | sp :: rest =>
      subparagraph_ids article paragraph (first + 1) rest
        (<[(a_number article, p_number paragraph, sp_letter sp) := first]> ids)
  end.

(** The rows of the paragraphs of an article, each followed by the rows of
    its subparagraphs; paragraphs and subparagraphs get consecutive ids. *)
Fixpoint paragraphs_rows (article_id first_paragraph first_subparagraph : Z)
    (paragraphs : list Paragraph) : list Insert :=
  match paragraphs with
  | [] => []
  | p :: rest =>
      insert_paragraph article_id p
      :: subparagraphs_rows first_paragraph first_subparagraph
                            (p_subparagraphs p)
      ++ paragraphs_rows article_id (first_paragraph + 1)
           (first_subparagraph + Z.of_nat (length (p_subparagraphs p))) rest
  end.

Fixpoint paragraph_ids (article : Article)
    (first_paragraph first_subparagraph : Z) (paragraphs : list Paragraph)
    (ids : gmap (str * str) Z * gmap (str * str * str) Z)
  : gmap (str * str) Z * gmap (str * str * str) Z :=
  match paragraphs with
  | [] => ids
  | p :: rest =>
      paragraph_ids article (first_paragraph + 1)
        (first_subparagraph + Z.of_nat (length (p_subparagraphs p))) rest
        (<[(a_number article, p_number p) := first_paragraph]> ids.1,
         subparagraph_ids article p first_subparagraph (p_subparagraphs p)
                          ids.2)
  end.

(** The subparagraph that a requirement, a definition or a time requirement
    names, if it names one. *)
Definition named_subparagraph (ids : gmap (str * str * str) Z)
    (article paragraph : str) (subparagraph : option str) : option Z :=
  match subparagraph with
  | Some (c :: letter) => ids !! (article, paragraph, c :: letter)
  | _ => None
  end.

(** The row of a requirement: under its article, with the paragraph and the
    subparagraph it names. *)
Definition requirement_row (article : Article) (article_id : Z)
    (ids : gmap (str * str) Z * gmap (str * str * str) Z)
    (requirement : Requirement) : Insert :=
  insert_requirement article_id
    (ids.1 !! (a_number article, r_paragraph requirement))
    (named_subparagraph ids.2 (a_number article) (r_paragraph requirement)
                        (r_subparagraph requirement))
    requirement.

(** The number of subparagraphs of an article. *)
Definition subparagraph_count (article : Article) : Z :=
  Z.of_nat (length (flat_map p_subparagraphs (a_paragraphs article))).

(** The ids known after an article with id [article_id] was stored. *)
Definition article_ids (article_id first_paragraph first_subparagraph : Z)
    (ids : IdMaps) (article : Article) : IdMaps :=
  let paragraphs :=
    paragraph_ids article first_paragraph first_subparagraph
                  (a_paragraphs article) (ids.1.2, ids.2) in
  (<[a_number article := article_id]> ids.1.1, paragraphs.1, paragraphs.2).

Definition heading_id (ids : gmap str Z) (heading : option Heading)
  : option Z :=
  match heading with Some h => ids !! h_number h | None => None end.

(** The rows of an article: its own, with its chapter and section, then its
    paragraphs with their subparagraphs, its requirements and its
    entities. *)
Definition article_rows (chapter_ids section_ids : gmap str Z)
    (article_id first_paragraph first_subparagraph : Z) (ids : IdMaps)
    (article : Article) : list Insert :=
  insert_article article (heading_id chapter_ids (a_chapter article))
                 (heading_id section_ids (a_section article))
  :: paragraphs_rows article_id first_paragraph first_subparagraph
                     (a_paragraphs article)
  ++ List.map
       (requirement_row article article_id
          (paragraph_ids article first_paragraph first_subparagraph
                         (a_paragraphs article) (ids.1.2, ids.2)))
       (a_requirements article)
  ++ List.map (insert_entity article_id) (a_entities article).

(** The rows of the articles; articles, paragraphs and subparagraphs get
    consecutive ids. *)
Fixpoint articles_rows (chapter_ids section_ids : gmap str Z)
    (first_article first_paragraph first_subparagraph : Z) (ids : IdMaps)
    (articles : list Article) : list Insert :=
  match articles with
  | [] => []
  | a :: rest =>
      article_rows chapter_ids section_ids first_article first_paragraph
                   first_subparagraph ids a
      ++ articles_rows chapter_ids section_ids (first_article + 1)
           (first_paragraph + Z.of_nat (length (a_paragraphs a)))
           (first_subparagraph + subparagraph_count a)
           (article_ids first_article first_paragraph first_subparagraph ids a)
           rest
  end.

Fixpoint articles_ids (first_article first_paragraph first_subparagraph : Z)
    (ids : IdMaps) (articles : list Article) : IdMaps :=
  match articles with
  | [] => ids
  | a :: rest =>
      articles_ids (first_article + 1)
        (first_paragraph + Z.of_nat (length (a_paragraphs a)))
        (first_subparagraph + subparagraph_count a)
        (article_ids first_article first_paragraph first_subparagraph ids a)
        rest
  end.

(** The row of a definition, with the article, the paragraph and the
    subparagraph it names, as far as they are stored. *)
Definition definition_row (ids : IdMaps) (item : str * Definition_)
  : Insert :=
  insert_definition item.1 item.2
    (ids.1.1 !! d_article item.2)
    (ids.1.2 !! (d_article item.2, d_paragraph item.2))
    (named_subparagraph ids.2 (d_article item.2) (d_paragraph item.2)
                        (d_subparagraph item.2)).

(** The rows of the cross-references of one source article: none unless the
    source is a stored article, and then one for each reference to a stored
    article. *)
Definition cross_reference_rows (article_ids : gmap str Z)
    (item : str * list Reference) : list Insert :=
  match article_ids !! item.1 with
  | Some from_article_id =>
      flat_map
        (fun reference =>
           match article_ids !! ref_article reference with
           | Some to_article_id =>
               [insert_cross_reference from_article_id to_article_id reference]
           | None => []
           end)
        item.2
  | None => []
  end.

Definition time_requirement_row (ids : IdMaps) (time_req : TimeRequirement)
  : Insert :=
  insert_time_requirement
    (ids.1.1 !! t_article time_req)
    (ids.1.2 !! (t_article time_req, t_paragraph time_req))
    (named_subparagraph ids.2 (t_article time_req) (t_paragraph time_req)
                        (t_subparagraph time_req))
    time_req.

(** The rows of the mentions of one actor type: one for each mention in a
    stored article. *)
Definition key_actor_rows (article_ids : gmap str Z)
    (item : str * list Mention) : list Insert :=
  flat_map
    (fun mention =>
       match article_ids !! mn_article mention with
       | Some article_id => [insert_key_actor item.1 article_id mention]
       | None => []
       end)
    item.2.

(** The rows of the model, in the order of their insertion, with the ids
    they get and the ids they refer to, in a database whose tables have
    [next] as their next row ids. *)
Definition population (next : string -> Z) (self : Caches)
    (recitals : list Recital) (articles : list Article)
    (actors : Dict.t str (list Mention)) : list Insert :=
  let chapter_ids := heading_ids (next "chapters"%string) (chapters self) ∅ in
  let section_ids := heading_ids (next "sections"%string) (sections self) ∅ in
  let ids :=
    articles_ids (next "articles"%string) (next "paragraphs"%string)
                 (next "subparagraphs"%string) (∅, ∅, ∅) articles in
  List.map insert_chapter (chapters self)
  ++ List.map (fun section =>
                 insert_section (section_chapter_id chapter_ids section articles)
                                section)
              (sections self)
  ++ List.map insert_recital recitals
  ++ articles_rows chapter_ids section_ids (next "articles"%string)
       (next "paragraphs"%string) (next "subparagraphs"%string) (∅, ∅, ∅)
       articles
  ++ List.map (definition_row ids) (definitions self)
  ++ flat_map (cross_reference_rows ids.1.1) (cross_references self)
  ++ List.map (time_requirement_row ids) (time_requirements self)
  ++ flat_map (key_actor_rows ids.1.1) actors
  ++ List.map insert_policy_section privacy_policy_sections.

(** Cross-references from article 5: one to article 3, which is stored with
    it below, and one to an article 99 that is not. *)
Definition referring_caches : Caches :=
  {| chapters := []; sections := []; definitions := [];
     cross_references :=
       [(lit "5", [{| ref_article := lit "3"; ref_paragraph := Some (lit "2") |};
                   {| ref_article := lit "99"; ref_paragraph := None |}])];
     time_requirements := [] |}.

(** ** Auxiliary definitions of the proofs about the rows of a population *)

(** The number of rows that [stmts] insert into table [t]. *)
Definition issued (t : string) (stmts : list Insert) : Z :=
  Z.of_nat (length (rows_for t stmts)).

(** The connection sees the tables of [base] with the rows of [done] after
    them, and it is open once a row was inserted. *)
Definition holds (base : DB) (done : list Insert) (s : Store) : Prop :=
  (forall t, table (view_of s) t = table_after base done t) /\
  (done <> [] -> is_Some (conn s)).

(** From a state where the rows of [done] were inserted, [m] returns [a]
    after it inserted the rows of [delta], or raises after it inserted some
    of them, but not all. *)
Definition runs `{Storage} {A} (base : DB) (done : list Insert) (m : M A)
    (a : A) (delta : list Insert) : Prop :=
  forall s, holds base done s ->
    match m s with
    | Returned a' s' => a' = a /\ holds base (done ++ delta) s'
    | Raised _ s' =>
        exists pre rest,
          delta = pre ++ rest /\ rest <> [] /\ holds base (done ++ pre) s'
    end.

(** Row ids of articles are never 0: an article that is known passes the
    guards [if from_article_id:], [if to_article_id:] and
    [if article_id:]. *)
Definition nonzero (ids : gmap str Z) : Prop :=
  forall k id, ids !! k = Some id -> id <> 0.

(** ** KnowledgeStore: the read operations *)

(** The objects the read operations build: fetched values, booleans, lists
    and dictionaries. *)
#[local] Unset Elimination Schemes.
Inductive Obj :=
| OValue (v : Value)
| OBool (b : bool)
| OList (l : list Obj)
| ODict (d : list (string * Obj)).
#[local] Set Elimination Schemes.

(** [d[key]] and the items of a list *)
Definition field (o : Obj) (key : string) : Obj :=
  match o with
  | ODict d => default (OValue Null) (Dict.get d key)
  | _ => OValue Null
  end.

Definition items (o : Obj) : list Obj :=
  match o with OList l => l | _ => [] end.

(** SQLite's order of values: NULL, then integers, then text compared
    code point by code point (BINARY collation). *)
Definition value_leb (a b : Value) : bool :=
  match a, b with
  | Null, _ => true
  | Int _, Null => false
  | Int x, Int y => x <=? y
  | Int _, Text _ => true
  | Text _, (Null | Int _) => false
  | Text x, Text y => Py.leb x y
  end.

(** SQL [=]: never true of NULL. *)
Definition sql_eq (a b : Value) : bool :=
  match a, b with
  | Int x, Int y => x =? y
  | Text x, Text y => bool_decide (x = y)
  | _, _ => false
  end.

(** Truth value of a fetched value in Python. *)
Definition truthy_value (v : Value) : bool :=
  match v with
  | Null => false
  | Int z => negb (z =? 0)
  | Text [] => false
  | Text (_ :: _) => true
  end.

Fixpoint insert_sorted (key : Row -> Value) (r : Row) (sorted : list Row)
  : list Row :=
  match sorted with
  | [] => [r]
  | r' :: rest =>
      if value_leb (key r) (key r') then r :: sorted
      else r' :: insert_sorted key r rest
  end.

(** [ORDER BY column]: a stable sort, rows with equal keys stay in rowid
    order. *)
Definition order_by (column : string) (rows : list Row) : list Row :=
  fold_right (insert_sorted (fun r => col r column)) [] rows.

(** [WHERE column = value] *)
Definition where_eq (column : string) (v : Value) (rows : list Row)
  : list Row :=
  List.filter (fun r => sql_eq (col r column) v) rows.

(** The row a [LEFT JOIN t ON x = t.id] pairs with [x]; ids are primary
    keys, so there is at most one. *)
Definition joined (db : DB) (t : string) (x : Value) : option Row :=
  List.find (fun r => sql_eq x (Int (rowid r))) (table db t).

Definition joined_col (parent : option Row) (column : string) : Value :=
  match parent with Some r => col r column | None => Null end.

(** [{'number': n, 'title': t} if n else None] *)
Definition heading_obj (number title : Value) : Obj :=
  if truthy_value number
  then ODict [("number", OValue number); ("title", OValue title)]%string
  else OValue Null.

(** *** [get_article_by_number] *)

Definition get_subsubparagraphs (db : DB) (subpara_id : Value) : list Obj :=
  List.map
    (fun r => ODict [("id", OValue (col r "id"));
                     ("number", OValue (col r "number"));
                     ("text", OValue (col r "text"))]%string)
    (order_by "number"
       (where_eq "subparagraph_id" subpara_id (table db "subsubparagraphs"))).

Definition get_subparagraphs (db : DB) (para_id : Value) : list Obj :=
  List.map
    (fun r => ODict [("id", OValue (col r "id"));
                     ("letter", OValue (col r "letter"));
                     ("text", OValue (col r "text"));
                     ("subsubparagraphs",
                      OList (get_subsubparagraphs db (col r "id")))]%string)
    (order_by "letter"
       (where_eq "paragraph_id" para_id (table db "subparagraphs"))).

Definition get_paragraphs (db : DB) (article_id : Value) : list Obj :=
  List.map
    (fun r => ODict [("id", OValue (col r "id"));
                     ("number", OValue (col r "number"));
                     ("text", OValue (col r "text"));
                     ("subparagraphs",
                      OList (get_subparagraphs db (col r "id")))]%string)
    (order_by "number"
       (where_eq "article_id" article_id (table db "paragraphs"))).

Definition get_requirements (db : DB) (article_id : Value) : list Obj :=
  List.map
    (fun r =>
       ODict [("id", OValue (col r "id"));
              ("text", OValue (col r "text"));
              ("is_obligation", OBool (truthy_value (col r "is_obligation")));
              ("is_right", OBool (truthy_value (col r "is_right")));
              ("is_time_requirement",
               OBool (truthy_value (col r "is_time_requirement")))]%string)
    (where_eq "article_id" article_id (table db "requirements")).

Definition get_entities (db : DB) (article_id : Value) : list Obj :=
  List.map
    (fun r => ODict [("id", OValue (col r "id"));
                     ("text", OValue (col r "text"));
                     ("label", OValue (col r "label"));
                     ("start", OValue (col r "start_pos"));
                     ("end", OValue (col r "end_pos"))]%string)
    (where_eq "article_id" article_id (table db "entities")).

(** [FROM cross_references cr JOIN articles a ON cr.to_article_id = a.id
    WHERE cr.from_article_id = ?] *)
Definition get_cross_references (db : DB) (article_id : Value) : list Obj :=
  flat_map
    (fun cr =>
       match joined db "articles" (col cr "to_article_id") with
       | Some a => [ODict [("article", OValue (col a "number"));
                           ("paragraph", OValue (col cr "to_paragraph"))]%string]
       | None => []
       end)
    (where_eq "from_article_id" article_id (table db "cross_references")).

(** The query part of [get_article_by_number], on the database the
    connection sees, which has the tables of the schema. *)
Definition get_article (db : DB) (article_number : str) : option Obj :=
  match where_eq "number" (Text article_number) (table db "articles") with
  | [] => None
  | a :: _ =>
      let c := joined db "chapters" (col a "chapter_id") in
      let s := joined db "sections" (col a "section_id") in
      let article_id := col a "id" in
      Some (ODict
        [("id", OValue article_id);
         ("number", OValue (col a "number"));
         ("title", OValue (col a "title"));
         ("content", OValue (col a "content"));
         ("chapter", heading_obj (joined_col c "number") (joined_col c "title"));
         ("section", heading_obj (joined_col s "number") (joined_col s "title"));
         ("paragraphs", OList (get_paragraphs db article_id));
         ("requirements", OList (get_requirements db article_id));
         ("entities", OList (get_entities db article_id));
         ("cross_references",
          OList (get_cross_references db article_id))]%string)
  end.

Definition get_article_by_number (article_number : str) (s : Store)
  : option Obj * Store :=
  let s := ensure_connected s in
  (get_article (view_of s) article_number, s).

(** *** [export_to_json]: the value of [export_data["articles"]] *)

Definition export_subsubparagraphs (db : DB) (subpara_id : Value)
  : list Obj :=
  List.map
    (fun r => ODict [("number", OValue (col r "number"));
                     ("text", OValue (col r "text"))]%string)
    (order_by "number"
       (where_eq "subparagraph_id" subpara_id (table db "subsubparagraphs"))).

Definition export_subparagraphs (db : DB) (para_id : Value) : list Obj :=
  List.map
    (fun r => ODict [("letter", OValue (col r "letter"));
                     ("text", OValue (col r "text"));
                     ("subsubparagraphs",
                      OList (export_subsubparagraphs db (col r "id")))]%string)
    (order_by "letter"
       (where_eq "paragraph_id" para_id (table db "subparagraphs"))).

Definition export_paragraphs (db : DB) (article_id : Value) : list Obj :=
  List.map
    (fun r => ODict [("number", OValue (col r "number"));
                     ("text", OValue (col r "text"));
                     ("subparagraphs",
                      OList (export_subparagraphs db (col r "id")))]%string)
    (order_by "number"
       (where_eq "article_id" article_id (table db "paragraphs"))).

Definition export_requirements (db : DB) (article_id : Value) : list Obj :=
  List.map
    (fun r =>
       ODict [("text", OValue (col r "text"));
              ("is_obligation", OBool (truthy_value (col r "is_obligation")));
              ("is_right", OBool (truthy_value (col r "is_right")));
              ("is_time_requirement",
               OBool (truthy_value (col r "is_time_requirement")))]%string)
    (where_eq "article_id" article_id (table db "requirements")).

Definition export_article (db : DB) (a : Row) : Obj :=
  let c := joined db "chapters" (col a "chapter_id") in
  let s := joined db "sections" (col a "section_id") in
  ODict
    [("number", OValue (col a "number"));
     ("title", OValue (col a "title"));
     ("content", OValue (col a "content"));
     ("chapter", heading_obj (joined_col c "number") (joined_col c "title"));
     ("section", heading_obj (joined_col s "number") (joined_col s "title"));
     ("paragraphs", OList (export_paragraphs db (col a "id")));
     ("requirements", OList (export_requirements db (col a "id")))]%string.

Definition export_articles (db : DB) : list Obj :=
  List.map (export_article db) (order_by "number" (table db "articles")).

(** ** Vocabulary of the statements about the read operations *)

(** [sorted] holds the rows [rows], each once, in non-decreasing SQL order
    of column [c]. *)
Definition sorted_by (c : string) (rows sorted : list Row) : Prop :=
  Permutation sorted rows /\
  StronglySorted (fun r r' => value_leb (col r c) (col r' c) = true) sorted.

(** The object [o] shows the sub-subparagraph row [r]: its id, and the
    number and the text stored in it. *)
Definition shows_subsubparagraph (o : Obj) (r : Row) : Prop :=
  o = ODict [("id", OValue (Int (rowid r)));
             ("number", OValue (col r "number"));
             ("text", OValue (col r "text"))]%string.

(** The object [o] shows the subparagraph row [r]: its id, the letter and
    the text stored in it, and the sub-subparagraph rows that refer to it,
    sorted by their stored number. *)
Definition shows_subparagraph (db : DB) (o : Obj) (r : Row) : Prop :=
  exists subsubparagraphs rows,
    o = ODict [("id", OValue (Int (rowid r)));
               ("letter", OValue (col r "letter"));
               ("text", OValue (col r "text"));
               ("subsubparagraphs", OList subsubparagraphs)]%string /\
    sorted_by "number"
      (where_eq "subparagraph_id" (Int (rowid r)) (table db "subsubparagraphs"))
      rows /\
    Forall2 shows_subsubparagraph subsubparagraphs rows.

(** The object [o] shows the paragraph row [r]: its id, the number and the
    text stored in it, and the subparagraph rows that refer to it, sorted by
    their stored letter. *)
Definition shows_paragraph (db : DB) (o : Obj) (r : Row) : Prop :=
  exists subparagraphs rows,
    o = ODict [("id", OValue (Int (rowid r)));
               ("number", OValue (col r "number"));
               ("text", OValue (col r "text"));
               ("subparagraphs", OList subparagraphs)]%string /\
    sorted_by "letter"
      (where_eq "paragraph_id" (Int (rowid r)) (table db "subparagraphs"))
      rows /\
    Forall2 (shows_subparagraph db) subparagraphs rows.

(** The object [o] shows the requirement row [r]: its id, its text, and its
    three flags as booleans (a stored flag is true unless it is 0). *)
Definition shows_requirement (o : Obj) (r : Row) : Prop :=
  o = ODict
        [("id", OValue (Int (rowid r)));
         ("text", OValue (col r "text"));
         ("is_obligation", OBool (truthy_value (col r "is_obligation")));
         ("is_right", OBool (truthy_value (col r "is_right")));
         ("is_time_requirement",
          OBool (truthy_value (col r "is_time_requirement")))]%string.

(** The object [o] shows the entity row [r]: its id, text, label and
    offsets. *)
Definition shows_entity (o : Obj) (r : Row) : Prop :=
  o = ODict [("id", OValue (Int (rowid r)));
             ("text", OValue (col r "text"));
             ("label", OValue (col r "label"));
             ("start", OValue (col r "start_pos"));
             ("end", OValue (col r "end_pos"))]%string.

(** The cross-reference row [cr] has a target: an article row whose id is
    its [to_article_id]. *)
Definition has_target (db : DB) (cr : Row) : bool :=
  existsb (fun a => sql_eq (col cr "to_article_id") (Int (rowid a)))
          (table db "articles").

(** The object [o] shows the cross-reference row [cr]: the number of the
    article it points to and the paragraph it names. *)
Definition shows_reference (db : DB) (o : Obj) (cr : Row) : Prop :=
  exists target,
    In target (table db "articles") /\
    col cr "to_article_id" = Int (rowid target) /\
    o = ODict [("article", OValue (col target "number"));
               ("paragraph", OValue (col cr "to_paragraph"))]%string.

(** [a] is lexicographically at most [b]: a prefix of it, or smaller at the
    first code point where they differ. *)
Definition lex_le (a b : str) : Prop :=
  (exists t, b = a ++ t) \/
  (exists p x y a' b', a = p ++ x :: a' /\ b = p ++ y :: b' /\ (x < y)%N).

(** The same object without the ['id'] keys of its dictionaries. *)
Fixpoint without_ids (o : Obj) : Obj :=
  match o with
  | OList l => OList (List.map without_ids l)
  | ODict d =>
      ODict (List.filter
               (fun kv => negb (bool_decide (fst kv = "id"%string)))
               (List.map (fun kv => (fst kv, without_ids (snd kv))) d))
  | _ => o
  end.

(** The export entry [e] is for article number [n]. *)
Definition has_number (n : str) (e : Obj) : bool :=
  match field e "number" with
  | OValue (Text m) => bool_decide (m = n)
  | _ => false
  end.

(** An article whose paragraphs are numbered 1, 2 and 10, in that order. *)
Definition long_article : Article :=
  {| a_number := lit "3"; a_title := lit "Territorial scope";
     a_content := lit "Article 3 - Territorial scope";
     a_chapter := None; a_section := None;
     a_paragraphs :=
       [{| p_number := lit "1"; p_text := lit "first"; p_subparagraphs := [] |};
        {| p_number := lit "2"; p_text := lit "second";
           p_subparagraphs :=
             [{| sp_letter := lit "b"; sp_text := lit "later";
                 sp_subsubparagraphs :=
                   [{| ssp_number := lit "ix"; ssp_text := lit "nine" |};
                    {| ssp_number := lit "v"; ssp_text := lit "five" |}] |};
              {| sp_letter := lit "a"; sp_text := lit "earlier";
                 sp_subsubparagraphs := [] |}] |};
        {| p_number := lit "10"; p_text := lit "tenth";
           p_subparagraphs := [] |}];
     a_requirements :=
       [{| r_paragraph := lit "1"; r_subparagraph := None;
           r_text := lit "first"; r_is_obligation := true;
           r_is_right := false; r_is_time_requirement := false |}];
     a_entities := [] |}.

(** The database file after a fresh parser populated it with [articles]. *)
Definition populated (articles : list Article) : DB :=
  match @populate_database reliable_storage no_caches [] articles []
          (init_database empty_store).1 with
  | Returned _ s => disk s
  | Raised _ s => disk s
  end.

(** *** [search_by_keyword] *)

(** SQLite's LIKE folds the case of ASCII letters only. *)
Definition like_fold (c : char) : char :=
  if ((65 <=? c) && (c <=? 90))%N then (c + 32)%N else c.

(** SQLite's [patternCompare] on two strings without U+0000: [%] stands for
    any run of code points, [_] for any single one. *)
Fixpoint pattern_compare (pattern text : str) : bool :=
  match pattern with
  | [] => match text with [] => true | _ :: _ => false end
  | c :: pattern' =>
      if (c =? 37)%N then
        (fix any (text : str) : bool :=
           pattern_compare pattern' text
           || match text with [] => false | _ :: text' => any text' end) text
      else
        match text with
        | [] => false
        | d :: text' =>
            ((c =? 95) || (like_fold c =? like_fold d))%N
            && pattern_compare pattern' text'
        end
  end.

(** SQLite matches C strings: a pattern and a text end at their first
    U+0000. *)
Fixpoint until_nul (s : str) : str :=
  match s with
  | [] => []
  | c :: s' => if (c =? 0)%N then [] else c :: until_nul s'
  end.

Definition like (pattern text : str) : bool :=
  pattern_compare (until_nul pattern) (until_nul text).

(** The number of bytes of the UTF-8 encoding of [s]. *)
Definition utf8_length (s : str) : Z :=
  fold_right
    (fun c n =>
       (if (c <? 128)%N then 1
        else if (c <? 2048)%N then 2
        else if (c <? 65536)%N then 3 else 4) + n)
    0 s.

(** [s.encode('utf-8')] succeeds: [s] holds no surrogate code point.
    [sqlite3] raises [UnicodeEncodeError] when it is given another [str] as
    a parameter. *)
Definition encodable (s : str) : bool :=
  forallb (fun c => (c <? 55296) || (57343 <? c))%N s.

(** SQLITE_MAX_LIKE_PATTERN_LENGTH *)
Definition MAX_LIKE_PATTERN_LENGTH : Z := 50000.

(** An integer as SQLite renders it when a text is asked for. *)
Definition decimal (z : Z) : str := lit (NilEmpty.string_of_int (Z.to_int z)).

(** [column LIKE ?] on a fetched value, as SQLite's [likeFunc] computes it:
    an error ("LIKE or GLOB pattern too complex", [None] here) when the
    pattern is longer than 50000 bytes, whatever the value; not true of
    NULL. *)
Definition sql_like (pattern : str) (v : Value) : option bool :=
  if MAX_LIKE_PATTERN_LENGTH <? utf8_length pattern then None
  else Some match v with
            | Null => false
            | Int z => like pattern (decimal z)
            | Text t => like pattern t
            end.

(** The rows that a [WHERE] clause selects, in table order; [None] when the
    clause fails on a row. *)
Fixpoint select_rows (condition : Row -> option bool) (rows : list Row)
  : option (list Row) :=
  match rows with
  | [] => Some []
  | r :: rest =>
      selected ← condition r;
      others ← select_rows condition rest;
      Some (if selected : bool then r :: others else others)
  end.

Definition text_of (v : Value) : str :=
  match v with Text t => t | _ => [] end.

(** The snippet around the keyword in one matching paragraph. *)
Definition make_snippet `{Lower} (para_text keyword : str) : str :=
  let keyword_position := find (lower para_text) (lower keyword) in
  let start_pos := Z.max 0 (keyword_position - 50) in
  let end_pos := Z.min (len para_text) (keyword_position + len keyword + 50) in
  let snippet := if 0 <? start_pos then lit "..." else [] in
  let snippet := snippet ++ slice para_text start_pos end_pos in
  snippet ++ (if end_pos <? len para_text then lit "..." else []).

(** The entry of one fetched paragraph row; [para_text.lower()] raises
    unless the fetched text is a [str]. *)
Definition matching_paragraph `{Lower} (keyword : str) (r : Row)
  : option Obj :=
  match col r "text" with
  | Text para_text =>
      Some (ODict [("paragraph", OValue (col r "number"));
                   ("snippet",
                    OValue (Text (make_snippet para_text keyword)))]%string)
  | _ => None
  end.

(** [FROM paragraphs WHERE article_id = ? AND text LIKE ? ORDER BY number];
    [None] when the call raises: there is no table [paragraphs], or a
    fetched text is no [str]. *)
Definition search_paragraphs `{Lower} (db : DB) (article_id : Value)
    (keyword : str) : option (list Obj) :=
  paragraphs ← db !! "paragraphs"%string;
  rows ← select_rows
           (fun r => if sql_eq (col r "article_id") article_id
                     then sql_like (lit "%" ++ keyword ++ lit "%")
                                   (col r "text")
                     else Some false)
           paragraphs;
  mapM (matching_paragraph keyword) (order_by "number" rows).

(** The query part of [search_by_keyword]; [None] when the call raises: the
    keyword cannot be encoded, there is no table [articles], the pattern is
    too long for the LIKE of a row, or the search in the paragraphs of a
    matching article raises. *)
Definition search (db : DB) `{Lower} (keyword : str) : option (list Obj) :=
  if encodable keyword then
    articles ← db !! "articles"%string;
    rows ← select_rows
             (fun a => sql_like (lit "%" ++ keyword ++ lit "%")
                                (col a "content"))
             articles;
    mapM (fun a =>
            matching_paragraphs ← search_paragraphs db (col a "id") keyword;
            Some (ODict [("article", OValue (col a "number"));
                         ("title", OValue (col a "title"));
                         ("matches", OList matching_paragraphs)]%string))
         (order_by "number" rows)
  else None.

Definition search_by_keyword `{Lower} (keyword : str) (s : Store)
  : option (list Obj) * Store :=
  let s := ensure_connected s in
  (search (view_of s) keyword, s).

(** [str.lower()] on texts of ASCII letters and U+0130 (capital I with dot
    above), which lowers to the two code points U+0069 U+0307. *)
Definition dotted_lower : Lower :=
  flat_map (fun c => if (c =? 304)%N then [105; 775]%N
                     else if ((65 <=? c) && (c <=? 90))%N then [(c + 32)%N]
                     else [c]).

(** A paragraph of 60 capital I with dot above, then "data", then 100 x. *)
Definition dotted_text : str :=
  repeat 304%N 60 ++ lit "data" ++ repeat 120%N 100.

Definition dotted_article : Article :=
  {| a_number := lit "4"; a_title := lit "Definitions";
     a_content := lit "Article 4 - Definitions 1. " ++ dotted_text;
     a_chapter := None; a_section := None;
     a_paragraphs :=
       [{| p_number := lit "1"; p_text := dotted_text;
           p_subparagraphs := [] |}];
     a_requirements := []; a_entities := [] |}.

(** What [search_by_keyword] shows of [dotted_text] for the keyword "data":
    an ellipsis and 94 x. *)
Definition dotted_snippet : str := lit "..." ++ repeat 120%N 94.

(** ** The pipeline ([parse_and_load]) *)

(** The parser instance: its caches and its store. *)
Record Parser := { caches : Caches; store : Store }.

(** PyPDF2: the text of the pages, or [None] when the document cannot be
    read (the reader raises). *)
Class Pdf := page_texts : option (list str).

(** [document["full_text"]] of [extract_text_from_pdf] *)
Definition full_text_of (pages : list str) : str :=
  flat_map (fun page_text => page_text ++ [NEWLINE]) pages.

(** [articles[i] = extract_paragraphs_and_subparagraphs(articles[i]);
    articles[i] = extract_requirements(articles[i])] for every [i] *)
Definition decompose_and_classify `{Lower} `{Engine} `{NLP}
    (articles : list Article) (time_requirements : list TimeRequirement)
  : list Article * list TimeRequirement :=
  fold_left
    (fun '(processed, time_requirements) article =>
       let '(article, time_requirements) :=
         extract_requirements (extract_paragraphs_and_subparagraphs article)
                              time_requirements in
       (processed ++ [article], time_requirements))
    articles ([], time_requirements).

(** The body of the [try] block of [parse_and_load].  The caches filled by
    the extraction stages are reset by [init_database], which runs after
    them. *)
Definition parse_and_load_body `{Lower} `{Engine} `{NLP} `{Storage} `{Pdf}
    (self : Parser) : Outcome Parser bool :=
  match page_texts with
  | None => Raised ReadError self
  | Some pages =>
      let full_text := full_text_of pages in
      let '(toc_chapters, toc_sections) :=
        extract_table_of_contents full_text (chapters (caches self))
                                  (sections (caches self)) in
      let preprocessed_text := preprocess_text full_text in
      let recitals := extract_recitals preprocessed_text in
      let articles := extract_articles_with_structure preprocessed_text in
      let '(articles, _) :=
        decompose_and_classify articles (time_requirements (caches self)) in
      let cross_references := extract_cross_references articles in
      let definitions := extract_definitions articles in
      let actors := identify_key_actors articles in
      let '(opened, reset) := init_database (store self) in
      match populate_database reset recitals articles actors opened with
      | Returned _ s => Returned true {| caches := reset; store := s |}
      | Raised e s => Raised e {| caches := reset; store := s |}
      end
  end.

(** [try: ...; return True] [except Exception as e: logger.error(...);
    return False] *)
Definition parse_and_load `{Lower} `{Engine} `{NLP} `{Storage} `{Pdf}
    (self : Parser) : Outcome Parser bool :=
  match parse_and_load_body self with
  | Returned b self' => Returned b self'
  | Raised _ self' => Returned false self'
  end.

Definition new_parser : Parser := {| caches := no_caches; store := empty_store |}.

(** A one-page document without any article header. *)
Definition blank_pdf : Pdf := Some [lit "Nothing to see here."].

(** A document that cannot be read. *)
Definition unreadable_pdf : Pdf := None.

(** ** Auxiliary definitions of the proofs *)

(** [tidy prev s]: every whitespace code point of [s] is U+0020 and none
    follows another one ([prev]: the code point before [s] is whitespace). *)
Fixpoint tidy (prev : bool) (s : str) : bool :=
  match s with
  | [] => true
  | c :: s' =>
      if isspace c then (c =? SP)%N && negb prev && tidy true s'
      else tidy false s'
  end.

(** An article header as the loop of the extractor remembers it, and what
    the loop makes of it. *)
Definition header_of (m : Match) : Z * str * str :=
  (m_start m, group m 1, strip (group m 2)).

Definition tagged (chs secs : list Position) (h : Z * str * str)
    (a : Article) : Prop :=
  a_number a = snd (fst h) /\
  a_chapter a = enclosing chs (fst (fst h)) /\
  a_section a = enclosing secs (fst (fst h)).

(** The effect of the classifier on its state, sentence list by sentence
    list. *)
Definition stored `{Lower} (s : Sentence) : bool := obligation_flag s || right_flag s.
Definition timed `{Lower} (s : Sentence) : bool := stored s && time_flag s.

Definition classified `{Lower} (article_number : str) (ss : list Sentence)
    (st : list Requirement * list TimeRequirement)
  : list Requirement * list TimeRequirement :=
  (fst st ++ List.map requirement_for (List.filter stored ss),
   snd st ++ List.map (time_requirement_for article_number)
                      (List.filter timed ss)).

(** The update of one source's list by one match. *)
Definition note (source : str) (current : list Reference) (r : Reference)
  : list Reference :=
  if bool_decide (ref_article r <> source) && negb (mem r current)
  then current ++ [r] else current.

(** [wrote s s' tr]: from [s] to [s'] nothing was committed, and the
    connection saw the rows of [tr] appended to its tables. *)
Definition wrote (s s' : Store) (tr : list Entry) : Prop :=
  disk s' = disk s /\
  forall t, payloads (view_of s') t = payloads (view_of s) t ++ rows_in tr t.

(** [emits m es]: when [m] returns, it has inserted rows whose unguarded
    part is [es] and committed nothing; when it raises, it has committed
    nothing. *)
Definition emits {A} (m : M A) (es : list Entry) : Prop :=
  forall s,
    match m s with
    | Returned _ s' =>
        exists tr, wrote s s' tr /\
                   List.filter (fun e => negb (guarded (fst e))) tr = es
    | Raised _ s' => disk s' = disk s
    end.

(** Order of two rows by their key. *)
Definition key_le (key : Row -> Value) (r r' : Row) : Prop :=
  value_leb (key r) (key r') = true.

(** ** Vocabulary of the statements about invariants of the store *)

(** [m] keeps [I], whether it returns or raises. *)
Definition preserves {A} (I : Store -> Prop) (m : M A) : Prop :=
  forall s, I s ->
    match m s with
    | Returned _ s' => I s'
    | Raised _ s' => I s'
    end.

(** [m] changes the store through INSERT statements that satisfy [P] only:
    it keeps whatever each of them keeps. *)
Definition issues `{Storage} {A} (P : Insert -> Prop) (m : M A) : Prop :=
  forall I : Store -> Prop,
    (forall stmt, P stmt -> preserves I (execute stmt)) -> preserves I m.

Definition nonempty {A} (l : list A) : bool :=
  match l with [] => false | _ :: _ => true end.

(** The tables [populate_database] has rows for, by the source of the rows. *)
Definition row_sources (self : Caches) (recitals : list Recital)
    (articles : list Article) (actors : Dict.t str (list Mention))
  : Dict.t string bool :=
  [("chapters", nonempty (chapters self));
   ("sections", nonempty (sections self));
   ("recitals", nonempty recitals);
   ("articles", nonempty articles);
   ("paragraphs", nonempty articles);
   ("subparagraphs", nonempty articles);
   ("subsubparagraphs", nonempty articles);
   ("requirements", nonempty articles);
   ("entities", nonempty articles);
   ("definitions", nonempty (definitions self));
   ("cross_references", nonempty (cross_references self));
   ("time_requirements", nonempty (time_requirements self));
   ("key_actors", nonempty actors);
   ("privacy_policy_sections", true)]%string.

Definition may_write (self : Caches) (recitals : list Recital)
    (articles : list Article) (actors : Dict.t str (list Mention))
    (t : string) : bool :=
  default false (Dict.get (row_sources self recitals articles actors) t).

(** Row ids are positive and no table holds one twice. *)
Definition unique_rowids (db : DB) : Prop :=
  forall t, List.NoDup (List.map rowid (table db t)) /\
            Forall (fun r => 1 <= rowid r) (table db t).

(** Every foreign-key cell of every row names a row of the parent table. *)
Definition referentially_sound (db : DB) : Prop :=
  forall t cols r c parent id,
    Dict.get schema t = Some cols -> In r (table db t) -> In c cols ->
    c_references c = Some parent ->
    default Null (Dict.get (cells r) (c_name c)) = Int id ->
    has_rowid db parent id = true.

(** ** Vocabulary of the statements about the extraction stages *)

(** The text an article header governs: from the start of the header to the
    start of the next one, or to the end of the text. *)
Fixpoint header_spans (text : str) (ms : list Match) : list (Match * str) :=
  match ms with
  | [] => []
  | m :: rest =>
      (m, match rest with
          | [] => slice_from text (m_start m)
          | m' :: _ => slice text (m_start m) (m_start m')
          end) :: header_spans text rest
  end.

(** The articles whose definitions are collected. *)
Definition is_definition_article `{Lower} (a : Article) : bool :=
  contains (lit "definition") (lower (a_title a))
  || bool_decide (a_number a = lit "4").

(** [text] is the text of a paragraph or of a subparagraph of [a], located by
    [paragraph] and [subparagraph]. *)
Definition located_in (a : Article) (paragraph : str)
    (subparagraph : option str) (text : str) : Prop :=
  exists p, In p (a_paragraphs a) /\ p_number p = paragraph /\
    match subparagraph with
    | None => text = p_text p
    | Some letter =>
        exists sp, In sp (p_subparagraphs p) /\ sp_letter sp = letter /\
                   text = sp_text sp
    end.

(** A match of one of the definition patterns in [text] gave [d]. *)
Definition defined_by `{Engine} (text : str) (d : Definition_) : Prop :=
  exists pattern m,
    In pattern definition_patterns /\
    In m (finditer pattern [IGNORECASE] text) /\
    d_term d = strip (group m 1) /\ d_definition d = strip (group m 2).

(** The mention [mn] of an actor of type [actor_type] is a sentence of
    article [a] that holds one of the keywords of the type. *)
Definition mentioned_in `{Lower} `{NLP} (a : Article) (actor_type : str)
    (mn : Mention) : Prop :=
  mn_article mn = a_number a /\
  exists keywords keyword sent,
    In (actor_type, keywords) actor_keywords /\ In keyword keywords /\
    In sent (sents (a_content a)) /\
    contains keyword (lower (a_content a)) = true /\
    contains keyword (lower sent) = true /\
    mn_text mn = strip sent.

(** A dictionary without a repeated key whose entries all satisfy [P]. *)
Definition keyed {K V : Type} (P : K * V -> Prop) (d : Dict.t K V) : Prop :=
  List.NoDup (List.map fst d) /\ Forall P d.

(** ** Vocabulary of the statements about a population that succeeds *)

(** The connection is open and sees every table of the schema. *)
Definition ready (s : Store) : Prop :=
  exists c, conn s = Some c /\
    forall t cols, Dict.get schema t = Some cols -> is_Some (view c !! t).

(** ** Auxiliary definitions of the proofs about a population that
    succeeds *)

(** Every row id the connection saw in [s] it still sees in [s']. *)
Definition grows (s s' : Store) : Prop :=
  forall t id, has_rowid (view_of s) t id = true ->
               has_rowid (view_of s') t id = true.

Definition stable (P : Store -> Prop) : Prop :=
  forall s s', grows s s' -> P s -> P s'.

(** From every ready state that satisfies [P], [m] returns, in a ready state
    that satisfies [Q] and has kept the row ids. *)
Definition succeeds `{Storage} {A} (P : Store -> Prop) (m : M A)
    (Q : A -> Store -> Prop) : Prop :=
  forall s, ready s -> P s ->
    exists a s', m s = Returned a s' /\ ready s' /\ grows s s' /\ Q a s'.

(** [cursor.lastrowid] is the id of a row of [t]. *)
Definition last_inserted (t : string) (s : Store) : Prop :=
  exists c, conn s = Some c /\ has_rowid (view c) t (lastrowid c) = true.

(** An optional id that, when present, is the id of a row of [t]. *)
Definition known (t : string) (id : option Z) (s : Store) : Prop :=
  match id with
  | Some i => has_rowid (view_of s) t i = true
  | None => True
  end.

(** A map whose values are ids of rows of [t]. *)
Definition valid {K} `{Countable K} (t : string) (m : gmap K Z) (s : Store)
  : Prop :=
  forall k, known t (m !! k) s.

(** ** Vocabulary of the statements about stored articles *)

(** What the row of an article says: its number, title and content. *)
Definition article_payload (number title content : str)
  : list (string * Value) :=
  [("number", Text number); ("title", Text title);
   ("content", Text content)]%string.

(** The store a fresh parser leaves after it populated the database with
    [articles]. *)
Definition populated_store (articles : list Article) : Store :=
  match @populate_database reliable_storage no_caches [] articles []
          (init_database empty_store).1 with
  | Returned _ s => s
  | Raised _ s => s
  end.

(** *** [get_requirements_for_role] *)

(** Iteration over a [set] of fetched values: every element once, in an
    order that is up to the implementation. *)
Class SetOrder := {
  set_iter : list Value -> list Value;
  set_iter_NoDup : forall l, List.NoDup (set_iter l);
  set_iter_In : forall l x, In x (set_iter l) <-> In x l
}.

(** A set that is iterated in the order of the first insertions. *)
#[refine] Instance insertion_order : SetOrder :=
  {| set_iter := remove_dups |}.
Proof.
  - intros l. apply (proj1 (NoDup_ListNoDup _)), NoDup_remove_dups.
  - intros l x. rewrite <- !list_elem_of_In. apply elem_of_remove_dups.
Defined.

(** The pairs of an article row and a requirement row that
    [requirements r JOIN articles a ON r.article_id = a.id
    WHERE r.article_id = ?] yields. *)
Definition joined_requirements (articles requirements : list Row)
    (article_id : Value) : list (Row * Row) :=
  flat_map
    (fun r =>
       match List.find (fun a => sql_eq (col r "article_id") (Int (rowid a)))
                       articles with
       | Some a => [(a, r)]
       | None => []
       end)
    (where_eq "article_id" article_id requirements).

(** The rows fetched for one article id; [None] when the statement raises:
    the database lacks one of its two tables. *)
Definition role_rows (db : DB) (article_id : Value)
  : option (list (Row * Row)) :=
  requirements ← db !! "requirements"%string;
  articles ← db !! "articles"%string;
  Some (joined_requirements articles requirements article_id).

(** The body of the loop over the fetched rows: what the row adds to
    [requirements].  [req_text.lower()] raises unless the text is a
    [str]. *)
Definition role_requirement `{Lower} (role : str) (row : Row * Row)
  : option (list Obj) :=
  let '(a, r) := row in
  match col r "text" with
  | Text req_text =>
      Some
        (if contains (replace (lit "_") (lit " ") role) (lower req_text)
         then [ODict
                 [("article", OValue (col a "number"));
                  ("article_title", OValue (col a "title"));
                  ("text", OValue (Text req_text));
                  ("is_obligation",
                   OBool (truthy_value (col r "is_obligation")));
                  ("is_right", OBool (truthy_value (col r "is_right")));
                  ("is_time_requirement",
                   OBool (truthy_value (col r "is_time_requirement")))
                 ]%string]
         else [])
  | _ => None
  end.

(** The query part of [get_requirements_for_role]; [None] when the call
    raises: the role cannot be encoded, the database lacks the table
    [key_actors] or, when the role has a mention, one of the tables
    [requirements] and [articles], or a fetched requirement text is no
    [str]. *)
Definition requirements_for_role `{Lower} `{SetOrder} (db : DB) (role : str)
  : option (list Obj) :=
  if encodable role then
    key_actors ← db !! "key_actors"%string;
    let article_ids :=
      set_iter (List.map (fun k => col k "article_id")
                         (where_eq "actor_type" (Text role) key_actors)) in
    @concat Obj <$>
      mapM (fun article_id =>
              rows ← role_rows db article_id;
              @concat Obj <$> mapM (role_requirement role) rows)
           article_ids
  else None.

Definition get_requirements_for_role `{Lower} `{SetOrder} (role : str)
    (s : Store) : option (list Obj) * Store :=
  let s := ensure_connected s in
  (requirements_for_role (view_of s) role, s).

(** The article of requirement row [r] has a mention of an actor of type
    [role]. *)
Definition article_mentions (db : DB) (role : str) (r : Row) : bool :=
  existsb (fun k => sql_eq (col k "actor_type") (Text role)
                    && sql_eq (col r "article_id") (col k "article_id"))
          (table db "key_actors").

(** What requirement row [r] adds to the answer for [role]. *)
Definition reported_for_role `{Lower} (db : DB) (role : str) (r : Row)
  : list Obj :=
  if article_mentions db role r then
    match joined db "articles" (col r "article_id") with
    | Some a => default [] (role_requirement role (a, r))
    | None => []
    end
  else [].

(** An article with a requirement that names the controller, and the
    mentions of the controller in it. *)
Definition controller_article : Article :=
  {| a_number := lit "24"; a_title := lit "Responsibility of the controller";
     a_content := lit "Article 24 - Responsibility of the controller";
     a_chapter := None; a_section := None;
     a_paragraphs :=
       [{| p_number := lit "1";
           p_text := lit "The controller shall implement measures.";
           p_subparagraphs := [] |}];
     a_requirements :=
       [{| r_paragraph := lit "1"; r_subparagraph := None;
           r_text := lit "The controller shall implement measures.";
           r_is_obligation := true; r_is_right := false;
           r_is_time_requirement := false |}];
     a_entities := [] |}.

Definition controller_mentions : Dict.t str (list Mention) :=
  [(lit "controller",
    [{| mn_article := lit "24";
        mn_text := lit "The controller shall implement measures." |};
     {| mn_article := lit "24";
        mn_text := lit "Responsibility of the controller" |}])].

Definition controller_db : DB :=
  match @populate_database reliable_storage no_caches [] [controller_article]
          controller_mentions (init_database empty_store).1 with
  | Returned _ s => disk s
  | Raised _ s => disk s
  end.

(** The code points that [preprocess_text] replaces one by one: the
    vertical bar, the em dash and the en dash. *)
Definition replaced_code_point (c : char) : bool :=
  ((c =? 124) || (c =? 8212) || (c =? 8211))%N.

(* ===================================================================== *)
(** * Part II: verification *)
(* ===================================================================== *)

(** ** Facts about Python strings *)

Lemma ranges_disjoint :
  forallb (fun r => forallb (fun w => ((snd r <? fst w) || (snd w <? fst r))%N)
                            ws_ranges) nd_ranges = true.
Proof. vm_compute. reflexivity. Qed.

Lemma isdecimal_not_space c : isdecimal c = true -> isspace c = false.
Proof.
  unfold isdecimal, isspace. intros Hd.
  apply existsb_exists in Hd as [r [Hr Hc]].
  pose proof ranges_disjoint as D.
  rewrite forallb_forall in D. specialize (D r Hr).
  rewrite forallb_forall in D.
  apply not_true_is_false. intros Hs.
  apply existsb_exists in Hs as [w [Hw Hcw]].
  specialize (D w Hw). unfold in_range in *.
  apply andb_prop in Hc as [H1 H2]. apply andb_prop in Hcw as [H3 H4].
  apply N.leb_le in H1, H2, H3, H4.
  apply orb_prop in D as [D|D]; apply N.ltb_lt in D; lia.
Qed.

Lemma is_dash_not_space c : is_dash c = true -> isspace c = false.
Proof.
  unfold is_dash. intros H.
  repeat (apply orb_prop in H as [H|H]); apply N.eqb_eq in H; subst; reflexivity.
Qed.

Lemma span_spec p s a b :
  span p s = (a, b) ->
  s = a ++ b /\ forallb p a = true /\
  match b with [] => True | c :: _ => p c = false end.
Proof.
  revert a b. induction s as [|c s IH]; intros a b; simpl.
  - intros [= <- <-]. auto.
  - destruct (p c) eqn:Hc.
    + destruct (span p s) as [a' b'] eqn:E. intros [= <- <-].
      destruct (IH _ _ eq_refl) as (-> & Ha & Hb). simpl. rewrite Hc. auto.
    + intros [= <- <-]. simpl. rewrite Hc. auto.
Qed.

Lemma strip_prefix_spec p s r : strip_prefix p s = Some r -> s = p ++ r.
Proof.
  revert s. induction p as [|a p IH]; intros [|b s]; simpl; try congruence.
  destruct (N.eqb_spec a b); [|congruence].
  intros H. apply IH in H. congruence.
Qed.

(** ** TextNormalizer: the output is a single line without whitespace runs *)

Lemma tidy_weaken p s : tidy true s = true -> tidy p s = true.
Proof.
  destruct s as [|c s]; simpl; [easy|].
  destruct (isspace c); [|easy]. rewrite andb_false_r. discriminate.
Qed.

Lemma tidy_tail p c s : tidy p (c :: s) = true -> tidy false s = true.
Proof.
  simpl. destruct (isspace c); [|easy].
  intros H. apply andb_prop in H as [_ H]. now apply tidy_weaken.
Qed.

Lemma tidy_suffix p a s : tidy p (a ++ s) = true -> tidy false s = true.
Proof.
  revert p. induction a as [|c a IH]; intros p; simpl app.
  - destruct p; [apply tidy_weaken | easy].
  - intros H. simpl in H. destruct (isspace c).
    + apply andb_prop in H as [_ H]. eauto.
    + eauto.
Qed.

Lemma tidy_solid_app p a s :
  a <> [] -> forallb (fun c => negb (isspace c)) a = true ->
  tidy p (a ++ s) = tidy false s.
Proof.
  revert p. induction a as [|c a IH]; [easy|]. intros p _ H.
  simpl in H. apply andb_prop in H as [Hc Ha].
  apply negb_true_iff in Hc. simpl. rewrite Hc.
  destruct a as [|d a]; [reflexivity|]. now apply IH.
Qed.

Lemma tidy_head_solid s :
  tidy false s = true ->
  match s with [] => True | c :: _ => isspace c = false end ->
  tidy true s = true.
Proof.
  destruct s as [|c s]; simpl; [easy|]. intros H E. rewrite E in *. exact H.
Qed.

Lemma sub_whitespace_runs_tidy b text :
  tidy b (sub_whitespace_runs b text) = true.
Proof.
  revert b. induction text as [|c rest IH]; intros b; simpl; [easy|].
  destruct (isspace c) eqn:Hc.
  - destruct b; [apply IH|]. simpl. apply IH.
  - simpl. rewrite Hc. apply IH.
Qed.

Lemma replace_aux_tidy old new :
  new <> [] -> forallb (fun c => negb (isspace c)) new = true ->
  forall s p k, tidy p s = true ->
    tidy false (replace_aux old new k s) = true /\
    tidy p (replace_aux old new 0 s) = true.
Proof.
  intros Hne Hsolid. induction s as [|c s IH]; intros p k H; [easy|].
  pose proof (tidy_tail _ _ _ H) as Ht.
  assert (H0 : tidy p (replace_aux old new 0 (c :: s)) = true).
  { simpl replace_aux. destruct (startswith old (c :: s)).
    - rewrite tidy_solid_app by assumption. exact (proj1 (IH false _ Ht)).
    - simpl in *. destruct (isspace c).
      + apply andb_prop in H as [H1 H2]. rewrite H1.
        exact (proj2 (IH true 0%nat H2)).
      + exact (proj2 (IH false 0%nat H)). }
  split; [|exact H0].
  destruct k as [|k].
  - exact (tidy_suffix p [] _ H0).
  - simpl. exact (proj1 (IH false k Ht)).
Qed.

Lemma replace_tidy old new s p :
  old <> [] -> new <> [] -> forallb (fun c => negb (isspace c)) new = true ->
  tidy p s = true -> tidy p (replace old new s) = true.
Proof.
  intros Ho Hn Hs H. destruct old as [|o old]; [easy|].
  unfold replace. exact (proj2 (replace_aux_tidy _ _ Hn Hs s p 0%nat H)).
Qed.

Lemma match_article_header_spec s num tail :
  match_article_header s = Some (num, tail) ->
  (exists pre, s = pre ++ tail /\ pre <> []) /\
  num <> [] /\ forallb isdecimal num = true /\
  match tail with [] => True | c :: _ => isspace c = false end.
Proof.
  unfold match_article_header.
  destruct (strip_prefix (lit "Article") s) as [s1|] eqn:E1; [|easy].
  apply strip_prefix_spec in E1.
  destruct (span isspace s1) as [ws s2] eqn:E2.
  apply span_spec in E2 as (-> & _ & _).
  destruct ws as [|w ws]; [easy|].
  destruct (span isdecimal s2) as [ds s3] eqn:E3.
  apply span_spec in E3 as (-> & Hds & _).
  destruct ds as [|d0 ds]; [easy|].
  destruct (span isspace s3) as [ws' s4] eqn:E4.
  apply span_spec in E4 as (-> & _ & _).
  destruct s4 as [|d s5]; [easy|].
  destruct (is_dash d); [|easy].
  destruct (span isspace s5) as [ws'' s6] eqn:E5.
  apply span_spec in E5 as (-> & _ & Hhead).
  intros [= <- <-]. simpl snd.
  split; [|split; [easy|split; [exact Hds|exact Hhead]]].
  exists (lit "Article" ++ (w :: ws) ++ (d0 :: ds) ++ ws' ++ d :: ws'').
  split; [|easy].
  subst s. repeat (rewrite <- app_assoc || rewrite <- app_comm_cons).
  reflexivity.
Qed.

Lemma sub_article_headers_skip k s :
  sub_article_headers k s = sub_article_headers 0 (skipn k s).
Proof.
  revert k. induction s as [|c s IH]; intros [|k]; try reflexivity.
  simpl skipn. rewrite <- IH. reflexivity.
Qed.

Lemma decimal_solid num :
  forallb isdecimal num = true ->
  forallb (fun c => negb (isspace c)) num = true.
Proof.
  rewrite !forallb_forall. intros H c Hc.
  apply negb_true_iff, isdecimal_not_space, H, Hc.
Qed.

Lemma tidy_header p num x :
  num <> [] -> forallb isdecimal num = true -> tidy true x = true ->
  tidy p (lit "Article " ++ num ++ lit " - " ++ x) = true.
Proof.
  intros Hne Hdec Hx.
  change (lit "Article " ++ num ++ lit " - " ++ x)
    with (lit "Article" ++ SP :: (num ++ SP :: lit "-" ++ SP :: x)).
  rewrite tidy_solid_app by easy.
  change (tidy false (SP :: ?y)) with (tidy true y).
  rewrite tidy_solid_app by (auto using decimal_solid).
  exact Hx.
Qed.

Lemma sub_article_headers_tidy n :
  forall s p, (length s <= n)%nat -> tidy p s = true ->
    tidy p (sub_article_headers 0 s) = true.
Proof.
  induction n as [|n IH]; intros [|c rest] p Hlen H; try easy.
  simpl in Hlen. apply le_S_n in Hlen.
  change (sub_article_headers 0 (c :: rest)) with
    (match match_article_header (c :: rest) with
     | Some (num, tail) =>
         lit "Article " ++ num ++ lit " - "
           ++ sub_article_headers (length rest - length tail) rest
     | None => c :: sub_article_headers 0 rest
     end).
  destruct (match_article_header (c :: rest)) as [[num tail]|] eqn:E.
  - apply match_article_header_spec in E
      as ((pre & Hs & Hpre) & Hnum & Hdec & Hhead).
    destruct pre as [|c' pre]; [easy|]. simpl in Hs. injection Hs as <- ->.
    rewrite sub_article_headers_skip.
    replace (length (pre ++ tail) - length tail)%nat with (length pre)
      by (rewrite length_app; lia).
    rewrite skipn_app, skipn_all, Nat.sub_diag. simpl skipn at 1. simpl app at 3.
    assert (Htail : tidy true (sub_article_headers 0 tail) = true).
    { apply IH.
      - rewrite length_app in Hlen. lia.
      - apply tidy_head_solid; [|exact Hhead].
        apply (tidy_suffix p (c :: pre)). exact H. }
    now apply tidy_header.
  - simpl in *. destruct (isspace c).
    + apply andb_prop in H as [H1 H2]. rewrite H1. apply IH; [lia|easy].
    + apply IH; [lia|easy].
Qed.

Lemma preprocess_text_tidy text : tidy false (preprocess_text text) = true.
Proof.
  unfold preprocess_text.
  eapply sub_article_headers_tidy; [apply le_n|].
  repeat (apply replace_tidy; [easy|easy|reflexivity|]).
  apply sub_whitespace_runs_tidy.
Qed.

Example preprocess_text_ex :
  preprocess_text (lit "CHAPTER  l1  Article   5" ++ [10%N; 8212%N; 10%N] ++ lit "Subject | x")
  = lit "CHAPTER h Article 5 - Subject I x".
Proof. vm_compute. reflexivity. Qed.

(** ** ArticleExtractor: chapter and section of an article *)

Lemma set_end_positions_ended n ps :
  Forall (fun p => pos_end p <> None) (set_end_positions n ps).
Proof.
  induction ps as [|p rest IH]; simpl; [constructor|].
  destruct rest as [|q rest']; constructor; easy.
Qed.

Lemma encloses_covers p x :
  pos_end p <> None -> (encloses p x = true <-> covers p x).
Proof.
  unfold encloses, covers. intros He.
  destruct (pos_end p) as [e|]; [|easy].
  rewrite andb_true_iff, Z.leb_le, Z.ltb_lt. split.
  - intros [H1 H2]. exists e. auto.
  - intros (e' & [= <-] & H1 & H2). auto.
Qed.

Lemma enclosing_first_covering ps x :
  Forall (fun p => pos_end p <> None) ps ->
  first_covering ps x (enclosing ps x).
Proof.
  induction 1 as [|p ps Hp Hps IH]; simpl; [constructor|].
  destruct (encloses p x) eqn:E.
  - exists [], p, ps. repeat split; auto.
    now apply encloses_covers.
  - assert (Hn : ~ covers p x).
    { intros Hc. apply encloses_covers in Hc; congruence. }
    destruct (enclosing ps x) as [h|]; simpl in *.
    + destruct IH as (before & q & after & -> & Hq & Hb & ->).
      exists (p :: before), q, after. repeat split; auto.
    + constructor; assumption.
Qed.

(** The verdict [first_covering] is a function of the interval list. *)
Lemma first_covering_unique ps x r1 r2 :
  first_covering ps x r1 -> first_covering ps x r2 -> r1 = r2.
Proof.
  revert r1 r2.
  assert (Hsome : forall h, first_covering ps x (Some h) ->
                            ~ first_covering ps x None).
  { intros h (before & p & after & -> & Hp & _ & _) Hnone.
    apply Forall_app in Hnone as [_ Hnone]. inversion Hnone. auto. }
  intros [h1|] [h2|] H1 H2; try reflexivity;
    try (exfalso; eapply Hsome; eassumption).
  destruct H1 as (b1 & p1 & a1 & E1 & Hp1 & Hb1 & ->).
  destruct H2 as (b2 & p2 & a2 & E2 & Hp2 & Hb2 & ->).
  subst ps. clear Hsome. assert (p1 = p2) as ->; [|reflexivity].
  revert b2 E2 Hb2. induction b1 as [|q b1 IH]; intros [|q2 b2] E2 Hb2;
    simpl in E2; injection E2 as E21 E22; subst.
  - reflexivity.
  - inversion Hb2; contradiction.
  - inversion Hb1; contradiction.
  - inversion Hb1; inversion Hb2; subst. eapply IH; eauto.
Qed.

Lemma article_loop_tagged text chs secs ms :
  forall articles prev,
  exists news,
    (let '(arts, last) :=
       fold_left (article_step text chs secs) ms (articles, prev) in
     match last with
     | Some (prev_start, prev_number, prev_title) =>
         arts ++ [new_article chs secs prev_start prev_number prev_title
                    (strip (slice_from text prev_start))]
     | None => arts
     end) = articles ++ news /\
    Forall2 (tagged chs secs)
            (match prev with Some h => [h] | None => [] end
             ++ List.map header_of ms) news.
Proof.
  induction ms as [|m ms IH]; intros articles prev.
  - simpl. destruct prev as [[[s n] t]|].
    + eexists. split; [reflexivity|]. repeat constructor.
    + exists []. split; [now rewrite app_nil_r|constructor].
  - cbn [fold_left].
    destruct prev as [[[s n] t]|]; cbn [article_step].
    + destruct (IH (articles ++
                      [new_article chs secs s n t
                         (strip (slice text s (m_start m)))])
                   (Some (header_of m))) as (news & E & HF).
      eexists. split.
      * unfold header_of in E. rewrite E, <- app_assoc. reflexivity.
      * simpl. constructor; [repeat constructor|exact HF].
    + destruct (IH articles (Some (header_of m))) as (news & E & HF).
      exists news. split; [exact E|exact HF].
Qed.

(** C5: every article header found in the text yields one article, in
    order; the article's chapter is the first chapter interval, in document
    order, whose half-open span contains the header's start offset ([None]
    when there is none), and its section is determined in the same way from
    the section intervals alone. *)
Theorem article_tagged_by_first_enclosing_interval
    (E : Engine) (text : str) :
  Forall2
    (fun m a =>
       a_number a = group m 1 /\
       first_covering (positions chapter_pattern text) (m_start m)
                      (a_chapter a) /\
       first_covering (positions section_pattern text) (m_start m)
                      (a_section a))
    (finditer article_pattern [] text)
    (extract_articles_with_structure text).
Proof.
  unfold extract_articles_with_structure.
  destruct (article_loop_tagged text (positions chapter_pattern text)
              (positions section_pattern text)
              (finditer article_pattern [] text) [] None)
    as (news & Eq & HF).
  destruct (fold_left _ _ _) as [arts last]. simpl in Eq, HF.
  rewrite Eq. clear Eq.
  rewrite <- (map_id news).
  rewrite <- (map_id (finditer article_pattern [] text)) at 1.
  revert HF. generalize (finditer article_pattern [] text) as ms.
  intros ms. revert news. induction ms as [|m ms IH]; intros news HF;
    inversion HF as [|h a hs news' Ht HF' E1 E2]; subst; simpl.
  - constructor.
  - constructor; [|now apply IH].
    destruct Ht as (Hn & Hc & Hs). simpl in *.
    rewrite Hn, Hc, Hs. split; [reflexivity|].
    split; apply enclosing_first_covering, set_end_positions_ended.
Qed.

(** ** ParagraphDecomposer: the single-paragraph fallback *)

(** C6: when the numbered-paragraph pattern finds no match in the article
    content (after the header is removed and the result stripped), the
    decomposer returns exactly one paragraph, numbered "1", whose text is that
    whole content and which has no subparagraphs; in every case the article
    leaves the decomposer with at least one paragraph. *)
Theorem decomposer_fallback_paragraph (E : Engine) (article : Article) :
  let content := strip (sub_empty header_pattern (a_content article)) in
  let result := extract_paragraphs_and_subparagraphs article in
  (finditer paragraph_pattern [DOTALL] content = [] ->
   a_paragraphs result =
     [{| p_number := lit "1"; p_text := content; p_subparagraphs := [] |}])
  /\ (1 <= length (a_paragraphs result))%nat
  /\ (finditer paragraph_pattern [DOTALL] content <> [] ->
      a_paragraphs result =
        List.map paragraph_of (finditer paragraph_pattern [DOTALL] content)).
Proof.
  cbv zeta. unfold extract_paragraphs_and_subparagraphs. simpl.
  destruct (finditer paragraph_pattern [DOTALL] _) as [|m ms] eqn:Hm.
  - simpl. repeat split; first [easy | simpl; lia].
  - simpl. repeat split; first [easy | simpl; lia].
Qed.

Definition unnumbered_article : Article :=
  {| a_number := lit "7"; a_title := lit "Conditions for consent";
     a_content := lit "  Consent shall be freely given.  ";
     a_chapter := None; a_section := None;
     a_paragraphs := []; a_requirements := []; a_entities := [] |}.

Lemma decomposer_fallback_paragraph_witness :
  a_paragraphs (@extract_paragraphs_and_subparagraphs (scripted_engine [])
                  unnumbered_article)
  = [{| p_number := lit "1"; p_text := lit "Consent shall be freely given.";
        p_subparagraphs := [] |}].
Proof.
  exact (proj1 (decomposer_fallback_paragraph (scripted_engine [])
                  unnumbered_article) eq_refl).
Defined.

(** ** RequirementClassifier: which sentences are stored *)

Section Classifier.
Context `{L : Lower} `{N : NLP}.

Lemma classified_nil n st : classified n [] st = st.
Proof. destruct st. unfold classified. simpl. now rewrite !app_nil_r. Qed.

Lemma classified_app n ss1 ss2 st :
  classified n (ss1 ++ ss2) st = classified n ss2 (classified n ss1 st).
Proof.
  unfold classified. simpl.
  now rewrite !List.filter_app, !List.map_app, !List.app_assoc.
Qed.

Lemma classify_sentence_classified n para sub st sent :
  classify_sentence n para sub st sent
  = classified n [{| s_paragraph := para; s_subparagraph := sub;
                     s_text := strip sent |}] st.
Proof.
  destruct st as [rs ts].
  unfold classify_sentence, classified, timed, stored, requirement_for,
    time_requirement_for, obligation_flag, right_flag, time_flag.
  cbn [List.filter s_text s_paragraph s_subparagraph fst snd].
  destruct (any_keyword obligation_keywords (strip sent)) eqn:Eo,
           (any_keyword right_keywords (strip sent)) eqn:Er,
           (any_keyword time_keywords (strip sent)) eqn:Et;
    cbn [List.map orb andb s_text s_paragraph s_subparagraph];
    rewrite ?Eo, ?Er, ?Et, ?app_nil_r; reflexivity.
Qed.

Lemma classify_sentences_classified n para sub ss st :
  fold_left (classify_sentence n para sub) ss st
  = classified n
      (List.map (fun s => {| s_paragraph := para; s_subparagraph := sub;
                             s_text := strip s |}) ss) st.
Proof.
  revert st. induction ss as [|s ss IH]; intros st; simpl fold_left.
  - now rewrite classified_nil.
  - rewrite IH, classify_sentence_classified.
    now rewrite <- classified_app.
Qed.

Lemma classify_subparagraphs_classified n para sps st :
  fold_left (classify_subparagraph n para) sps st
  = classified n
      (flat_map
         (fun subpara =>
            List.map (fun s => {| s_paragraph := para;
                                  s_subparagraph := Some (sp_letter subpara);
                                  s_text := strip s |})
                     (sents (sp_text subpara))) sps) st.
Proof.
  revert st. induction sps as [|sp sps IH]; intros st;
    cbn [fold_left flat_map].
  - now rewrite classified_nil.
  - rewrite IH. unfold classify_subparagraph.
    now rewrite classify_sentences_classified, <- classified_app.
Qed.

Lemma classify_paragraphs_classified a ps st :
  fold_left (classify_paragraph (a_number a)) ps st
  = classified (a_number a) (sentences_of (set_paragraphs a ps)) st.
Proof.
  revert st. induction ps as [|p ps IH]; intros st.
  - simpl. now rewrite classified_nil.
  - cbn [fold_left]. rewrite IH. unfold classify_paragraph.
    rewrite classify_sentences_classified,
      classify_subparagraphs_classified, <- !classified_app.
    unfold sentences_of. simpl. now rewrite <- app_assoc.
Qed.

Lemma extract_requirements_classified article trs :
  a_requirements (fst (extract_requirements article trs))
    = List.map requirement_for (List.filter stored (sentences_of article))
  /\ snd (extract_requirements article trs)
    = trs ++ List.map (time_requirement_for (a_number article))
                      (List.filter timed (sentences_of article)).
Proof.
  unfold extract_requirements.
  rewrite classify_paragraphs_classified. unfold classified. simpl.
  destruct article; simpl. auto.
Qed.

Lemma requirement_for_inj s1 s2 :
  requirement_for s1 = requirement_for s2 -> s1 = s2.
Proof. destruct s1, s2. unfold requirement_for. simpl. congruence. Qed.

Lemma time_requirement_for_inj n s1 s2 :
  time_requirement_for n s1 = time_requirement_for n s2 -> s1 = s2.
Proof. destruct s1, s2. unfold time_requirement_for. simpl. congruence. Qed.

Lemma in_map_filter_inj {A B} (f : A -> B) (p : A -> bool) l x :
  (forall a b, f a = f b -> a = b) ->
  In (f x) (List.map f (List.filter p l)) <-> In x l /\ p x = true.
Proof.
  intros Hinj. rewrite List.in_map_iff. split.
  - intros (y & Hy & Hin). apply Hinj in Hy. subst y.
    now apply List.filter_In in Hin.
  - intros H. exists x. split; [reflexivity|]. now apply List.filter_In.
Qed.

(** C1: the requirements of an article are exactly the records of its
    sentences whose obligation or right flag is set, in visiting order, and
    the time requirements created by the call are exactly the records of
    the sentences that were stored and whose time-bound flag is set.  For
    each sentence: a Requirement is stored iff the obligation or the right
    flag holds; a TimeRequirement is created iff a Requirement was stored
    and the time-bound flag holds; a sentence that is time-bound only
    yields neither record. *)
Theorem requirement_stored_iff_obligation_or_right
    (article : Article) (time_requirements : list TimeRequirement) :
  let result := extract_requirements article time_requirements in
  let requirements := a_requirements (fst result) in
  exists created,
    snd result = time_requirements ++ created /\
    requirements
      = List.map requirement_for
          (List.filter (fun s => obligation_flag s || right_flag s)
                       (sentences_of article)) /\
    created
      = List.map (time_requirement_for (a_number article))
          (List.filter
             (fun s => (obligation_flag s || right_flag s) && time_flag s)
             (sentences_of article)) /\
    forall s, In s (sentences_of article) ->
      (In (requirement_for s) requirements
         <-> obligation_flag s || right_flag s = true) /\
      (In (time_requirement_for (a_number article) s) created
         <-> In (requirement_for s) requirements /\ time_flag s = true) /\
      (time_flag s = true -> obligation_flag s = false ->
       right_flag s = false ->
       ~ In (requirement_for s) requirements /\
       ~ In (time_requirement_for (a_number article) s) created).
Proof.
  cbv zeta.
  destruct (extract_requirements_classified article time_requirements)
    as [Hr Ht].
  eexists. split; [exact Ht|]. split; [exact Hr|]. split; [reflexivity|].
  intros s Hs. rewrite Hr.
  pose proof (in_map_filter_inj requirement_for stored (sentences_of article)
                s requirement_for_inj) as Hreq.
  pose proof (in_map_filter_inj (time_requirement_for (a_number article))
                timed (sentences_of article) s
                (time_requirement_for_inj _)) as Htime.
  unfold timed in *. unfold stored in *. cbv beta in *.
  split; [|split].
  - rewrite Hreq. tauto.
  - rewrite Htime, Hreq, andb_true_iff. tauto.
  - intros H1 H2 H3.
    split; [rewrite Hreq | rewrite Htime]; rewrite H2, H3; cbn [orb andb];
      intros [_ H]; discriminate H.
Qed.
End Classifier.

(** ** Insertion-ordered dictionaries: lookups after updates *)

Section DictFacts.
Context {K V : Type} `{EqDecision K}.
Implicit Types (d : Dict.t K V) (k : K) (v : V).

Lemma dict_get_set d k v k' :
  Dict.get (Dict.set d k v) k'
  = if decide (k' = k) then Some v else Dict.get d k'.
Proof.
  induction d as [|[k0 v0] d IH]; simpl.
  - destruct (decide (k' = k)); reflexivity.
  - destruct (decide (k = k0)) as [->|Hne]; simpl.
    + destruct (decide (k' = k0)); reflexivity.
    + rewrite IH. destruct (decide (k' = k0)) as [->|]; [|reflexivity].
      destruct (decide (k0 = k)); congruence.
Qed.

Lemma dict_get_app_new d k v k' :
  Dict.get d k = None ->
  Dict.get (d ++ [(k, v)]) k'
  = if decide (k' = k) then Some v else Dict.get d k'.
Proof.
  induction d as [|[k0 v0] d IH]; simpl; intros Hk.
  - reflexivity.
  - destruct (decide (k = k0)); [discriminate|].
    rewrite (IH Hk). destruct (decide (k' = k0)) as [->|]; [|reflexivity].
    destruct (decide (k0 = k)); congruence.
Qed.

Lemma dict_get_touch d k v k' :
  Dict.get (Dict.touch d k v) k'
  = match Dict.get d k' with
    | Some x => Some x
    | None => if decide (k' = k) then Some v else None
    end.
Proof.
  unfold Dict.touch. destruct (Dict.get d k) as [x|] eqn:E.
  - destruct (Dict.get d k') eqn:E'; [reflexivity|].
    destruct (decide (k' = k)); congruence.
  - rewrite dict_get_app_new by exact E.
    destruct (decide (k' = k)) as [->|]; [now rewrite E|].
    destruct (Dict.get d k'); reflexivity.
Qed.
End DictFacts.

(** ** CrossReferenceExtractor: no self-reference, no duplicate *)

Lemma mem_In {A} `{EqDecision A} (x : A) l : mem x l = true <-> In x l.
Proof.
  unfold mem. rewrite existsb_exists. split.
  - intros (y & Hy & E). apply bool_decide_eq_true in E. now subst.
  - intros Hx. exists x. split; [exact Hx|]. now apply bool_decide_eq_true.
Qed.

Lemma first_seen_In {A} `{EqDecision A} (l seen : list A) x :
  In x (first_seen seen l) <-> In x l /\ ~ In x seen.
Proof.
  revert seen. induction l as [|y l IH]; intros seen; simpl; [tauto|].
  destruct (mem y seen) eqn:E.
  - apply mem_In in E. rewrite IH. split; [tauto|].
    intros [[->|Hx] Hn]; tauto.
  - assert (Hy : ~ In y seen) by (rewrite <- mem_In; congruence).
    simpl. rewrite IH, in_app_iff. simpl. split.
    + intros [->|(Hx & Hn)]; [tauto|]. split; tauto.
    + intros [[->|Hx] Hn]; [tauto|].
      destruct (decide (y = x)) as [->|Hne]; [tauto|]. right. tauto.
Qed.

Lemma first_seen_NoDup {A} `{EqDecision A} (l seen : list A) :
  List.NoDup (first_seen seen l).
Proof.
  revert seen. induction l as [|y l IH]; intros seen; simpl.
  - constructor.
  - destruct (mem y seen); [apply IH|].
    constructor; [|apply IH].
    rewrite first_seen_In, in_app_iff. simpl. tauto.
Qed.

Lemma add_reference_from n cr m source :
  references_from (add_reference n cr m) source
  = if decide (source = n)
    then note n (references_from cr source) (reference_of m)
    else references_from cr source.
Proof.
  unfold add_reference, note, references_from.
  destruct (bool_decide (ref_article (reference_of m) <> n)); simpl.
  - set (cr' := Dict.touch cr n []).
    assert (Hcr : forall k, default [] (Dict.get cr' k)
                            = default [] (Dict.get cr k)).
    { intros k. unfold cr'. rewrite dict_get_touch.
      destruct (Dict.get cr k); [reflexivity|].
      destruct (decide (k = n)); reflexivity. }
    rewrite (Hcr n).
    destruct (decide (source = n)) as [->|Hne].
    + destruct (mem (reference_of m) (default [] (Dict.get cr n))); simpl.
      * apply Hcr.
      * rewrite dict_get_set. destruct (decide (n = n)); easy.
    + destruct (mem (reference_of m) (default [] (Dict.get cr n))); simpl.
      * apply Hcr.
      * rewrite dict_get_set. destruct (decide (source = n)); [easy|].
        apply Hcr.
  - destruct (decide (source = n)); reflexivity.
Qed.

Lemma add_references_from n ms : forall cr source,
  references_from (fold_left (add_reference n) ms cr) source
  = if decide (source = n)
    then fold_left (note n) (List.map reference_of ms)
                   (references_from cr source)
    else references_from cr source.
Proof.
  induction ms as [|m ms IH]; intros cr source; simpl.
  - destruct (decide (source = n)); reflexivity.
  - rewrite IH, add_reference_from.
    destruct (decide (source = n)); reflexivity.
Qed.

Lemma extract_cross_references_from `{Engine} articles : forall cr source,
  references_from
    (fold_left
       (fun cross_references article =>
          fold_left (add_reference (a_number article))
                    (finditer article_ref_pattern [] (a_content article))
                    cross_references)
       articles cr) source
  = fold_left (note source) (mentions articles source)
              (references_from cr source).
Proof.
  induction articles as [|a articles IH]; intros cr source; [reflexivity|].
  cbn [fold_left]. rewrite IH, add_references_from.
  unfold mentions. cbn [List.filter].
  destruct (decide (source = a_number a)) as [->|Hne].
  - rewrite bool_decide_eq_true_2 by reflexivity.
    cbn [flat_map]. now rewrite fold_left_app.
  - rewrite bool_decide_eq_false_2 by congruence. reflexivity.
Qed.

Lemma note_first_seen source rs : forall current,
  fold_left (note source) rs current
  = current ++
    first_seen current
      (List.filter (fun r => bool_decide (ref_article r <> source)) rs).
Proof.
  induction rs as [|r rs IH]; intros current; simpl.
  - now rewrite app_nil_r.
  - rewrite IH. unfold note.
    destruct (bool_decide (ref_article r <> source)); simpl.
    + destruct (mem r current); simpl; [reflexivity|].
      now rewrite <- app_assoc.
    + reflexivity.
Qed.

(** C7: the references recorded for a source article are the "Article N"
    matches of its content in first-seen order, without the matches whose
    target is the source itself and without repetitions of a (target
    article, target paragraph) pair; so no edge leads from an article to
    itself and the list holds no pair twice. *)
Theorem cross_references_first_seen_no_self
    (E : Engine) (articles : list Article) (source : str) :
  let refs := references_from (extract_cross_references articles) source in
  refs = first_seen []
           (List.filter (fun r => bool_decide (ref_article r <> source))
                        (mentions articles source)) /\
  List.NoDup refs /\
  Forall (fun r => ref_article r <> source) refs /\
  (forall r, In r refs <->
             In r (mentions articles source) /\ ref_article r <> source).
Proof.
  cbv zeta. unfold extract_cross_references.
  rewrite extract_cross_references_from, note_first_seen.
  change (references_from [] source) with (@nil Reference). simpl app.
  split; [reflexivity|]. split; [apply first_seen_NoDup|].
  assert (Hin : forall r,
    In r (first_seen []
            (List.filter (fun r => bool_decide (ref_article r <> source))
                         (mentions articles source)))
    <-> In r (mentions articles source) /\ ref_article r <> source).
  { intros r. rewrite first_seen_In, List.filter_In, bool_decide_eq_true.
    simpl. tauto. }
  split; [|exact Hin].
  apply List.Forall_forall. intros r Hr. now apply Hin in Hr.
Qed.

Lemma tidy_spec s : forall p,
  tidy p s = true ->
  Forall (fun c => isspace c = true -> c = SP) s /\ no_adjacent_whitespace s.
Proof.
  induction s as [|c s IH]; intros p H.
  - split; [constructor|]. intros [|? ?] ? ? ? E; discriminate E.
  - simpl in H. destruct (isspace c) eqn:Hc.
    + apply andb_prop in H as [H1 H2]. apply andb_prop in H1 as [H0 _].
      apply N.eqb_eq in H0. destruct (IH _ H2) as [IH1 IH2].
      split; [constructor; auto|].
      intros [|x before] c' d after E; simpl in E; injection E as <- ->.
      * simpl in H2. destruct (isspace d); [|now rewrite andb_false_r].
        rewrite andb_false_r in H2. discriminate H2.
      * eapply IH2. reflexivity.
    + destruct (IH _ H) as [IH1 IH2].
      split; [constructor; [congruence|auto]|].
      intros [|x before] c' d after E; simpl in E; injection E as <- ->.
      * now rewrite Hc.
      * eapply IH2. reflexivity.
Qed.

Lemma sub_whitespace_runs_solid b w :
  forallb (fun c => negb (isspace c)) w = true ->
  sub_whitespace_runs b w = w.
Proof.
  revert b. induction w as [|c w IH]; intros b H; [reflexivity|].
  simpl in *. apply andb_prop in H as [Hc Hw].
  apply negb_true_iff in Hc. rewrite Hc. f_equal. now apply IH.
Qed.

Lemma sub_whitespace_runs_in_run run b :
  forallb isspace run = true -> isspace (hd 0%N b) = false ->
  sub_whitespace_runs true (run ++ b) = sub_whitespace_runs false b.
Proof.
  intros Hrun Hb. induction run as [|c run IH]; simpl in *.
  - destruct b as [|c b]; [reflexivity|]. simpl in *. now rewrite Hb.
  - apply andb_prop in Hrun as [Hc Hrun]. rewrite Hc. now apply IH.
Qed.

Lemma sub_whitespace_runs_collapses :
  collapses_whitespace_runs (sub_whitespace_runs false).
Proof.
  split; [apply sub_whitespace_runs_solid|].
  intros a run b Hne Hrun Ha Hb.
  assert (Hgen : forall p, (a = [] -> p = false) ->
    sub_whitespace_runs p (a ++ run ++ b)
    = sub_whitespace_runs p a ++ SP :: sub_whitespace_runs false b);
    [|now apply Hgen].
  induction a as [|c a IH]; intros p Hp.
  - rewrite (Hp eq_refl). destruct run as [|r run]; [easy|].
    simpl in Hrun |- *. apply andb_prop in Hrun as [Hr Hrun]. rewrite Hr.
    f_equal. now apply sub_whitespace_runs_in_run.
  - assert (Ha' : isspace (List.last a 0%N) = false).
    { destruct a as [|c' a]; [reflexivity|exact Ha]. }
    simpl. destruct (isspace c) eqn:Hc.
    + assert (Hne' : a <> []).
      { intros ->. simpl in Ha. congruence. }
      destruct p; [|simpl; f_equal]; apply IH; easy.
    + simpl. f_equal. apply IH; easy.
Qed.

(** C10: the normalised text contains no newline and no two neighbouring
    whitespace code points; its only whitespace is U+0020.  The first
    substitution collapses every maximal whitespace run to one space, and the
    later substitutions bring back neither a newline nor a double space; so
    the header patterns scan a single line. *)
Theorem preprocess_text_single_line (text : str) :
  ~ In NEWLINE (preprocess_text text) /\
  no_adjacent_whitespace (preprocess_text text) /\
  Forall (fun c => isspace c = true -> c = SP) (preprocess_text text) /\
  collapses_whitespace_runs (sub_whitespace_runs false).
Proof.
  destruct (tidy_spec _ _ (preprocess_text_tidy text)) as [Hsp Hadj].
  split; [|split; [exact Hadj|split; [exact Hsp|]]].
  - intros Hin. rewrite List.Forall_forall in Hsp.
    specialize (Hsp _ Hin eq_refl). discriminate Hsp.
  - apply sub_whitespace_runs_collapses.
Qed.

(** ** KnowledgeStore: population commits everything or nothing *)

Lemma rows_in_app tr1 tr2 t : rows_in (tr1 ++ tr2) t = rows_in tr1 t ++ rows_in tr2 t.
Proof. unfold rows_in. now rewrite List.filter_app, List.map_app. Qed.

Lemma wrote_refl s : wrote s s [].
Proof. split; [reflexivity|]. intros t. now rewrite app_nil_r. Qed.

Lemma wrote_trans s1 s2 s3 tr1 tr2 :
  wrote s1 s2 tr1 -> wrote s2 s3 tr2 -> wrote s1 s3 (tr1 ++ tr2).
Proof.
  intros [D1 P1] [D2 P2]. split; [congruence|].
  intros t. now rewrite P2, P1, rows_in_app, app_assoc.
Qed.

Lemma emits_ret {A} (a : A) : emits (mret a) [].
Proof. intros s. exists []. split; [apply wrote_refl|reflexivity]. Qed.

Lemma emits_bind {A B} (m : M A) (f : A -> M B) e1 e2 :
  emits m e1 -> (forall a, emits (f a) e2) -> emits (m ≫= f) (e1 ++ e2).
Proof.
  intros Hm Hf s. unfold mbind, M_bind. specialize (Hm s).
  destruct (m s) as [a s1|e s1]; [|exact Hm].
  destruct Hm as (tr1 & W1 & F1). specialize (Hf a s1).
  destruct (f a s1) as [b s2|e s2].
  - destruct Hf as (tr2 & W2 & F2). exists (tr1 ++ tr2).
    split; [eapply wrote_trans; eassumption|].
    rewrite List.filter_app. f_equal; assumption.
  - destruct W1 as [D1 _]. congruence.
Qed.

Lemma emits_eq {A} (m : M A) e e' : emits m e -> e = e' -> emits m e'.
Proof. now intros H <-. Qed.

Lemma emits_lastrowid : emits cursor_lastrowid [].
Proof.
  intros s. unfold cursor_lastrowid. destruct (conn s); [|reflexivity].
  exists []. split; [apply wrote_refl|reflexivity].
Qed.

Lemma table_insert (db : DB) t rows t' :
  table (<[t := rows]> db) t' = if decide (t' = t) then rows else table db t'.
Proof.
  unfold table. destruct (decide (t' = t)) as [->|Hne].
  - now rewrite lookup_insert_eq.
  - now rewrite lookup_insert_ne by congruence.
Qed.

Lemma emits_execute `{Storage} stmt :
  emits (execute stmt)
        (List.filter (fun e => negb (guarded (fst e))) [entry_of stmt]).
Proof.
  intros s. unfold execute. destruct (conn s) as [c|] eqn:Hc; [|reflexivity].
  destruct (Dict.get schema (into stmt)) as [cols|] eqn:Hs; [|reflexivity].
  destruct (view c !! into stmt) as [rows|] eqn:Hr; [|reflexivity].
  destruct (storage_fails stmt (view c)); [reflexivity|].
  destruct (forallb _ cols); [|reflexivity].
  exists [entry_of stmt]. split; [|reflexivity].
  split; [reflexivity|]. intros t. unfold view_of. rewrite Hc. simpl.
  unfold payloads, rows_in, entry_of. rewrite table_insert, Hs. simpl.
  destruct (decide (t = into stmt)) as [->|Hne].
  - rewrite bool_decide_eq_true_2 by reflexivity.
    rewrite List.map_app. simpl. unfold table. now rewrite Hr.
  - rewrite bool_decide_eq_false_2 by congruence. simpl.
    now rewrite app_nil_r.
Qed.

Lemma emits_foldM {A B} (body : B -> A -> M B) (g : A -> list Entry) l :
  (forall acc x, emits (body acc x) (g x)) ->
  forall acc, emits (foldM body l acc) (flat_map g l).
Proof.
  intros Hbody. induction l as [|x l IH]; intros acc; simpl.
  - apply emits_ret.
  - apply emits_bind; [apply Hbody|exact IH].
Qed.

Lemma emits_for_each {A} (body : A -> M unit) (g : A -> list Entry) l :
  (forall x, emits (body x) (g x)) -> emits (for_each l body) (flat_map g l).
Proof. intros Hbody. apply emits_foldM. intros _ x. apply Hbody. Qed.

Lemma flat_map_singleton {A B} (f : A -> B) l :
  flat_map (fun x => [f x]) l = List.map f l.
Proof. induction l; simpl; congruence. Qed.

Lemma flat_map_nil {A B} (l : list A) : flat_map (fun _ => @nil B) l = [].
Proof. induction l; simpl; congruence. Qed.

Section PopulateFacts.
Context `{Storage}.

Lemma emits_insert stmt :
  guarded (into stmt) = false -> emits (execute stmt) [entry_of stmt].
Proof.
  intros Hg. eapply emits_eq; [apply emits_execute|].
  cbn [List.filter entry_of fst]. now rewrite Hg.
Qed.

Lemma emits_insert_guarded stmt :
  guarded (into stmt) = true -> emits (execute stmt) [].
Proof.
  intros Hg. eapply emits_eq; [apply emits_execute|].
  cbn [List.filter entry_of fst]. now rewrite Hg.
Qed.

(** Runs the rules of [emits] through a straight-line block. *)
Ltac emits_block :=
  repeat first
    [ apply emits_ret
    | apply emits_lastrowid
    | apply emits_insert; reflexivity
    | apply emits_insert_guarded; reflexivity
    | eapply emits_bind; [|intros ?] ].

(** One INSERT: the entry does not depend on the row ids passed in. *)
Ltac emits_one :=
  eapply emits_eq;
  [apply emits_insert; reflexivity | vm_compute; reflexivity].

Ltac emits_tidy :=
  cbn [app]; rewrite ?app_nil_r, ?flat_map_singleton, ?flat_map_nil;
  try reflexivity.

Lemma emits_populate_chapters self :
  emits (populate_chapters self)
        (List.map (fun c => entry_of (insert_chapter c)) (chapters self)).
Proof.
  unfold populate_chapters. eapply emits_eq.
  - apply emits_foldM with (g := fun c => [entry_of (insert_chapter c)]).
    intros acc c. eapply emits_eq; [emits_block|emits_tidy].
  - emits_tidy.
Qed.

Lemma emits_populate_sections self articles chapter_id_map :
  emits (populate_sections self articles chapter_id_map)
        (List.map (fun s => entry_of (insert_section None s)) (sections self)).
Proof.
  unfold populate_sections. eapply emits_eq.
  - apply emits_foldM
      with (g := fun s => [entry_of (insert_section None s)]).
    intros acc s. eapply emits_eq; [emits_block|emits_tidy].
  - emits_tidy.
Qed.

Lemma emits_populate_subparagraph article paragraph paragraph_id m sp :
  emits (populate_subparagraph article paragraph paragraph_id m sp)
        (subparagraph_entries sp).
Proof.
  unfold populate_subparagraph, subparagraph_entries. eapply emits_eq.
  - eapply emits_bind; [emits_one|intros _].
    eapply emits_bind; [apply emits_lastrowid|intros subparagraph_id].
    eapply emits_bind; [|intros _; apply emits_ret].
    apply emits_for_each
      with (g := fun ssp => [entry_of (insert_subsubparagraph 0 ssp)]).
    intros ssp. emits_one.
  - emits_tidy.
Qed.

Lemma emits_populate_paragraph article article_id maps paragraph :
  emits (populate_paragraph article article_id maps paragraph)
        (paragraph_entries paragraph).
Proof.
  unfold populate_paragraph, paragraph_entries. destruct maps as [pm sm].
  eapply emits_eq.
  - eapply emits_bind; [emits_one|intros _].
    eapply emits_bind; [apply emits_lastrowid|intros paragraph_id].
    eapply emits_bind; [|intros ?; apply emits_ret].
    apply emits_foldM. intros acc sp. apply emits_populate_subparagraph.
  - emits_tidy.
Qed.

Lemma emits_populate_requirement article article_id pm sm requirement :
  emits (populate_requirement article article_id pm sm requirement)
        [entry_of (insert_requirement 0 None None requirement)].
Proof.
  unfold populate_requirement. emits_one.
Qed.

Lemma emits_populate_article chapter_id_map section_id_map maps article :
  emits (populate_article chapter_id_map section_id_map maps article)
        (article_entries article).
Proof.
  unfold populate_article, article_entries.
  destruct maps as [[am pm] sm]. eapply emits_eq.
  - eapply emits_bind; [emits_one|intros _].
    eapply emits_bind; [apply emits_lastrowid|intros article_id].
    eapply emits_bind;
      [apply emits_foldM; intros acc p; apply emits_populate_paragraph
      |intros [pm' sm']].
    eapply emits_bind;
      [apply emits_for_each; intros r; apply emits_populate_requirement
      |intros _].
    eapply emits_bind; [|intros _; apply emits_ret].
    apply emits_for_each
      with (g := fun e => [entry_of (insert_entity 0 e)]).
    intros e. emits_one.
  - emits_tidy.
Qed.

Lemma emits_populate_definition maps item :
  emits (populate_definition maps item)
        [let '(term, d) := item in
         entry_of (insert_definition term d None None None)].
Proof.
  unfold populate_definition. destruct maps as [[am pm] sm].
  destruct item as [term d]. emits_one.
Qed.

Lemma emits_populate_cross_references article_id_map item :
  emits (populate_cross_references article_id_map item) [].
Proof.
  unfold populate_cross_references. destruct item as [from_article refs].
  destruct (truthy_id _); [|apply emits_ret].
  eapply emits_eq.
  - apply emits_for_each with (g := fun _ => []). intros r.
    destruct (truthy_id _); [|apply emits_ret].
    apply emits_insert_guarded. reflexivity.
  - apply flat_map_nil.
Qed.

Lemma emits_populate_time_requirement maps time_req :
  emits (populate_time_requirement maps time_req)
        [entry_of (insert_time_requirement None None None time_req)].
Proof.
  unfold populate_time_requirement. destruct maps as [[am pm] sm].
  emits_one.
Qed.

Lemma emits_populate_key_actors article_id_map item :
  emits (populate_key_actors article_id_map item) [].
Proof.
  unfold populate_key_actors. destruct item as [actor_type mentions].
  eapply emits_eq.
  - apply emits_for_each with (g := fun _ => []). intros m.
    destruct (truthy_id _); [|apply emits_ret].
    apply emits_insert_guarded. reflexivity.
  - apply flat_map_nil.
Qed.

Lemma emits_populate_rows self recitals articles actors :
  emits (populate_rows self recitals articles actors)
        (model_entries self recitals articles).
Proof.
  unfold populate_rows, model_entries. eapply emits_eq.
  - eapply emits_bind; [apply emits_populate_chapters|intros chapter_id_map].
    eapply emits_bind; [apply emits_populate_sections|intros section_id_map].
    eapply emits_bind;
      [apply emits_for_each
         with (g := fun r => [entry_of (insert_recital r)]);
       intros r; apply emits_insert; reflexivity
      |intros _].
    eapply emits_bind;
      [apply emits_foldM; intros acc a; apply emits_populate_article
      |intros maps].
    eapply emits_bind;
      [apply emits_for_each; intros d; apply emits_populate_definition
      |intros _].
    eapply emits_bind;
      [apply emits_for_each with (g := fun _ => []); intros r;
       apply emits_populate_cross_references
      |intros _].
    eapply emits_bind;
      [apply emits_for_each; intros t; apply emits_populate_time_requirement
      |intros _].
    eapply emits_bind;
      [apply emits_for_each with (g := fun _ => []); intros a;
       apply emits_populate_key_actors
      |intros _].
    apply emits_for_each
      with (g := fun p => [entry_of (insert_policy_section p)]).
    intros p. apply emits_insert. now destruct p as [[[? ?] ?] ?].
  - rewrite ?flat_map_nil, ?flat_map_singleton. cbn [app]. reflexivity.
Qed.

End PopulateFacts.

Lemma rows_in_unguarded tr t :
  guarded t = false ->
  rows_in (List.filter (fun e => negb (guarded (fst e))) tr) t = rows_in tr t.
Proof.
  intros Hg. unfold rows_in. f_equal.
  induction tr as [|e tr IH]; [reflexivity|]. simpl.
  destruct (bool_decide (fst e = t)) eqn:Et.
  - apply bool_decide_eq_true in Et. rewrite Et, Hg. simpl.
    rewrite bool_decide_eq_true_2 by exact Et. now rewrite IH.
  - destruct (guarded (fst e)); simpl; rewrite ?Et; exact IH.
Qed.

(** *** The rows that a run inserts, with their ids *)

Lemma next_rowid_eq rows :
  next_rowid rows = 1 + fold_right Z.max 0 (List.map rowid rows).
Proof. now destruct rows. Qed.

Lemma fold_max_nonneg (l : list Z) : 0 <= fold_right Z.max 0 l.
Proof.
  induction l as [|x l IH]; cbn [fold_right]; [lia|].
  etransitivity; [exact IH|apply Z.le_max_r].
Qed.

Lemma fold_max_app (l l' : list Z) :
  fold_right Z.max 0 (l ++ l')
  = Z.max (fold_right Z.max 0 l) (fold_right Z.max 0 l').
Proof.
  induction l as [|x l IH]; cbn [app fold_right].
  - pose proof (fold_max_nonneg l'). lia.
  - rewrite IH. lia.
Qed.

Lemma next_rowid_positive rows : 1 <= next_rowid rows.
Proof.
  rewrite next_rowid_eq. pose proof (fold_max_nonneg (List.map rowid rows)).
  lia.
Qed.

(** A row that gets the next row id moves the next row id on by one. *)
Lemma next_rowid_snoc rows c :
  next_rowid (rows ++ [{| rowid := next_rowid rows; cells := c |}])
  = next_rowid rows + 1.
Proof.
  rewrite !next_rowid_eq, List.map_app, fold_max_app. cbn [List.map rowid].
  pose proof (fold_max_nonneg (List.map rowid rows)). cbn [fold_right]. lia.
Qed.

Lemma new_rows_app first cs cs' :
  new_rows first (cs ++ cs')
  = new_rows first cs ++ new_rows (first + Z.of_nat (length cs)) cs'.
Proof.
  revert first. induction cs as [|c cs IH]; intros first; simpl.
  - now rewrite Z.add_0_r.
  - rewrite IH. do 3 f_equal. lia.
Qed.

Lemma next_rowid_new_rows rows cs :
  next_rowid (rows ++ new_rows (next_rowid rows) cs)
  = next_rowid rows + Z.of_nat (length cs).
Proof.
  revert rows. induction cs as [|c cs IH]; intros rows; cbn [new_rows length].
  - now rewrite app_nil_r, Z.add_0_r.
  - replace (rows ++ {| rowid := next_rowid rows; cells := c |}
                   :: new_rows (next_rowid rows + 1) cs)
      with ((rows ++ [{| rowid := next_rowid rows; cells := c |}])
              ++ new_rows (next_rowid rows + 1) cs)
      by now rewrite <- app_assoc.
    rewrite <- (next_rowid_snoc rows c), IH, next_rowid_snoc. lia.
Qed.

Lemma rows_for_app t d d' : rows_for t (d ++ d') = rows_for t d ++ rows_for t d'.
Proof. unfold rows_for. now rewrite List.filter_app, List.map_app. Qed.

Lemma issued_app t d d' : issued t (d ++ d') = issued t d + issued t d'.
Proof. unfold issued. rewrite rows_for_app, length_app. lia. Qed.

Lemma issued_cons t stmt d :
  issued t (stmt :: d)
  = (if String.eqb (into stmt) t then 1 else 0) + issued t d.
Proof.
  unfold issued, rows_for. cbn [List.filter].
  destruct (String.eqb (into stmt) t); cbn [List.map length]; lia.
Qed.

Lemma issued_nil t : issued t [] = 0.
Proof. reflexivity. Qed.

Lemma issued_map {A} t (f : A -> Insert) l :
  issued t (List.map f l)
  = Z.of_nat (length (List.filter (fun x => String.eqb (into (f x)) t) l)).
Proof.
  unfold issued, rows_for. induction l as [|x l IH]; [reflexivity|].
  cbn [List.map List.filter]. destruct (String.eqb (into (f x)) t);
    cbn [List.map length]; lia.
Qed.

Lemma issued_map_other {A} t (f : A -> Insert) l :
  (forall x, String.eqb (into (f x)) t = false) -> issued t (List.map f l) = 0.
Proof.
  intros Hf. rewrite issued_map.
  induction l as [|x l IH]; [reflexivity|]. cbn [List.filter].
  now rewrite Hf.
Qed.

Lemma issued_map_same {A} t (f : A -> Insert) l :
  (forall x, String.eqb (into (f x)) t = true) ->
  issued t (List.map f l) = Z.of_nat (length l).
Proof.
  intros Hf. rewrite issued_map.
  induction l as [|x l IH]; [reflexivity|]. cbn [List.filter].
  rewrite Hf. cbn [length]. lia.
Qed.

Lemma table_after_nil db t : table_after db [] t = table db t.
Proof. unfold table_after. cbn. now rewrite app_nil_r. Qed.

(** The next row id of a table after the rows of [done]. *)
Lemma next_rowid_table_after base done t :
  next_rowid (table_after base done t)
  = next_rowid (table base t) + issued t done.
Proof.
  unfold table_after, issued. rewrite next_rowid_new_rows.
  unfold rows_for. now rewrite !length_map.
Qed.

Lemma table_after_snoc base done stmt t :
  table_after base (done ++ [stmt]) t
  = if String.eqb (into stmt) t
    then table_after base done t
         ++ [{| rowid := next_rowid (table_after base done t);
                cells := row_cells stmt |}]
    else table_after base done t.
Proof.
  rewrite next_rowid_table_after. unfold table_after, issued.
  rewrite rows_for_app, new_rows_app.
  unfold rows_for at 3. cbn [List.filter].
  destruct (String.eqb (into stmt) t).
  - cbn [List.map new_rows]. now rewrite app_assoc.
  - cbn [List.map new_rows]. now rewrite app_nil_r.
Qed.

Section Runs.
Context `{Storage}.
Variable base : DB.

(** The id of the next row of [t] after the rows of [done]. *)
Local Abbreviation next_id done t := (next_rowid (table base t) + issued t done).

Lemma holds_nil s : view_of s = base -> holds base [] s.
Proof.
  intros <-. split; [|easy]. intros t. now rewrite table_after_nil.
Qed.

Lemma runs_ret {A} done (a : A) : runs base done (mret a) a [].
Proof. intros s Hs. cbn. now rewrite app_nil_r. Qed.

Lemma runs_bind {A B} done (m : M A) (f : A -> M B) a b d1 d2 :
  runs base done m a d1 ->
  runs base (done ++ d1) (f a) b d2 ->
  runs base done (m ≫= f) b (d1 ++ d2).
Proof.
  intros Hm Hf s Hs. unfold mbind, M_bind. specialize (Hm s Hs).
  destruct (m s) as [a' s1|e s1].
  - destruct Hm as [-> Hs1]. specialize (Hf s1 Hs1).
    destruct (f a s1) as [b' s2|e s2].
    + now rewrite app_assoc.
    + destruct Hf as (pre & rest & -> & Hrest & Hs2).
      exists (d1 ++ pre), rest. now rewrite !app_assoc.
  - destruct Hm as (pre & rest & -> & Hrest & Hs1).
    exists pre, (rest ++ d2). rewrite app_assoc. split; [reflexivity|].
    split; [|exact Hs1]. now destruct rest.
Qed.

Lemma runs_eq {A} done (m : M A) a a' d d' :
  runs base done m a d -> a = a' -> d = d' -> runs base done m a' d'.
Proof. now intros Hm <- <-. Qed.

(** What one INSERT does in a state that [holds]. *)
Lemma execute_holds done stmt s :
  holds base done s ->
  match execute stmt s with
  | Returned _ s' =>
      holds base (done ++ [stmt]) s' /\
      exists c, conn s' = Some c /\ lastrowid c = next_id done (into stmt)
  | Raised _ s' => s' = s
  end.
Proof.
  intros [Hview Hconn]. unfold execute.
  destruct (conn s) as [c|] eqn:Hc; [|reflexivity].
  destruct (Dict.get schema (into stmt)) as [cols|] eqn:Hs; [|reflexivity].
  destruct (view c !! into stmt) as [rows|] eqn:Hr; [|reflexivity].
  destruct (storage_fails stmt (view c)); [reflexivity|].
  destruct (forallb _ cols); [|reflexivity].
  assert (Hrows : rows = table_after base done (into stmt)).
  { rewrite <- Hview. unfold view_of, table. now rewrite Hc, Hr. }
  split; [split|].
  - intros t. unfold view_of. cbn [conn view].
    rewrite table_after_snoc, table_insert.
    destruct (String.eqb_spec (into stmt) t) as [<-|Hne].
    + rewrite decide_True by reflexivity.
      unfold row_cells. rewrite Hs. cbn [default]. now rewrite Hrows.
    + rewrite decide_False by congruence.
      rewrite <- Hview. unfold view_of. now rewrite Hc.
  - intros _. cbn. eauto.
  - eexists. split; [reflexivity|]. cbn [lastrowid].
    now rewrite Hrows, next_rowid_table_after.
Qed.

Lemma runs_execute done stmt : runs base done (execute stmt) tt [stmt].
Proof.
  intros s Hs. pose proof (execute_holds done stmt s Hs) as He.
  destruct (execute stmt s) as [[] s'|e s'].
  - split; [reflexivity|]. apply He.
  - subst s'. exists [], [stmt]. rewrite app_nil_r.
    split; [reflexivity|]. split; [discriminate|exact Hs].
Qed.

(** An INSERT followed by a read of [cursor.lastrowid]. *)
Lemma runs_insert {B} done stmt (k : Z -> M B) b d :
  runs base (done ++ [stmt]) (k (next_id done (into stmt))) b d ->
  runs base done (execute stmt;; id ← cursor_lastrowid; k id) b (stmt :: d).
Proof.
  intros Hk s Hs. unfold mbind, M_bind.
  pose proof (execute_holds done stmt s Hs) as He.
  destruct (execute stmt s) as [[] s1|e s1].
  - destruct He as (Hs1 & c & Hc & Hid). unfold cursor_lastrowid.
    rewrite Hc, Hid. specialize (Hk s1 Hs1).
    destruct (k _ s1) as [b' s2|e s2].
    + change (done ++ stmt :: d) with (done ++ [stmt] ++ d).
      now rewrite app_assoc.
    + destruct Hk as (pre & rest & -> & Hrest & Hs2).
      exists (stmt :: pre), rest. split; [reflexivity|]. split; [exact Hrest|].
      change (done ++ stmt :: pre) with (done ++ [stmt] ++ pre).
      now rewrite app_assoc.
  - subst s1. exists [], (stmt :: d). rewrite app_nil_r.
    split; [reflexivity|]. split; [discriminate|exact Hs].
Qed.

Lemma runs_for_each {A} (body : A -> M unit) (g : A -> list Insert) l :
  (forall done x, runs base done (body x) tt (g x)) ->
  forall done, runs base done (for_each l body) tt (flat_map g l).
Proof.
  intros Hbody. unfold for_each.
  induction l as [|x l IH]; intros done; cbn [foldM flat_map].
  - apply runs_ret.
  - eapply runs_bind; [apply Hbody|apply IH].
Qed.

Lemma runs_for_each_execute {A} (f : A -> Insert) l done :
  runs base done (for_each l (fun x => execute (f x))) tt (List.map f l).
Proof.
  eapply runs_eq;
    [apply runs_for_each with (g := fun x => [f x]);
     intros d x; apply runs_execute
    |reflexivity|apply flat_map_singleton].
Qed.

(** Counts the rows of a list of statements table by table. *)
Ltac count_rows :=
  repeat first
    [ rewrite issued_app
    | rewrite issued_cons
    | rewrite issued_nil
    | rewrite issued_map_other by (intros; reflexivity)
    | rewrite issued_map_same by (intros; reflexivity) ];
  cbn [into insert_chapter insert_section insert_recital insert_article
       insert_paragraph insert_subparagraph insert_subsubparagraph
       insert_requirement insert_entity];
  repeat match goal with
  | |- context [String.eqb ?a ?b] =>
      let v := eval vm_compute in (String.eqb a b) in
      change (String.eqb a b) with v
  end;
  cbv iota.

Lemma issued_subparagraphs_rows paragraph_id first sps :
  issued "articles" (subparagraphs_rows paragraph_id first sps) = 0 /\
  issued "paragraphs" (subparagraphs_rows paragraph_id first sps) = 0 /\
  issued "subparagraphs" (subparagraphs_rows paragraph_id first sps)
  = Z.of_nat (length sps).
Proof.
  revert first. induction sps as [|sp sps IH]; intros first; [easy|].
  cbn [subparagraphs_rows length]. unfold subparagraph_rows.
  destruct (IH (first + 1)) as (H1 & H2 & H3).
  repeat split; count_rows; lia.
Qed.

Lemma issued_paragraphs_rows article_id first_paragraph first_subparagraph ps :
  issued "articles"
    (paragraphs_rows article_id first_paragraph first_subparagraph ps) = 0 /\
  issued "paragraphs"
    (paragraphs_rows article_id first_paragraph first_subparagraph ps)
  = Z.of_nat (length ps) /\
  issued "subparagraphs"
    (paragraphs_rows article_id first_paragraph first_subparagraph ps)
  = Z.of_nat (length (flat_map p_subparagraphs ps)).
Proof.
  revert first_paragraph first_subparagraph.
  induction ps as [|p ps IH]; intros first_paragraph first_subparagraph;
    [easy|].
  cbn [paragraphs_rows length flat_map]. rewrite length_app.
  destruct (IH (first_paragraph + 1)
               (first_subparagraph + Z.of_nat (length (p_subparagraphs p))))
    as (H1 & H2 & H3).
  destruct (issued_subparagraphs_rows first_paragraph first_subparagraph
              (p_subparagraphs p)) as (S1 & S2 & S3).
  repeat split; count_rows; lia.
Qed.

Lemma issued_article_rows chapter_ids section_ids article_id first_paragraph
    first_subparagraph ids article :
  issued "articles"
    (article_rows chapter_ids section_ids article_id first_paragraph
                  first_subparagraph ids article) = 1 /\
  issued "paragraphs"
    (article_rows chapter_ids section_ids article_id first_paragraph
                  first_subparagraph ids article)
  = Z.of_nat (length (a_paragraphs article)) /\
  issued "subparagraphs"
    (article_rows chapter_ids section_ids article_id first_paragraph
                  first_subparagraph ids article)
  = subparagraph_count article.
Proof.
  unfold article_rows, subparagraph_count.
  destruct (issued_paragraphs_rows article_id first_paragraph
              first_subparagraph (a_paragraphs article)) as (H1 & H2 & H3).
  repeat split; count_rows; lia.
Qed.

Lemma named_subparagraph_truthy (ids : gmap (str * str * str) Z)
    (article paragraph : str) (subparagraph : option str) :
  (if truthy subparagraph
   then ids !! (article, paragraph, default [] subparagraph)
   else None)
  = named_subparagraph ids article paragraph subparagraph.
Proof. now destruct subparagraph as [[|c l]|]. Qed.

Lemma runs_populate_chapters_loop chs : forall done m,
  runs base done
    (foldM (fun (chapter_id_map : gmap str Z) chapter =>
              execute (insert_chapter chapter);;
              chapter_id ← cursor_lastrowid;
              mret (<[h_number chapter := chapter_id]> chapter_id_map))
           chs m)
    (heading_ids (next_id done "chapters") chs m)
    (List.map insert_chapter chs).
Proof.
  induction chs as [|c chs IH]; intros done m;
    cbn [foldM heading_ids List.map]; [apply runs_ret|].
  eapply runs_eq.
  - eapply runs_bind; [apply runs_insert, runs_ret|apply IH].
  - f_equal. count_rows. lia.
  - reflexivity.
Qed.

Lemma runs_populate_sections_loop articles chapter_id_map secs :
  forall done m,
  runs base done
    (foldM (fun (section_id_map : gmap str Z) section =>
              let chapter_id :=
                section_chapter_id chapter_id_map section articles in
              execute (insert_section chapter_id section);;
              section_id ← cursor_lastrowid;
              mret (<[h_number section := section_id]> section_id_map))
           secs m)
    (heading_ids (next_id done "sections") secs m)
    (List.map (fun section =>
                 insert_section
                   (section_chapter_id chapter_id_map section articles)
                   section)
              secs).
Proof.
  induction secs as [|c secs IH]; intros done m;
    cbn [foldM heading_ids List.map]; [apply runs_ret|].
  eapply runs_eq.
  - eapply runs_bind; [cbv zeta; apply runs_insert, runs_ret|apply IH].
  - f_equal. count_rows. lia.
  - reflexivity.
Qed.

Lemma runs_populate_subparagraph article paragraph paragraph_id done m sp :
  runs base done
    (populate_subparagraph article paragraph paragraph_id m sp)
    (<[(a_number article, p_number paragraph, sp_letter sp)
       := next_id done "subparagraphs"]> m)
    (subparagraph_rows paragraph_id (next_id done "subparagraphs") sp).
Proof.
  unfold populate_subparagraph, subparagraph_rows. apply runs_insert.
  eapply runs_eq.
  - eapply runs_bind; [apply runs_for_each_execute|apply runs_ret].
  - reflexivity.
  - apply app_nil_r.
Qed.

Lemma runs_populate_subparagraphs article paragraph paragraph_id sps :
  forall done m,
  runs base done
    (foldM (populate_subparagraph article paragraph paragraph_id) sps m)
    (subparagraph_ids article paragraph (next_id done "subparagraphs") sps m)
    (subparagraphs_rows paragraph_id (next_id done "subparagraphs") sps).
Proof.
  induction sps as [|sp sps IH]; intros done m;
    cbn [foldM subparagraph_ids subparagraphs_rows]; [apply runs_ret|].
  eapply runs_eq.
  - eapply runs_bind; [apply runs_populate_subparagraph|apply IH].
  - f_equal. unfold subparagraph_rows. count_rows. lia.
  - do 2 f_equal. unfold subparagraph_rows. count_rows. lia.
Qed.

Lemma runs_populate_paragraph article article_id done maps p :
  runs base done
    (populate_paragraph article article_id maps p)
    (<[(a_number article, p_number p) := next_id done "paragraphs"]> maps.1,
     subparagraph_ids article p (next_id done "subparagraphs")
                      (p_subparagraphs p) maps.2)
    (insert_paragraph article_id p
     :: subparagraphs_rows (next_id done "paragraphs")
          (next_id done "subparagraphs") (p_subparagraphs p)).
Proof.
  unfold populate_paragraph. destruct maps as [pm spm]. apply runs_insert.
  eapply runs_eq.
  - eapply runs_bind; [apply runs_populate_subparagraphs|apply runs_ret].
  - cbn [fst snd]. do 2 f_equal. count_rows. lia.
  - rewrite app_nil_r. f_equal. count_rows. lia.
Qed.

Lemma runs_populate_paragraphs article article_id ps : forall done maps,
  runs base done
    (foldM (populate_paragraph article article_id) ps maps)
    (paragraph_ids article (next_id done "paragraphs")
                   (next_id done "subparagraphs") ps maps)
    (paragraphs_rows article_id (next_id done "paragraphs")
                     (next_id done "subparagraphs") ps).
Proof.
  induction ps as [|p ps IH]; intros done maps;
    cbn [foldM paragraph_ids paragraphs_rows]; [apply runs_ret|].
  destruct (issued_subparagraphs_rows (next_id done "paragraphs")
              (next_id done "subparagraphs") (p_subparagraphs p))
    as (S1 & S2 & S3).
  eapply runs_eq.
  - eapply runs_bind; [apply runs_populate_paragraph|apply IH].
  - f_equal; count_rows; lia.
  - cbn [app]. do 2 f_equal. f_equal; count_rows; lia.
Qed.

Lemma runs_populate_requirement article article_id pm spm done requirement :
  runs base done
    (populate_requirement article article_id pm spm requirement) tt
    [requirement_row article article_id (pm, spm) requirement].
Proof.
  unfold populate_requirement, requirement_row. cbv zeta.
  rewrite named_subparagraph_truthy. apply runs_execute.
Qed.

Lemma runs_populate_article chapter_id_map section_id_map done maps article :
  runs base done
    (populate_article chapter_id_map section_id_map maps article)
    (article_ids (next_id done "articles") (next_id done "paragraphs")
                 (next_id done "subparagraphs") maps article)
    (article_rows chapter_id_map section_id_map (next_id done "articles")
                  (next_id done "paragraphs") (next_id done "subparagraphs")
                  maps article).
Proof.
  unfold populate_article, article_rows, article_ids.
  destruct maps as [[am pm] spm]. cbv zeta. cbn [fst snd].
  fold (heading_id chapter_id_map (a_chapter article)).
  fold (heading_id section_id_map (a_section article)).
  set (stmt := insert_article article _ _).
  assert (Hp : next_id (done ++ [stmt]) "paragraphs" = next_id done "paragraphs")
    by (subst stmt; count_rows; lia).
  assert (Hs : next_id (done ++ [stmt]) "subparagraphs"
               = next_id done "subparagraphs")
    by (subst stmt; count_rows; lia).
  destruct (paragraph_ids article (next_id done "paragraphs")
              (next_id done "subparagraphs") (a_paragraphs article) (pm, spm))
    as [pm' spm'] eqn:Hids.
  apply runs_insert.
  eapply runs_eq.
  - eapply runs_bind.
    + eapply runs_eq;
        [apply runs_populate_paragraphs
        |rewrite Hp, Hs; exact Hids|reflexivity].
    + eapply runs_bind;
        [apply runs_for_each
           with (g := fun r => [requirement_row article
                                  (next_id done "articles") (pm', spm') r]);
         intros d r; apply runs_populate_requirement|].
      eapply runs_bind; [apply runs_for_each_execute|apply runs_ret].
  - reflexivity.
  - rewrite Hp, Hs, flat_map_singleton, app_nil_r. reflexivity.
Qed.

Lemma runs_populate_articles chapter_id_map section_id_map articles :
  forall done maps,
  runs base done
    (foldM (populate_article chapter_id_map section_id_map) articles maps)
    (articles_ids (next_id done "articles") (next_id done "paragraphs")
                  (next_id done "subparagraphs") maps articles)
    (articles_rows chapter_id_map section_id_map (next_id done "articles")
                   (next_id done "paragraphs") (next_id done "subparagraphs")
                   maps articles).
Proof.
  induction articles as [|a articles IH]; intros done maps;
    cbn [foldM articles_ids articles_rows]; [apply runs_ret|].
  destruct (issued_article_rows chapter_id_map section_id_map
              (next_id done "articles") (next_id done "paragraphs")
              (next_id done "subparagraphs") maps a) as (A1 & A2 & A3).
  eapply runs_eq.
  - eapply runs_bind; [apply runs_populate_article|apply IH].
  - rewrite !issued_app, A1, A2, A3. f_equal; lia.
  - rewrite !issued_app, A1, A2, A3. do 2 f_equal; lia.
Qed.

Lemma runs_populate_definition maps done item :
  runs base done (populate_definition maps item) tt
       [definition_row maps item].
Proof.
  unfold populate_definition, definition_row.
  destruct maps as [[am pm] spm], item as [term definition]. cbv zeta.
  rewrite named_subparagraph_truthy. apply runs_execute.
Qed.

Lemma runs_populate_time_requirement maps done time_req :
  runs base done (populate_time_requirement maps time_req) tt
       [time_requirement_row maps time_req].
Proof.
  unfold populate_time_requirement, time_requirement_row.
  destruct maps as [[am pm] spm]. cbv zeta.
  rewrite named_subparagraph_truthy. apply runs_execute.
Qed.

Lemma runs_populate_cross_references article_id_map done item :
  nonzero article_id_map ->
  runs base done (populate_cross_references article_id_map item) tt
       (cross_reference_rows article_id_map item).
Proof.
  intros Hnz. unfold populate_cross_references, cross_reference_rows.
  destruct item as [from_article references]. cbv zeta. cbn [fst snd].
  destruct (article_id_map !! from_article) as [from_id|] eqn:Hfrom;
    cbn [truthy_id]; [|apply runs_ret].
  rewrite (proj2 (Z.eqb_neq from_id 0) (Hnz _ _ Hfrom)). cbn [negb].
  apply runs_for_each. intros d reference.
  destruct (article_id_map !! ref_article reference) as [to_id|] eqn:Hto;
    cbn [truthy_id]; [|apply runs_ret].
  rewrite (proj2 (Z.eqb_neq to_id 0) (Hnz _ _ Hto)). cbn [negb default].
  apply runs_execute.
Qed.

Lemma runs_populate_key_actors article_id_map done item :
  nonzero article_id_map ->
  runs base done (populate_key_actors article_id_map item) tt
       (key_actor_rows article_id_map item).
Proof.
  intros Hnz. unfold populate_key_actors, key_actor_rows.
  destruct item as [actor_type mentions]. cbn [fst snd].
  apply runs_for_each. intros d mention.
  destruct (article_id_map !! mn_article mention) as [id|] eqn:Hid;
    cbn [truthy_id]; [|apply runs_ret].
  rewrite (proj2 (Z.eqb_neq id 0) (Hnz _ _ Hid)). cbn [negb default].
  apply runs_execute.
Qed.

End Runs.

Lemma articles_ids_nonzero articles :
  forall first_article first_paragraph first_subparagraph ids,
    1 <= first_article -> nonzero ids.1.1 ->
    nonzero (articles_ids first_article first_paragraph first_subparagraph
                          ids articles).1.1.
Proof.
  induction articles as [|a articles IH];
    intros first_article first_paragraph first_subparagraph ids Hfirst Hids;
    cbn [articles_ids]; [exact Hids|].
  apply IH; [lia|]. unfold article_ids. cbn [fst].
  intros k id Hk. destruct (decide (k = a_number a)) as [->|Hne].
  - rewrite lookup_insert_eq in Hk. injection Hk as <-. lia.
  - rewrite lookup_insert_ne in Hk by congruence. eapply Hids. exact Hk.
Qed.

Lemma population_not_empty next self recitals articles actors :
  population next self recitals articles actors <> [].
Proof.
  unfold population. cbv zeta. intros Hnil.
  apply (f_equal (@length Insert)) in Hnil.
  rewrite !length_app, (length_map insert_policy_section) in Hnil.
  cbn [privacy_policy_sections length] in Hnil. lia.
Qed.

(** The statements of [populate_database] up to the commit insert the rows
    of the population, in their order. *)
Lemma runs_populate_rows `{Storage} (base : DB) self recitals articles actors :
  runs base [] (populate_rows self recitals articles actors) tt
       (population (fun t => next_rowid (table base t)) self recitals
                   articles actors).
Proof.
  assert (Hnz : forall done first_paragraph first_subparagraph,
            nonzero (articles_ids
                       (next_rowid (table base "articles")
                        + issued "articles" done)
                       first_paragraph first_subparagraph (∅, ∅, ∅)
                       articles).1.1).
  { intros done fp fs. apply articles_ids_nonzero.
    - pose proof (next_rowid_positive (table base "articles")).
      unfold issued. lia.
    - intros k id Hk. cbn [fst] in Hk. now rewrite lookup_empty in Hk. }
  unfold populate_rows, populate_chapters, populate_sections.
  eapply runs_eq.
  - eapply runs_bind; [apply runs_populate_chapters_loop|].
    eapply runs_bind; [apply runs_populate_sections_loop|].
    eapply runs_bind; [apply runs_for_each_execute|].
    eapply runs_bind; [apply runs_populate_articles|].
    eapply runs_bind;
      [apply runs_for_each; intros d x; apply runs_populate_definition|].
    eapply runs_bind;
      [apply runs_for_each; intros d x;
       apply runs_populate_cross_references, Hnz|].
    eapply runs_bind;
      [apply runs_for_each; intros d x;
       apply runs_populate_time_requirement|].
    eapply runs_bind;
      [apply runs_for_each; intros d x; apply runs_populate_key_actors, Hnz|].
    apply runs_for_each_execute.
  - reflexivity.
  - unfold population. cbv zeta. cbn [app].
    rewrite !issued_app, !issued_nil.
    rewrite !issued_map_other by (intros; reflexivity).
    rewrite !Z.add_0_r, !flat_map_singleton. reflexivity.
Qed.

(** What [populate_database] does to the database file. *)
Lemma populate_database_disk
    (F : Storage) (self : Caches) (recitals : list Recital)
    (articles : list Article) (actors : Dict.t str (list Mention))
    (s : Store) :
  match populate_database self recitals articles actors s with
  | Returned _ s' => disk s' = view_of s'
  | Raised _ s' => disk s' = disk s
  end.
Proof.
  unfold populate_database, mbind, M_bind.
  pose proof (emits_populate_rows self recitals articles actors s) as Hrows.
  destruct (populate_rows self recitals articles actors s) as [[] s1|e s1];
    [|exact Hrows].
  destruct Hrows as (tr & [Hdisk _] & _).
  unfold commit. destruct (conn s1) as [c|] eqn:Hc; [|exact Hdisk].
  reflexivity.
Qed.

(** After a run that returns, the tables hold the payloads of the model
    after those the connection saw before, the two tables apart whose rows
    are inserted for known articles only. *)
Lemma populate_database_payloads
    (F : Storage) (self : Caches) (recitals : list Recital)
    (articles : list Article) (actors : Dict.t str (list Mention))
    (s : Store) :
  match populate_database self recitals articles actors s with
  | Returned _ s' =>
      forall t, guarded t = false ->
        payloads (disk s') t
        = payloads (view_of s) t ++ model_rows self recitals articles t
  | Raised _ s' => True
  end.
Proof.
  unfold populate_database, mbind, M_bind.
  pose proof (emits_populate_rows self recitals articles actors s) as Hrows.
  destruct (populate_rows self recitals articles actors s) as [[] s1|e s1];
    [|exact I].
  destruct Hrows as (tr & [Hdisk Hview] & Htr).
  unfold commit. destruct (conn s1) as [c|] eqn:Hc; [|exact I].
  simpl. intros t Hg. unfold model_rows.
  rewrite <- Htr, rows_in_unguarded by exact Hg.
  rewrite <- Hview. unfold view_of. now rewrite Hc.
Qed.

(** C3 (as amended): [populate_database] either returns, and then all the
    connection saw is committed, and every table holds the rows it held
    before the call followed by the rows of the model for it, numbered from
    the table's next row id and referring to their parents by the ids these
    got (a cross-reference and a mention of an actor are rows of the model
    when the articles they name are stored); or it raises, and then the
    database file is what it was before the call, while the rows inserted
    before the failure, which are the first rows of the model but not all of
    them, stay with the open connection. *)
Theorem populate_database_commits_all_or_nothing
    (F : Storage) (self : Caches) (recitals : list Recital)
    (articles : list Article) (actors : Dict.t str (list Mention))
    (s : Store) :
  let before := view_of s in
  let model :=
    population (fun t => next_rowid (table before t)) self recitals articles
               actors in
  match populate_database self recitals articles actors s with
  | Returned _ s' =>
      disk s' = view_of s' /\
      (forall t, table (disk s') t = table_after before model t) /\
      (forall t, guarded t = false ->
         payloads (disk s') t
         = payloads before t ++ model_rows self recitals articles t)
  | Raised _ s' =>
      disk s' = disk s /\
      exists done rest,
        model = done ++ rest /\ rest <> [] /\
        forall t, table (view_of s') t = table_after before done t
  end.
Proof.
  cbv zeta.
  pose proof (populate_database_disk F self recitals articles actors s)
    as Hdisk.
  pose proof (populate_database_payloads F self recitals articles actors s)
    as Hpay.
  pose proof (runs_populate_rows (view_of s) self recitals articles actors s
                (holds_nil _ s eq_refl)) as Hrows.
  unfold populate_database, mbind, M_bind in *.
  destruct (populate_rows self recitals articles actors s) as [[] s1|e s1].
  - destruct Hrows as [_ [Hview Hconn]]. cbn [app] in Hview, Hconn.
    destruct (Hconn (population_not_empty _ _ _ _ _)) as [c Hc].
    unfold commit in *. rewrite Hc in *. cbn [disk] in *.
    split; [exact Hdisk|]. split; [|exact Hpay].
    intros t. rewrite <- Hview. unfold view_of. now rewrite Hc.
  - split; [exact Hdisk|].
    destruct Hrows as (pre & rest & Hmodel & Hrest & [Hview _]).
    exists pre, rest. split; [exact Hmodel|]. split; [exact Hrest|].
    exact Hview.
Qed.

(** A run that raises: the time requirement names an article that is not
    stored, and its row violates NOT NULL after the article was inserted.
    The store is not what it was before the call: the connection, which is
    not rolled back, now finds article 5, and nothing of it is in the
    database file. *)
Lemma populate_database_failure_changes_store :
  exists e s',
    @populate_database reliable_storage stray_caches [] [sample_article] []
      (init_database empty_store).1 = Raised e s' /\
    s' <> (init_database empty_store).1 /\
    (get_article_by_number (lit "5") (init_database empty_store).1).1 = None /\
    (get_article_by_number (lit "5") s').1 <> None /\
    table (disk s') "articles" = [].
Proof.
  destruct (@populate_database reliable_storage stray_caches [] [sample_article]
              [] (init_database empty_store).1) as [[] s'|e s'] eqn:Hrun;
    [vm_compute in Hrun; discriminate Hrun|].
  exists e, s'. split; [reflexivity|].
  assert (Hfound : (get_article_by_number (lit "5") s').1 <> None).
  { intros Hnone.
    apply (f_equal (fun o => match o with
                             | Raised _ s => (get_article_by_number (lit "5") s).1
                             | Returned _ _ => None
                             end)) in Hrun.
    cbv beta iota in Hrun. rewrite Hnone in Hrun.
    vm_compute in Hrun. discriminate Hrun. }
  assert (Hbefore : (get_article_by_number (lit "5")
                       (init_database empty_store).1).1 = None)
    by (vm_compute; reflexivity).
  split; [|split; [exact Hbefore|split; [exact Hfound|]]].
  - intros ->. now apply Hfound.
  - apply (f_equal (fun o => match o with
                             | Raised _ s => table (disk s) "articles"
                             | Returned _ _ => []
                             end)) in Hrun.
    cbv beta iota in Hrun. rewrite <- Hrun. vm_compute. reflexivity.
Qed.

(** A run that returns: the article and its paragraph are on disk, the
    paragraph under the id of the article. *)
Example populate_database_returns :
  match @populate_database reliable_storage no_caches [] [sample_article] []
          (init_database empty_store).1 with
  | Returned _ s' =>
      List.map rowid (table (disk s') "articles") = [1] /\
      List.map (fun r => (col r "article_id", col r "number"))
               (table (disk s') "paragraphs")
        = [(Int 1, Text (lit "1"))] /\
      length (table (disk s') "privacy_policy_sections") = 11%nat
  | Raised _ _ => False
  end.
Proof. vm_compute. repeat split. Qed.

(** A run that raises: the file is untouched, and the rows inserted so far
    stay pending on the connection. *)
Example populate_database_raises :
  match @populate_database reliable_storage stray_caches [] [sample_article] []
          (init_database empty_store).1 with
  | Returned _ _ => False
  | Raised e s' =>
      e = IntegrityError /\
      table (disk s') "articles" = [] /\
      List.map rowid (table (view_of s') "articles") = [1]
  end.
Proof. vm_compute. repeat split. Qed.

(** The cross-reference to a stored article is a row, from the id of its
    source to the id of its target; the reference to an unknown article is
    none.  The requirement of article 3 is under the id of that article and
    of its paragraph 1. *)
Example populate_database_resolves_references :
  match @populate_database reliable_storage referring_caches []
          [sample_article; long_article] [] (init_database empty_store).1 with
  | Returned _ s' =>
      List.map (fun r => (col r "id", col r "from_article_id",
                          col r "to_article_id", col r "to_paragraph"))
               (table (disk s') "cross_references")
        = [(Int 1, Int 1, Int 2, Text (lit "2"))] /\
      List.map (fun r => (col r "article_id", col r "paragraph_id",
                          col r "subparagraph_id"))
               (table (disk s') "requirements")
        = [(Int 2, Int 2, Null)]
  | Raised _ _ => False
  end.
Proof. vm_compute. repeat split. Qed.

(** ** String and value order *)

Lemma compare_refl a : Py.compare a a = Eq.
Proof. induction a as [|x a IH]; simpl; [easy|]. now rewrite N.compare_refl. Qed.

Lemma compare_antisym a b : Py.compare b a = CompOpp (Py.compare a b).
Proof.
  revert b. induction a as [|x a IH]; intros [|y b]; simpl; try easy.
  rewrite (N.compare_antisym x y).
  destruct (x ?= y)%N; simpl; auto.
Qed.

Lemma compare_eq a b : Py.compare a b = Eq -> a = b.
Proof.
  revert b. induction a as [|x a IH]; intros [|y b]; simpl; try easy.
  destruct (x ?= y)%N eqn:E; try easy.
  apply N.compare_eq in E. intros H. f_equal; auto.
Qed.

Lemma compare_lt_trans a b c :
  Py.compare a b = Lt -> Py.compare b c = Lt -> Py.compare a c = Lt.
Proof.
  revert b c. induction a as [|x a IH]; intros [|y b] [|z c]; simpl; try easy.
  destruct (x ?= y)%N eqn:E1; try easy; destruct (y ?= z)%N eqn:E2; try easy.
  - apply N.compare_eq in E1, E2. subst. rewrite N.compare_refl. apply IH.
  - apply N.compare_eq in E1. subst. now rewrite E2.
  - apply N.compare_eq in E2. subst. now rewrite E1.
  - intros _ _. rewrite N.compare_lt_iff in *.
    assert (Hlt : (x ?= z)%N = Lt) by (apply N.compare_lt_iff; lia).
    now rewrite Hlt.
Qed.

Lemma leb_refl a : Py.leb a a = true.
Proof. unfold Py.leb. now rewrite compare_refl. Qed.

Lemma leb_total a b : Py.leb a b = false -> Py.leb b a = true.
Proof.
  unfold Py.leb. rewrite (compare_antisym a b).
  destruct (Py.compare a b); simpl; easy.
Qed.

Lemma leb_trans a b c :
  Py.leb a b = true -> Py.leb b c = true -> Py.leb a c = true.
Proof.
  unfold Py.leb.
  destruct (Py.compare a b) eqn:E1; try easy;
    destruct (Py.compare b c) eqn:E2; try easy; intros _ _.
  - apply compare_eq in E1, E2. subst. now rewrite compare_refl.
  - apply compare_eq in E1. subst. now rewrite E2.
  - apply compare_eq in E2. subst. now rewrite E1.
  - now rewrite (compare_lt_trans _ _ _ E1 E2).
Qed.

(** [Py.leb] decides the lexicographic order. *)
Lemma leb_lex a b : Py.leb a b = true <-> lex_le a b.
Proof.
  unfold Py.leb, lex_le. revert b.
  induction a as [|x a IH]; intros [|y b]; simpl.
  - split; [left; now exists []|easy].
  - split; [left; now exists (y :: b)|easy].
  - split; [easy|]. intros [[t Ht]|(p & x' & y' & a' & b' & _ & Hb & _)].
    + discriminate Ht.
    + destruct p; discriminate Hb.
  - destruct (N.compare_spec x y) as [->|Hlt|Hgt].
    + rewrite IH. split.
      * intros [[t ->]|(p & x' & y' & a' & b' & -> & -> & Hxy)].
        -- left. now exists t.
        -- right. now exists (y :: p), x', y', a', b'.
      * intros [[t Ht]|(p & x' & y' & a' & b' & Ha & Hb & Hxy)].
        -- injection Ht as ->. left. now exists t.
        -- destruct p as [|q p]; simpl in *.
           ++ injection Ha as <- <-. injection Hb as <- <-. lia.
           ++ injection Ha as <- ->. injection Hb as ->.
              right. now exists p, x', y', a', b'.
    + split; [|easy]. intros _. right. now exists [], x, y, a, b.
    + split; [easy|].
      intros [[t Ht]|(p & x' & y' & a' & b' & Ha & Hb & Hxy)].
      * injection Ht as -> _. lia.
      * destruct p as [|q p]; simpl in *.
        -- injection Ha as <- <-. injection Hb as <- <-. lia.
        -- injection Ha as <- ->. injection Hb as <- _. lia.
Qed.

Lemma value_leb_refl v : value_leb v v = true.
Proof. destruct v; simpl; [easy|lia|apply leb_refl]. Qed.

Lemma value_leb_total a b : value_leb a b = false -> value_leb b a = true.
Proof.
  destruct a, b; simpl; try easy; [lia|apply leb_total].
Qed.

Lemma value_leb_trans a b c :
  value_leb a b = true -> value_leb b c = true -> value_leb a c = true.
Proof.
  destruct a, b, c; simpl; try easy; [lia|apply leb_trans].
Qed.

Lemma sql_eq_eq a b : sql_eq a b = true -> a = b.
Proof.
  destruct a, b; simpl; try easy.
  - intros E. apply Z.eqb_eq in E. congruence.
  - intros E. apply bool_decide_eq_true in E. congruence.
Qed.

(** ** [ORDER BY]: sorted, a permutation, and stable *)

Section OrderBy.
Variable key : Row -> Value.

Local Abbreviation le := (key_le key).

Lemma insert_sorted_perm r l : Permutation (insert_sorted key r l) (r :: l).
Proof.
  induction l as [|r' l IH]; simpl; [reflexivity|].
  destruct (value_leb (key r) (key r')); [reflexivity|].
  rewrite IH. apply perm_swap.
Qed.

Lemma insert_sorted_sorted r l :
  StronglySorted le l -> StronglySorted le (insert_sorted key r l).
Proof.
  induction 1 as [|r' l Hs IH Hall]; simpl.
  - repeat constructor.
  - destruct (value_leb (key r) (key r')) eqn:E.
    + constructor; [now constructor|].
      constructor; [exact E|].
      eapply List.Forall_impl; [|exact Hall].
      intros x Hx. unfold le in *. eapply value_leb_trans; eassumption.
    + constructor; [exact IH|].
      apply (Permutation_Forall (Permutation_sym (insert_sorted_perm r l))).
      constructor; [|exact Hall].
      unfold le. now apply value_leb_total.
Qed.

Lemma insert_sorted_filter v r l :
  List.filter (fun x => sql_eq (key x) v) (insert_sorted key r l)
  = List.filter (fun x => sql_eq (key x) v) (r :: l).
Proof.
  induction l as [|r' l IH]; [reflexivity|]. simpl insert_sorted.
  destruct (value_leb (key r) (key r')) eqn:E; [reflexivity|].
  cbn [List.filter] in *. rewrite IH.
  destruct (sql_eq (key r) v) eqn:E1; [|reflexivity].
  destruct (sql_eq (key r') v) eqn:E2; [|reflexivity].
  apply sql_eq_eq in E1, E2. rewrite E1, E2, value_leb_refl in E.
  discriminate E.
Qed.
End OrderBy.

Lemma order_by_perm c rows : Permutation (order_by c rows) rows.
Proof.
  unfold order_by. induction rows as [|r rows IH]; simpl; [reflexivity|].
  rewrite insert_sorted_perm. now constructor.
Qed.

Lemma order_by_sorted c rows :
  StronglySorted (fun r r' => value_leb (col r c) (col r' c) = true)
                 (order_by c rows).
Proof.
  unfold order_by. induction rows as [|r rows IH]; simpl; [constructor|].
  now apply insert_sorted_sorted.
Qed.

(** Rows with the same key keep their order: selecting by key commutes with
    sorting by it. *)
Lemma order_by_stable c v rows :
  where_eq c v (order_by c rows) = where_eq c v rows.
Proof.
  unfold where_eq, order_by. induction rows as [|r rows IH]; [reflexivity|].
  simpl fold_right. rewrite insert_sorted_filter. simpl. now rewrite IH.
Qed.

(** ** [get_article_by_number]: the order of the tree *)

Lemma order_by_sorted_by c rows : sorted_by c rows (order_by c rows).
Proof. split; [apply order_by_perm|apply order_by_sorted]. Qed.

Lemma Forall2_map_shows {A B} (R : B -> A -> Prop) (f : A -> B) l :
  (forall x, In x l -> R (f x) x) -> Forall2 R (List.map f l) l.
Proof.
  induction l as [|x l IH]; intros H; simpl; constructor.
  - apply H. now left.
  - apply IH. intros y Hy. apply H. now right.
Qed.

Lemma get_subsubparagraphs_shows db id :
  exists rows,
    sorted_by "number"
      (where_eq "subparagraph_id" id (table db "subsubparagraphs")) rows /\
    Forall2 shows_subsubparagraph (get_subsubparagraphs db id) rows.
Proof.
  eexists. split; [apply order_by_sorted_by|].
  apply Forall2_map_shows. intros r _. reflexivity.
Qed.

Lemma get_subparagraphs_shows db id :
  exists rows,
    sorted_by "letter"
      (where_eq "paragraph_id" id (table db "subparagraphs")) rows /\
    Forall2 (shows_subparagraph db) (get_subparagraphs db id) rows.
Proof.
  eexists. split; [apply order_by_sorted_by|].
  apply Forall2_map_shows. intros r _.
  destruct (get_subsubparagraphs_shows db (Int (rowid r)))
    as (rows & Hsorted & Hshows).
  exists (get_subsubparagraphs db (col r "id")), rows.
  split; [reflexivity|]. split; [exact Hsorted|exact Hshows].
Qed.

Lemma get_paragraphs_shows db id :
  exists rows,
    sorted_by "number"
      (where_eq "article_id" id (table db "paragraphs")) rows /\
    Forall2 (shows_paragraph db) (get_paragraphs db id) rows.
Proof.
  eexists. split; [apply order_by_sorted_by|].
  apply Forall2_map_shows. intros r _.
  destruct (get_subparagraphs_shows db (Int (rowid r)))
    as (rows & Hsorted & Hshows).
  exists (get_subparagraphs db (col r "id")), rows.
  split; [reflexivity|]. split; [exact Hsorted|exact Hshows].
Qed.

Lemma joined_target db cr :
  match joined db "articles" (col cr "to_article_id") with
  | Some target =>
      has_target db cr = true /\ In target (table db "articles") /\
      col cr "to_article_id" = Int (rowid target)
  | None => has_target db cr = false
  end.
Proof.
  unfold joined, has_target.
  induction (table db "articles") as [|a l IH]; [reflexivity|].
  cbn [List.find existsb].
  destruct (sql_eq (col cr "to_article_id") (Int (rowid a))) eqn:E.
  - split; [reflexivity|]. split; [now left|]. now apply sql_eq_eq.
  - cbn [orb]. destruct (List.find _ l) as [target|].
    + destruct IH as (H1 & H2 & H3). split; [exact H1|]. split; [now right|].
      exact H3.
    + exact IH.
Qed.

Lemma get_cross_references_shows db id :
  Forall2 (shows_reference db) (get_cross_references db id)
    (List.filter (has_target db)
       (where_eq "from_article_id" id (table db "cross_references"))).
Proof.
  unfold get_cross_references.
  induction (where_eq "from_article_id" id (table db "cross_references"))
    as [|cr l IH]; [constructor|].
  cbn [flat_map List.filter].
  pose proof (joined_target db cr) as Hj.
  destruct (joined db "articles" (col cr "to_article_id")) as [target|].
  - destruct Hj as (-> & Hin & Hto). constructor; [|exact IH].
    exists target. now repeat split.
  - rewrite Hj. exact IH.
Qed.

(** C4: for a known article number, [get_article_by_number] returns the
    first article row with that number.  Its paragraphs are the paragraph
    rows of that article, each shown with the id, the number and the text
    stored in its row, in the SQL order of the stored numbers, which on text
    is the lexicographic order of the strings ("10" comes before "2"); each
    paragraph carries its subparagraph rows sorted by their stored letter,
    and each subparagraph its sub-subparagraph rows sorted by their stored
    number.  With them come the requirement rows and the entity rows of the
    article, in the order of their ids, and its outgoing cross-references:
    the cross-reference rows from the article whose target exists, each with
    the number of its target. *)
Theorem get_article_ordered_lexicographically
    (db : DB) (article_number : str) :
  In (Text article_number)
     (List.map (fun a => col a "number") (table db "articles")) ->
  exists art a rest paragraphs paragraph_rows requirements entities references,
    get_article db article_number = Some art /\
    where_eq "number" (Text article_number) (table db "articles") = a :: rest /\
    field art "id" = OValue (Int (rowid a)) /\
    field art "number" = OValue (Text article_number) /\
    field art "paragraphs" = OList paragraphs /\
    sorted_by "number"
      (where_eq "article_id" (Int (rowid a)) (table db "paragraphs"))
      paragraph_rows /\
    Forall2 (shows_paragraph db) paragraphs paragraph_rows /\
    field art "requirements" = OList requirements /\
    Forall2 shows_requirement requirements
      (where_eq "article_id" (Int (rowid a)) (table db "requirements")) /\
    field art "entities" = OList entities /\
    Forall2 shows_entity entities
      (where_eq "article_id" (Int (rowid a)) (table db "entities")) /\
    field art "cross_references" = OList references /\
    Forall2 (shows_reference db) references
      (List.filter (has_target db)
         (where_eq "from_article_id" (Int (rowid a))
                   (table db "cross_references"))) /\
    (forall x y, value_leb (Text x) (Text y) = true <-> lex_le x y) /\
    value_leb (Text (lit "10")) (Text (lit "2")) = true /\
    value_leb (Text (lit "2")) (Text (lit "10")) = false.
Proof.
  intros Hknown. apply List.in_map_iff in Hknown as (a0 & Hnum & Hin).
  assert (Hsel : In a0 (where_eq "number" (Text article_number)
                                 (table db "articles"))).
  { apply List.filter_In. split; [exact Hin|]. rewrite Hnum. simpl.
    now apply bool_decide_eq_true. }
  unfold get_article.
  destruct (where_eq "number" (Text article_number) (table db "articles"))
    as [|a rest] eqn:Ew; [destruct Hsel|].
  assert (Ha : In a (where_eq "number" (Text article_number)
                              (table db "articles")))
    by (rewrite Ew; now left).
  apply List.filter_In in Ha as [_ Ha]. apply sql_eq_eq in Ha.
  destruct (get_paragraphs_shows db (Int (rowid a)))
    as (paragraph_rows & Hsorted & Hshows).
  exists (ODict
    [("id", OValue (col a "id"));
     ("number", OValue (col a "number"));
     ("title", OValue (col a "title"));
     ("content", OValue (col a "content"));
     ("chapter",
      heading_obj (joined_col (joined db "chapters" (col a "chapter_id")) "number")
                  (joined_col (joined db "chapters" (col a "chapter_id")) "title"));
     ("section",
      heading_obj (joined_col (joined db "sections" (col a "section_id")) "number")
                  (joined_col (joined db "sections" (col a "section_id")) "title"));
     ("paragraphs", OList (get_paragraphs db (col a "id")));
     ("requirements", OList (get_requirements db (col a "id")));
     ("entities", OList (get_entities db (col a "id")));
     ("cross_references",
      OList (get_cross_references db (col a "id")))]%string),
    a, rest, (get_paragraphs db (Int (rowid a))), paragraph_rows,
    (get_requirements db (Int (rowid a))), (get_entities db (Int (rowid a))),
    (get_cross_references db (Int (rowid a))).
  split; [reflexivity|]. split; [reflexivity|]. split; [reflexivity|].
  split; [change (OValue (col a "number") = OValue (Text article_number));
          now rewrite Ha|].
  split; [reflexivity|]. split; [exact Hsorted|]. split; [exact Hshows|].
  split; [reflexivity|].
  split; [apply Forall2_map_shows; intros r _; reflexivity|].
  split; [reflexivity|].
  split; [apply Forall2_map_shows; intros r _; reflexivity|].
  split; [reflexivity|]. split; [apply get_cross_references_shows|].
  split; [apply leb_lex|]. split; reflexivity.
Qed.

Lemma get_article_ordered_lexicographically_witness :
  exists art a paragraphs paragraph_rows,
    get_article (populated [long_article]) (lit "3") = Some art /\
    field art "paragraphs" = OList paragraphs /\
    sorted_by "number"
      (where_eq "article_id" (Int (rowid a))
                (table (populated [long_article]) "paragraphs"))
      paragraph_rows /\
    Forall2 (shows_paragraph (populated [long_article]))
            paragraphs paragraph_rows.
Proof.
  assert (Hknown : In (Text (lit "3"))
            (List.map (fun a => col a "number")
                      (table (populated [long_article]) "articles"))).
  { vm_compute. left. reflexivity. }
  destruct (get_article_ordered_lexicographically
              (populated [long_article]) (lit "3") Hknown)
    as (art & a & rest & paragraphs & paragraph_rows & requirements & entities
        & references & Hget & _ & _ & _ & Hpar & Hsorted & Hshows & _).
  exists art, a, paragraphs, paragraph_rows.
  exact (conj Hget (conj Hpar (conj Hsorted Hshows))).
Defined.

(** Paragraph "10" comes before paragraph "2", subparagraph "a" before "b",
    and sub-subparagraph "ix" before "v". *)
Example get_article_order_example :
  match get_article (populated [long_article]) (lit "3") with
  | Some art =>
      List.map (fun p => field p "number") (items (field art "paragraphs"))
      = [OValue (Text (lit "1")); OValue (Text (lit "10"));
         OValue (Text (lit "2"))] /\
      List.map
        (fun p => List.map (fun sp => (field sp "letter",
                                       List.map (fun s => field s "number")
                                                (items (field sp "subsubparagraphs"))))
                           (items (field p "subparagraphs")))
        (items (field art "paragraphs"))
      = [[]; []; [(OValue (Text (lit "a")), []);
                  (OValue (Text (lit "b")),
                   [OValue (Text (lit "ix")); OValue (Text (lit "v"))])]]
  | None => False
  end.
Proof. vm_compute. split; reflexivity. Qed.

(** ** [export_to_json] against [get_article_by_number] *)

Lemma export_subsubparagraphs_get db id :
  List.map without_ids (get_subsubparagraphs db id)
  = export_subsubparagraphs db id.
Proof.
  unfold get_subsubparagraphs, export_subsubparagraphs.
  rewrite List.map_map. reflexivity.
Qed.

Lemma export_subparagraphs_get db id :
  List.map without_ids (get_subparagraphs db id) = export_subparagraphs db id.
Proof.
  unfold get_subparagraphs, export_subparagraphs. rewrite List.map_map.
  apply List.map_ext. intros r.
  rewrite <- export_subsubparagraphs_get. reflexivity.
Qed.

Lemma export_paragraphs_get db id :
  List.map without_ids (get_paragraphs db id) = export_paragraphs db id.
Proof.
  unfold get_paragraphs, export_paragraphs. rewrite List.map_map.
  apply List.map_ext. intros r.
  rewrite <- export_subparagraphs_get. reflexivity.
Qed.

Lemma export_requirements_get db id :
  List.map without_ids (get_requirements db id) = export_requirements db id.
Proof.
  unfold get_requirements, export_requirements. rewrite List.map_map.
  reflexivity.
Qed.

Lemma has_number_export db n a :
  has_number n (export_article db a) = sql_eq (col a "number") (Text n).
Proof.
  unfold has_number.
  change (field (export_article db a) "number") with (OValue (col a "number")).
  destruct (col a "number"); reflexivity.
Qed.

(** The export entries for number [n] are those of the article rows with
    that number, in rowid order. *)
Lemma export_articles_numbered db n :
  List.filter (has_number n) (export_articles db)
  = List.map (export_article db)
             (where_eq "number" (Text n) (table db "articles")).
Proof.
  unfold export_articles.
  rewrite <- (order_by_stable "number" (Text n) (table db "articles")).
  unfold where_eq.
  induction (order_by "number" (table db "articles")) as [|a l IH];
    [reflexivity|].
  simpl. rewrite has_number_export.
  destruct (sql_eq (col a "number") (Text n)); simpl; now rewrite IH.
Qed.

(** C2: when [get_article_by_number] finds article [n], the export holds
    an entry for [n], and the first one has the same paragraphs, with the
    same subparagraphs and sub-subparagraphs, numbers, letters and texts in
    the same order, as the tree returned for [n] (which also carries row
    ids); the requirements agree likewise.  When the number is that of one
    article row only, this is the only export entry for [n]. *)
Theorem export_subtree_matches_get_article (db : DB) (n : str) (art : Obj) :
  get_article db n = Some art ->
  exists e others,
    List.filter (has_number n) (export_articles db) = e :: others /\
    field e "paragraphs" = without_ids (field art "paragraphs") /\
    field e "requirements" = without_ids (field art "requirements") /\
    field e "number" = field art "number" /\
    field e "title" = field art "title" /\
    field e "content" = field art "content" /\
    field e "chapter" = field art "chapter" /\
    field e "section" = field art "section" /\
    (length (where_eq "number" (Text n) (table db "articles")) = 1%nat ->
     others = []).
Proof.
  unfold get_article. rewrite export_articles_numbered.
  destruct (where_eq "number" (Text n) (table db "articles")) as [|a rest];
    [discriminate|].
  intros [= <-].
  exists (export_article db a), (List.map (export_article db) rest).
  split; [reflexivity|].
  change (field (export_article db a) "paragraphs")
    with (OList (export_paragraphs db (col a "id"))).
  change (field (export_article db a) "requirements")
    with (OList (export_requirements db (col a "id"))).
  rewrite <- export_paragraphs_get, <- export_requirements_get.
  repeat split.
  intros Hone. destruct rest; [reflexivity|discriminate Hone].
Qed.

Lemma export_subtree_matches_get_article_witness :
  exists art e,
    get_article (populated [long_article]) (lit "3") = Some art /\
    List.filter (has_number (lit "3")) (export_articles (populated [long_article]))
      = [e] /\
    field e "paragraphs" = without_ids (field art "paragraphs").
Proof.
  destruct (get_article (populated [long_article]) (lit "3")) as [art|] eqn:Hget;
    [|vm_compute in Hget; discriminate Hget].
  destruct (export_subtree_matches_get_article _ _ _ Hget)
    as (e & others & Hfilter & Hpar & _ & _ & _ & _ & _ & _ & Hone).
  exists art, e. split; [reflexivity|]. split; [|exact Hpar].
  rewrite Hfilter, Hone; [reflexivity|]. vm_compute. reflexivity.
Defined.

(** ** [search_by_keyword]: the snippet *)

(** C8: a paragraph whose text holds the keyword "data" after 60 capital I
    with dot above.  The keyword is at offset 60 of the text; the offset
    that [search_by_keyword] computes is that in the lowercased text, 120,
    and the window it cuts from the text itself, from offset 70 to 164,
    lies behind the keyword: the snippet is "..." and 94 x, without the
    keyword. *)
Theorem snippet_window_misses_keyword :
  find dotted_text (lit "data") = 60 /\
  find (dotted_lower dotted_text) (dotted_lower (lit "data")) = 120 /\
  @make_snippet dotted_lower dotted_text (lit "data")
  = dotted_snippet /\
  contains (lit "data") (@make_snippet dotted_lower dotted_text (lit "data"))
  = false /\
  @search (populated [dotted_article]) dotted_lower (lit "data")
  = Some [ODict [("article", OValue (Text (lit "4")));
                 ("title", OValue (Text (lit "Definitions")));
                 ("matches",
                  OList [ODict [("paragraph", OValue (Text (lit "1")));
                                ("snippet", OValue (Text dotted_snippet))
                               ]%string])]%string].
Proof. repeat split; vm_compute; reflexivity. Qed.

(** ** The pipeline: a failed run returns [False] *)

Lemma create_tables_table db t : table (create_tables db) t = table db t.
Proof.
  unfold create_tables. revert db.
  induction schema as [|[name cols] rest IH]; intros db; [reflexivity|].
  cbn [fold_left]. rewrite IH.
  destruct (db !! name) eqn:E; [reflexivity|].
  rewrite table_insert. destruct (decide (t = name)) as [->|]; [|reflexivity].
  unfold table. now rewrite E.
Qed.

(** C9 (as amended): [parse_and_load] never raises.  It returns [True] after
    [populate_database] returned, and then the database file holds all the
    connection saw; or it returns [False] after the failure of a stage was
    caught, and then every table of the database file holds the rows it held
    before the run. *)
Theorem parse_and_load_returns_flag
    (L : Lower) (E : Engine) (N : NLP) (F : Storage) (D : Pdf)
    (self : Parser) :
  exists flag self',
    parse_and_load self = Returned flag self' /\
    if flag
    then disk (store self') = view_of (store self')
    else forall t, table (disk (store self')) t = table (disk (store self)) t.
Proof.
  unfold parse_and_load, parse_and_load_body.
  destruct page_texts as [pages|].
  - destruct (extract_table_of_contents _ _ _) as [toc_chapters toc_sections].
    destruct (decompose_and_classify _ _) as [articles trs].
    cbn [init_database].
    match goal with
    | |- context [populate_database ?c ?r ?a ?k ?s] =>
        pose proof (populate_database_disk F c r a k s) as Hpop;
        destruct (populate_database c r a k s) as [[] s'|e s']
    end.
    + eexists true, _. split; [reflexivity|]. simpl. apply Hpop.
    + eexists false, _. split; [reflexivity|]. simpl. intros t.
      rewrite Hpop. simpl. apply create_tables_table.
  - eexists false, _. split; reflexivity.
Qed.

(** The storage fails while the run populates the store: the run does not
    raise, it returns [False]; nothing was committed. *)
Lemma parse_and_load_fails_without_raising :
  exists self',
    @parse_and_load ascii_lower (scripted_engine []) full_stop_nlp
      (failing_storage "privacy_policy_sections") blank_pdf new_parser
    = Returned false self' /\
    table (disk (store self')) "privacy_policy_sections" = [] /\
    (forall e s,
       @parse_and_load ascii_lower (scripted_engine []) full_stop_nlp
         (failing_storage "privacy_policy_sections") blank_pdf new_parser
       <> Raised e s).
Proof.
  eexists. split; [vm_compute; reflexivity|].
  split; [vm_compute; reflexivity|]. intros e s. vm_compute. discriminate.
Qed.

(** The document cannot be read: again the run returns [False]. *)
Example parse_and_load_unreadable_document :
  @parse_and_load ascii_lower (scripted_engine []) full_stop_nlp
    reliable_storage unreadable_pdf new_parser
  = Returned false new_parser.
Proof. reflexivity. Qed.

(** A run on a readable document with a reliable storage returns [True]. *)
Example parse_and_load_succeeds :
  exists self',
    @parse_and_load ascii_lower (scripted_engine []) full_stop_nlp
      reliable_storage blank_pdf new_parser
    = Returned true self' /\
    length (table (disk (store self')) "privacy_policy_sections") = 11%nat.
Proof. eexists. split; vm_compute; reflexivity. Qed.

(** ** Statements issued by [populate_database] and invariants they keep *)

Lemma populate_database_wrote
    (F : Storage) (self : Caches) (recitals : list Recital)
    (articles : list Article) (actors : Dict.t str (list Mention))
    (s : Store) :
  match populate_database self recitals articles actors s with
  | Returned _ s' =>
      disk s' = view_of s' /\
      exists tr,
        (forall t, payloads (view_of s') t
                   = payloads (view_of s) t ++ rows_in tr t) /\
        List.filter (fun e => negb (guarded (fst e))) tr
        = model_entries self recitals articles
  | Raised _ s' => disk s' = disk s
  end.
Proof.
  unfold populate_database, mbind, M_bind.
  pose proof (emits_populate_rows self recitals articles actors s) as Hrows.
  destruct (populate_rows self recitals articles actors s) as [[] s1|e s1];
    [|exact Hrows].
  destruct Hrows as (tr & [Hdisk Hview] & Htr).
  unfold commit. destruct (conn s1) as [c|] eqn:Hc; [|exact Hdisk].
  simpl. split; [reflexivity|]. exists tr. split; [|exact Htr].
  intros t. rewrite <- Hview. unfold view_of. now rewrite Hc.
Qed.

Section Issues.
Context `{Storage}.

Lemma preserves_ret {A} I (a : A) : preserves I (mret a).
Proof. intros s Hs. exact Hs. Qed.

Lemma preserves_bind {A B} I (m : M A) (f : A -> M B) :
  preserves I m -> (forall a, preserves I (f a)) -> preserves I (m ≫= f).
Proof.
  intros Hm Hf s Hs. unfold mbind, M_bind. specialize (Hm s Hs).
  destruct (m s) as [a s1|e s1]; [|exact Hm]. exact (Hf a s1 Hm).
Qed.

Lemma preserves_lastrowid I : preserves I cursor_lastrowid.
Proof.
  intros s Hs. unfold cursor_lastrowid. destruct (conn s); exact Hs.
Qed.

Lemma issues_ret {A} P (a : A) : issues P (mret a).
Proof. intros I _. apply preserves_ret. Qed.

Lemma issues_bind {A B} P (m : M A) (f : A -> M B) :
  issues P m -> (forall a, issues P (f a)) -> issues P (m ≫= f).
Proof.
  intros Hm Hf I HI. apply preserves_bind; [now apply Hm|].
  intros a. now apply Hf.
Qed.

Lemma issues_lastrowid P : issues P cursor_lastrowid.
Proof. intros I _. apply preserves_lastrowid. Qed.

Lemma issues_execute (P : Insert -> Prop) stmt : P stmt -> issues P (execute stmt).
Proof. intros HP I HI. now apply HI. Qed.

Lemma issues_foldM {A B} P (body : B -> A -> M B) l :
  (forall acc x, In x l -> issues P (body acc x)) ->
  forall acc, issues P (foldM body l acc).
Proof.
  induction l as [|x l IH]; intros Hbody acc; simpl.
  - apply issues_ret.
  - apply issues_bind; [apply Hbody; now left|].
    intros acc'. apply IH. intros a y Hy. apply Hbody. now right.
Qed.

Lemma issues_for_each {A} P (body : A -> M unit) l :
  (forall x, In x l -> issues P (body x)) -> issues P (for_each l body).
Proof. intros Hbody. apply issues_foldM. intros _ x. apply Hbody. Qed.

Lemma nonempty_In {A} (x : A) l : In x l -> nonempty l = true.
Proof. destruct l; [intros []|reflexivity]. Qed.

(** Splits a block into its statements; each INSERT is left as a goal
    about its table. *)
Ltac issues_block :=
  repeat first
    [ apply issues_ret
    | apply issues_lastrowid
    | apply issues_bind; [|intros ?]
    | apply issues_execute ].

Lemma issues_populate_rows self recitals articles actors :
  issues (fun stmt => may_write self recitals articles actors (into stmt)
                      = true)
         (populate_rows self recitals articles actors).
Proof.
  unfold populate_rows, populate_chapters, populate_sections.
  apply issues_bind.
  { apply issues_foldM. intros acc c Hc. issues_block.
    exact (nonempty_In _ _ Hc). }
  intros chapter_id_map. apply issues_bind.
  { apply issues_foldM. intros acc x Hx. issues_block.
    exact (nonempty_In _ _ Hx). }
  intros section_id_map. apply issues_bind.
  { apply issues_for_each. intros r Hr. apply issues_execute.
    exact (nonempty_In _ _ Hr). }
  intros _. apply issues_bind.
  { apply issues_foldM. intros [[am pm] sm] a Ha.
    pose proof (nonempty_In _ _ Ha) as Hne.
    unfold populate_article.
    apply issues_bind; [apply issues_execute; exact Hne|intros _].
    apply issues_bind; [apply issues_lastrowid|intros article_id].
    apply issues_bind.
    { apply issues_foldM. intros [pm' sm'] p _. unfold populate_paragraph.
      apply issues_bind; [apply issues_execute; exact Hne|intros _].
      apply issues_bind; [apply issues_lastrowid|intros paragraph_id].
      apply issues_bind; [|intros ?; apply issues_ret].
      apply issues_foldM. intros sm'' sp _. unfold populate_subparagraph.
      apply issues_bind; [apply issues_execute; exact Hne|intros _].
      apply issues_bind; [apply issues_lastrowid|intros subparagraph_id].
      apply issues_bind; [|intros ?; apply issues_ret].
      apply issues_for_each. intros ssp _. apply issues_execute. exact Hne. }
    intros [pm' sm'].
    apply issues_bind.
    { apply issues_for_each. intros r _. unfold populate_requirement.
      cbv zeta. apply issues_execute. exact Hne. }
    intros _. apply issues_bind; [|intros ?; apply issues_ret].
    apply issues_for_each. intros e _. apply issues_execute. exact Hne. }
  intros [[am pm] sm]. apply issues_bind.
  { apply issues_for_each. intros [term d] Hd. apply issues_execute.
    exact (nonempty_In _ _ Hd). }
  intros _. apply issues_bind.
  { apply issues_for_each. intros [from refs] Hx.
    unfold populate_cross_references.
    destruct (truthy_id _); [|apply issues_ret].
    apply issues_for_each. intros r _.
    destruct (truthy_id _); [|apply issues_ret].
    apply issues_execute. exact (nonempty_In _ _ Hx). }
  intros _. apply issues_bind.
  { apply issues_for_each. intros t Ht. apply issues_execute.
    exact (nonempty_In _ _ Ht). }
  intros _. apply issues_bind.
  { apply issues_for_each. intros [actor mentions] Hx.
    unfold populate_key_actors. apply issues_for_each. intros m _.
    destruct (truthy_id _); [|apply issues_ret].
    apply issues_execute. exact (nonempty_In _ _ Hx). }
  intros _. apply issues_for_each. intros [[[? ?] ?] ?] _.
  apply issues_execute. reflexivity.
Qed.

End Issues.

(** ** Invariants kept by [populate_database] *)

Section StoreInvariants.
Context `{Storage}.

Lemma view_after_execute stmt s s' :
  execute stmt s = Returned tt s' ->
  exists c cols rows,
    conn s = Some c /\ Dict.get schema (into stmt) = Some cols /\
    view c !! into stmt = Some rows /\
    forallb (satisfies (view c) (cells_of cols stmt)) cols = true /\
    view_of s' = <[into stmt := rows ++ [{| rowid := next_rowid rows;
                                            cells := cells_of cols stmt |}]]>
                 (view c).
Proof.
  unfold execute. destruct (conn s) as [c|] eqn:Hc; [|discriminate].
  destruct (Dict.get schema (into stmt)) as [cols|]; [|discriminate].
  destruct (view c !! into stmt) as [rows|] eqn:Hr; [|discriminate].
  destruct (storage_fails stmt (view c)); [discriminate|].
  destruct (forallb _ cols) eqn:Hsat; [|discriminate].
  intros [= <-]. exists c, cols, rows. repeat split; auto.
Qed.

Lemma execute_raises_unchanged stmt s e s' :
  execute stmt s = Raised e s' -> s' = s.
Proof.
  unfold execute. destruct (conn s) as [c|]; [|now intros [= _ <-]].
  destruct (Dict.get schema (into stmt)) as [cols|]; [|now intros [= _ <-]].
  destruct (view c !! into stmt) as [rows|]; [|now intros [= _ <-]].
  destruct (storage_fails stmt (view c)); [now intros [= _ <-]|].
  destruct (forallb _ cols); [discriminate|now intros [= _ <-]].
Qed.

(** An invariant of the view that every successful INSERT keeps is kept by
    [execute]. *)
Lemma preserves_execute (J : DB -> Prop) stmt :
  (forall db cols rows,
     J db -> Dict.get schema (into stmt) = Some cols ->
     db !! into stmt = Some rows ->
     forallb (satisfies db (cells_of cols stmt)) cols = true ->
     J (<[into stmt := rows ++ [{| rowid := next_rowid rows;
                                  cells := cells_of cols stmt |}]]> db)) ->
  preserves (fun s => J (view_of s)) (execute stmt).
Proof.
  intros Hstep s Hs. destruct (execute stmt s) as [[] s'|e s'] eqn:E.
  - apply view_after_execute in E
      as (c & cols & rows & Hc & Hcols & Hrows & Hsat & ->).
    unfold view_of in Hs. rewrite Hc in Hs. now apply Hstep.
  - apply execute_raises_unchanged in E. now subst.
Qed.

Lemma next_rowid_above rows r : In r rows -> rowid r < next_rowid rows.
Proof.
  intros Hr. destruct rows as [|r0 rows]; [destruct Hr|].
  unfold next_rowid.
  assert (Hmax : forall l x, In x l -> x <= fold_right Z.max 0 l).
  { induction l as [|y l IH]; intros x Hx; [destruct Hx|].
    destruct Hx as [->|Hx]; simpl; [lia|]. specialize (IH x Hx). lia. }
  specialize (Hmax (List.map rowid (r0 :: rows)) (rowid r)
                (List.in_map rowid _ _ Hr)). lia.
Qed.

Lemma NoDup_snoc {A} (l : list A) x :
  List.NoDup l -> ~ In x l -> List.NoDup (l ++ [x]).
Proof.
  induction 1 as [|y l Hy Hl IH]; intros Hx; simpl.
  - repeat constructor. intros [].
  - constructor.
    + rewrite List.in_app_iff. simpl. intros [Hin|[->|[]]]; [auto|].
      apply Hx. now left.
    + apply IH. intros Hin. apply Hx. now right.
Qed.

Lemma execute_unique_rowids stmt :
  preserves (fun s => unique_rowids (view_of s)) (execute stmt).
Proof.
  apply (preserves_execute unique_rowids). intros db cols rows HJ _ Hrows _ t.
  rewrite table_insert. destruct (decide (t = into stmt)) as [->|]; [|apply HJ].
  destruct (HJ (into stmt)) as [Hnd Hpos]. unfold table in Hnd, Hpos.
  rewrite Hrows in Hnd, Hpos. simpl in Hnd, Hpos. split.
  - rewrite List.map_app. simpl. apply NoDup_snoc; [exact Hnd|].
    intros Hx. apply List.in_map_iff in Hx as (r & Hr & Hin).
    apply next_rowid_above in Hin. lia.
  - apply List.Forall_app. split; [exact Hpos|].
    repeat constructor. simpl. apply next_rowid_positive.
Qed.

Lemma has_rowid_insert db t rows row parent id :
  db !! t = Some rows ->
  has_rowid db parent id = true ->
  has_rowid (<[t := rows ++ [row]]> db) parent id = true.
Proof.
  unfold has_rowid. intros Hrows. rewrite table_insert.
  destruct (decide (parent = t)) as [->|]; [|easy].
  unfold table. rewrite Hrows. simpl. rewrite existsb_app.
  intros ->. reflexivity.
Qed.

Lemma execute_referentially_sound stmt :
  preserves (fun s => referentially_sound (view_of s)) (execute stmt).
Proof.
  apply (preserves_execute referentially_sound).
  intros db cols rows HJ Hcols Hrows Hsat t cols' r c parent id
         Hschema Hr Hc Href Hval.
  apply has_rowid_insert; [exact Hrows|].
  rewrite table_insert in Hr.
  destruct (decide (t = into stmt)) as [->|Hne];
    [|now apply (HJ t cols' r c parent id)].
  apply List.in_app_iff in Hr as [Hr|[<-|[]]].
  - apply (HJ (into stmt) cols' r c parent id); auto.
    unfold table. now rewrite Hrows.
  - assert (cols' = cols) as -> by congruence. simpl in Hval.
    rewrite forallb_forall in Hsat. specialize (Hsat c Hc).
    unfold satisfies in Hsat. rewrite Hval, Href in Hsat.
    now apply andb_prop in Hsat as [_ Hsat].
Qed.

Lemma preserves_commit (J : DB -> Prop) :
  preserves (fun s => J (view_of s)) commit.
Proof.
  intros s Hs. unfold commit. destruct (conn s) as [c|] eqn:Hc; [|exact Hs].
  unfold view_of in *. simpl. now rewrite Hc in Hs.
Qed.

Lemma preserves_populate_database (J : DB -> Prop)
    self recitals articles actors :
  (forall stmt, preserves (fun s => J (view_of s)) (execute stmt)) ->
  preserves (fun s => J (view_of s))
            (populate_database self recitals articles actors).
Proof.
  intros HJ. unfold populate_database. apply preserves_bind.
  - apply (issues_populate_rows self recitals articles actors).
    intros stmt _. apply HJ.
  - intros _. apply preserves_commit.
Qed.

(** When population starts from a view with distinct positive row ids and
    valid foreign keys, it ends with one: in the database file when it
    returns, on the connection when it raises. *)
Theorem populate_database_keeps_keys_sound
    (self : Caches) (recitals : list Recital) (articles : list Article)
    (actors : Dict.t str (list Mention)) (s : Store) :
  unique_rowids (view_of s) -> referentially_sound (view_of s) ->
  match populate_database self recitals articles actors s with
  | Returned _ s' =>
      unique_rowids (disk s') /\ referentially_sound (disk s')
  | Raised _ s' =>
      unique_rowids (view_of s') /\ referentially_sound (view_of s')
  end.
Proof.
  intros Hu Hr.
  pose proof (preserves_populate_database unique_rowids self recitals
                articles actors execute_unique_rowids s Hu) as H1.
  pose proof (preserves_populate_database referentially_sound self recitals
                articles actors execute_referentially_sound s Hr) as H2.
  pose proof (populate_database_disk _ self recitals articles actors s) as Hd.
  destruct (populate_database self recitals articles actors s) as [[] s'|e s'].
  - rewrite Hd. auto.
  - auto.
Qed.

End StoreInvariants.

Lemma fresh_store_sound :
  unique_rowids (view_of (init_database empty_store).1) /\
  referentially_sound (view_of (init_database empty_store).1).
Proof.
  assert (Hempty : forall t, table (view_of (init_database empty_store).1) t
                             = []).
  { intros t.
    change (view_of (init_database empty_store).1)
      with (create_tables (disk empty_store)).
    now rewrite create_tables_table. }
  split.
  - intros t. rewrite Hempty. split; constructor.
  - intros t cols r c parent id _ Hr. rewrite Hempty in Hr. destruct Hr.
Qed.

Lemma populate_database_keeps_keys_sound_witness :
  match @populate_database reliable_storage stray_caches [] [long_article] []
          (init_database empty_store).1 with
  | Returned _ s' => unique_rowids (disk s') /\ referentially_sound (disk s')
  | Raised _ s' =>
      unique_rowids (view_of s') /\ referentially_sound (view_of s')
  end.
Proof.
  exact (@populate_database_keeps_keys_sound reliable_storage stray_caches []
           [long_article] [] (init_database empty_store).1
           (proj1 fresh_store_sound) (proj2 fresh_store_sound)).
Defined.

(** ** Tables that [populate_database] has no rows for *)

Lemma execute_other_table `{Storage} stmt t rows0 :
  into stmt <> t ->
  preserves (fun s => table (view_of s) t = rows0) (execute stmt).
Proof.
  intros Hne. apply (preserves_execute (fun db => table db t = rows0)).
  intros db cols rows HJ _ _ _. rewrite table_insert.
  destruct (decide (t = into stmt)); [congruence|exact HJ].
Qed.

Lemma populate_database_keeps_unsourced
    (F : Storage) (self : Caches) (recitals : list Recital)
    (articles : list Article) (actors : Dict.t str (list Mention))
    (t : string) (rows0 : list Row) :
  may_write self recitals articles actors t = false ->
  preserves (fun s => table (view_of s) t = rows0)
            (populate_database self recitals articles actors).
Proof.
  intros Hno. unfold populate_database. apply preserves_bind.
  - apply (issues_populate_rows self recitals articles actors).
    intros stmt Hyes. apply execute_other_table. intros E'.
    rewrite E' in Hyes. congruence.
  - intros _. apply (preserves_commit (fun db => table db t = rows0)).
Qed.

(** A table for which the model holds no source of rows is the same after
    [populate_database] as before, whether the call returns or raises. *)
Theorem populate_database_leaves_unsourced_table
    (F : Storage) (self : Caches) (recitals : list Recital)
    (articles : list Article) (actors : Dict.t str (list Mention))
    (t : string) (s : Store) :
  may_write self recitals articles actors t = false ->
  match populate_database self recitals articles actors s with
  | Returned _ s' =>
      table (view_of s') t = table (view_of s) t /\
      table (disk s') t = table (view_of s) t
  | Raised _ s' => table (view_of s') t = table (view_of s) t
  end.
Proof.
  intros Hno.
  pose proof (populate_database_keeps_unsourced F self recitals articles
                actors t (table (view_of s) t) Hno s eq_refl) as Hkeep.
  pose proof (populate_database_disk F self recitals articles actors s) as Hd.
  destruct (populate_database self recitals articles actors s) as [[] s'|e s'].
  - split; [exact Hkeep|]. now rewrite Hd.
  - exact Hkeep.
Qed.

Lemma populate_database_leaves_unsourced_table_witness :
  match @populate_database reliable_storage no_caches [] [long_article] []
          (init_database empty_store).1 with
  | Returned _ s' =>
      table (view_of s') "time_requirements"
        = table (view_of (init_database empty_store).1) "time_requirements" /\
      table (disk s') "time_requirements"
        = table (view_of (init_database empty_store).1) "time_requirements"
  | Raised _ s' =>
      table (view_of s') "time_requirements"
        = table (view_of (init_database empty_store).1) "time_requirements"
  end.
Proof.
  exact (populate_database_leaves_unsourced_table reliable_storage no_caches
           [] [long_article] [] "time_requirements"
           (init_database empty_store).1 eq_refl).
Defined.

(** The caches that the extraction stages of [parse_and_load] fill are reset
    by [init_database] before [populate_database] reads them: whatever the
    document, a run leaves the tables of chapters, sections, definitions,
    cross-references and time requirements of the database file as they
    were. *)
Theorem parse_and_load_stores_no_cached_rows
    (L : Lower) (E : Engine) (N : NLP) (F : Storage) (D : Pdf)
    (self : Parser) (t : string) :
  In t ["chapters"; "sections"; "definitions"; "cross_references";
        "time_requirements"]%string ->
  match parse_and_load self with
  | Returned _ self' =>
      table (disk (store self')) t = table (disk (store self)) t
  | Raised _ self' => False
  end.
Proof.
  intros Ht. unfold parse_and_load, parse_and_load_body.
  destruct page_texts as [pages|]; [|reflexivity].
  destruct (extract_table_of_contents _ _ _) as [toc_chapters toc_sections].
  destruct (decompose_and_classify _ _) as [articles trs].
  cbn [init_database].
  match goal with
  | |- context [populate_database ?c ?r ?a ?k ?s] =>
      pose proof (fun Hno =>
                    populate_database_keeps_unsourced F c r a k t
                      (table (view_of s) t) Hno s eq_refl) as Hpop;
      pose proof (populate_database_disk F c r a k s) as Hdisk;
      destruct (populate_database c r a k s) as [[] s'|e s']
  end.
  - simpl. simpl in Hpop.
    assert (Hno : may_write no_caches (extract_recitals (preprocess_text
                    (full_text_of pages))) articles
                    (identify_key_actors articles) t = false).
    { simpl in Ht. destruct Ht as [<-|[<-|[<-|[<-|[<-|[]]]]]]; reflexivity. }
    rewrite Hdisk, (Hpop Hno). apply create_tables_table.
  - simpl. rewrite Hdisk. simpl. apply create_tables_table.
Qed.

Lemma parse_and_load_stores_no_cached_rows_witness :
  match @parse_and_load ascii_lower (scripted_engine []) full_stop_nlp
          reliable_storage blank_pdf new_parser with
  | Returned _ self' =>
      table (disk (store self')) "chapters"
      = table (disk (store new_parser)) "chapters"
  | Raised _ _ => False
  end.
Proof.
  exact (parse_and_load_stores_no_cached_rows ascii_lower (scripted_engine [])
           full_stop_nlp reliable_storage blank_pdf new_parser "chapters"
           (or_introl eq_refl)).
Defined.

(** ** [search_by_keyword]: the length of a snippet *)

Lemma find_from_bound sub s : forall i, 0 <= i -> -1 <= find_from i s sub.
Proof.
  induction s as [|c s IH]; intros i Hi; simpl.
  - destruct (startswith sub []); lia.
  - destruct (startswith sub (c :: s)); [lia|]. apply IH. lia.
Qed.

Lemma slice_length (s : str) (a b : Z) :
  0 <= a -> 0 <= b -> b <= len s ->
  len (slice s a b) <= Z.max 0 (b - a).
Proof.
  intros Ha Hb Hlen. unfold slice, clamp, len in *.
  destruct (Z.ltb_spec a 0); [lia|]. destruct (Z.ltb_spec b 0); [lia|].
  rewrite length_firstn. lia.
Qed.

(** A snippet is never longer than the keyword plus 50 code points on each
    side and the two ellipses, whatever the paragraph and the keyword. *)
Theorem make_snippet_length (L : Lower) (para_text keyword : str) :
  len (make_snippet para_text keyword) <= len keyword + 106.
Proof.
  unfold make_snippet.
  pose proof (find_from_bound (lower keyword) (lower para_text) 0 ltac:(lia))
    as Hp.
  fold (find (lower para_text) (lower keyword)) in Hp.
  set (p := find (lower para_text) (lower keyword)) in *.
  assert (Hk : 0 <= len keyword) by (unfold len; lia).
  assert (Ht : 0 <= len para_text) by (unfold len; lia).
  pose proof (slice_length para_text (Z.max 0 (p - 50))
                (Z.min (len para_text) (p + len keyword + 50))
                ltac:(lia) ltac:(lia) ltac:(lia)) as Hw.
  unfold len in *. rewrite !length_app.
  clearbody p.
  match type of Hw with
  | Z.of_nat (length ?t) <= _ => revert Hw; generalize (length t); intros w Hw
  end.
  assert (H3 : length (lit "...") = 3%nat) by reflexivity.
  repeat match goal with
  | |- context [if ?c then _ else _] => destruct c
  end;
  rewrite ?H3; cbn [length]; lia.
Qed.

(** ** ArticleExtractor: the text of an article *)

Lemma article_loop_spans text chs secs ms :
  forall articles m0,
    (let '(arts, last) :=
       fold_left (article_step text chs secs) ms
                 (articles, Some (header_of m0)) in
     match last with
     | Some (prev_start, prev_number, prev_title) =>
         arts ++ [new_article chs secs prev_start prev_number prev_title
                    (strip (slice_from text prev_start))]
     | None => arts
     end)
    = articles ++
      List.map (fun '(m, body) =>
                  new_article chs secs (m_start m) (group m 1)
                              (strip (group m 2)) (strip body))
               (header_spans text (m0 :: ms)).
Proof.
  induction ms as [|m ms IH]; intros articles m0.
  - reflexivity.
  - cbn [fold_left article_step header_of].
    change (Some (m_start m, group m 1, strip (group m 2)))
      with (Some (header_of m)).
    rewrite IH, <- app_assoc. reflexivity.
Qed.

(** Every article header found in the text yields one article, in order,
    titled by the header; the content of the article is the stripped text
    from the start of its header to the start of the next header (to the end
    of the text for the last one), and it leaves the extractor without
    paragraphs, requirements or entities.  Text before the first header
    belongs to no article. *)
Theorem article_content_spans_to_next_header (E : Engine) (text : str) :
  Forall2
    (fun '(m, body) a =>
       a_title a = strip (group m 2) /\ a_content a = strip body /\
       a_paragraphs a = [] /\ a_requirements a = [] /\ a_entities a = [])
    (header_spans text (finditer article_pattern [] text))
    (extract_articles_with_structure text).
Proof.
  unfold extract_articles_with_structure.
  destruct (finditer article_pattern [] text) as [|m0 ms].
  - constructor.
  - cbn [fold_left article_step].
    change (Some (m_start m0, group m0 1, strip (group m0 2)))
      with (Some (header_of m0)).
    pose proof (article_loop_spans text (positions chapter_pattern text)
                  (positions section_pattern text) ms [] m0) as Hloop.
    destruct (fold_left _ ms _) as [arts last].
    rewrite Hloop. cbn [app].
    generalize (header_spans text (m0 :: ms)) as spans.
    induction spans as [|[m body] spans IH]; simpl; constructor; auto.
Qed.

(** ** DefinitionExtractor and key actors: where the entries come from *)

Lemma fold_left_invariant {A B} (I : B -> Prop) (f : B -> A -> B) l :
  (forall b x, In x l -> I b -> I (f b x)) ->
  forall b, I b -> I (fold_left f l b).
Proof.
  induction l as [|x l IH]; intros Hf b Hb; simpl; [exact Hb|].
  apply IH.
  - intros b' y Hy. apply Hf. now right.
  - apply Hf; [now left|exact Hb].
Qed.

Section DictInvariants.
Context {K V : Type} `{EqDecision K}.
Implicit Types (d : Dict.t K V) (k : K) (v : V).

Lemma dict_set_keys d k v x :
  In x (List.map fst (Dict.set d k v)) -> x = k \/ In x (List.map fst d).
Proof.
  induction d as [|[k0 v0] d IH]; simpl.
  - intros [<-|[]]. now left.
  - destruct (decide (k = k0)) as [->|Hne]; simpl.
    + intros [<-|Hx]; auto.
    + intros [<-|Hx]; [auto|]. destruct (IH Hx); auto.
Qed.

Lemma dict_set_NoDup d k v :
  List.NoDup (List.map fst d) -> List.NoDup (List.map fst (Dict.set d k v)).
Proof.
  induction d as [|[k0 v0] d IH]; simpl; intros Hnd.
  - repeat constructor. intros [].
  - inversion Hnd as [|? ? Hk0 Hd]; subst.
    destruct (decide (k = k0)) as [->|Hne]; simpl.
    + now constructor.
    + constructor; [|now apply IH].
      intros Hx. apply dict_set_keys in Hx as [->|Hx]; congruence.
Qed.

Lemma dict_set_same_keys d k v :
  In k (List.map fst d) -> List.map fst (Dict.set d k v) = List.map fst d.
Proof.
  induction d as [|[k0 v0] d IH]; simpl; [intros []|].
  destruct (decide (k = k0)) as [->|Hne]; [reflexivity|].
  intros [E|Hin]; [congruence|]. simpl. now rewrite IH.
Qed.

Lemma dict_set_Forall (P : K * V -> Prop) d k v :
  Forall P d -> P (k, v) -> Forall P (Dict.set d k v).
Proof.
  induction 1 as [|[k0 v0] d Hp Hd IH]; intros Hkv; simpl.
  - repeat constructor. exact Hkv.
  - destruct (decide (k = k0)); constructor; auto.
Qed.

Lemma dict_get_In d k v : Dict.get d k = Some v -> In (k, v) d.
Proof.
  induction d as [|[k0 v0] d IH]; simpl; [discriminate|].
  destruct (decide (k = k0)) as [->|]; [intros [= ->]; now left|].
  intros Hg. right. now apply IH.
Qed.

End DictInvariants.

Lemma add_definitions_invariant `{Engine} (P : str * Definition_ -> Prop)
    article paragraph subparagraph text :
  (forall d, defined_by text d -> d_article d = article ->
             d_paragraph d = paragraph -> d_subparagraph d = subparagraph ->
             P (d_term d, d)) ->
  forall definitions,
    keyed P definitions ->
    keyed P (add_definitions article paragraph subparagraph text definitions).
Proof.
  intros HP. unfold add_definitions.
  apply (fold_left_invariant (keyed P)).
  intros ds pattern Hpat. revert ds. apply (fold_left_invariant (keyed P)).
  intros ds m Hm [Hnd Hall]. split.
  - now apply dict_set_NoDup.
  - apply dict_set_Forall; [exact Hall|].
    apply (HP {| d_term := strip (group m 1);
                 d_definition := strip (group m 2);
                 d_article := article; d_paragraph := paragraph;
                 d_subparagraph := subparagraph |}); try reflexivity.
    exists pattern, m. auto.
Qed.

(** The definitions are keyed by their term, one entry per term; every entry
    was matched by one of the three definition patterns in the text of a
    paragraph or subparagraph of an article that is numbered 4 or whose title
    holds "definition", and records that article, paragraph and
    subparagraph. *)
Theorem definitions_come_from_definition_articles
    (L : Lower) (E : Engine) (articles : list Article) :
  List.NoDup (List.map fst (extract_definitions articles)) /\
  Forall
    (fun '(term, d) =>
       d_term d = term /\
       exists a text,
         In a articles /\ is_definition_article a = true /\
         d_article d = a_number a /\
         located_in a (d_paragraph d) (d_subparagraph d) text /\
         defined_by text d)
    (extract_definitions articles).
Proof.
  unfold extract_definitions.
  match goal with
  | |- List.NoDup (List.map fst ?ds) /\ Forall ?P ?ds =>
      change (keyed P ds); set (Q := P)
  end.
  apply (fold_left_invariant (keyed Q)); [|split; constructor].
  intros ds a Ha. apply List.filter_In in Ha as [Ha Hdef].
  fold (is_definition_article a) in Hdef.
  revert ds. apply (fold_left_invariant (keyed Q)). intros ds p Hp Hds.
  assert (Hpar : keyed Q (add_definitions (a_number a) (p_number p) None
                            (p_text p) ds)).
  { apply add_definitions_invariant; [|exact Hds].
    intros d Hd Ea Ep Es. split; [reflexivity|].
    exists a, (p_text p). repeat split; auto.
    rewrite Ep, Es. exists p. auto. }
  revert Hpar. generalize (add_definitions (a_number a) (p_number p) None
                             (p_text p) ds) as ds'.
  apply (fold_left_invariant (keyed Q)). intros ds' sp Hsp Hds'.
  apply add_definitions_invariant; [|exact Hds'].
  intros d Hd Ea Ep Es. split; [reflexivity|].
  exists a, (sp_text sp). repeat split; auto.
  rewrite Ep, Es. exists p. repeat split; auto. exists sp. auto.
Qed.

(** The actors dictionary keeps its six keys, in their order, whatever the
    articles; every mention is a stripped sentence of one of the articles
    that holds a keyword of its actor type, recorded under the number of that
    article. *)
Theorem key_actor_mentions_are_sentences
    (L : Lower) (N : NLP) (articles : list Article) :
  List.map fst (identify_key_actors articles) = List.map fst actor_keywords /\
  Forall
    (fun '(actor_type, mns) =>
       Forall (fun mn => exists a, In a articles /\
                                   mentioned_in a actor_type mn) mns)
    (identify_key_actors articles).
Proof.
  unfold identify_key_actors.
  match goal with
  | |- List.map fst ?ds = ?ks /\ Forall ?P ?ds =>
      set (Q := P);
      set (J := fun actors : Dict.t str (list Mention) =>
                  List.map fst actors = ks /\ Forall Q actors);
      change (J ds)
  end.
  apply (fold_left_invariant J); [|split; [reflexivity|repeat constructor]].
  intros actors a Ha. revert actors.
  apply (fold_left_invariant J). intros actors [actor_type keywords] Hkw.
  revert actors. apply (fold_left_invariant J).
  intros actors keyword Hkey Hactors.
  destruct (contains keyword (lower (a_content a))) eqn:Hcontent;
    [|exact Hactors].
  revert actors Hactors. apply (fold_left_invariant J).
  intros actors sent Hsent [Hkeys Hall].
  destruct (contains keyword (lower sent)) eqn:Hhit; [|now split].
  split.
  - rewrite <- Hkeys. apply dict_set_same_keys. rewrite Hkeys.
    apply (List.in_map fst) in Hkw. exact Hkw.
  - apply dict_set_Forall; [exact Hall|].
    apply List.Forall_app. split.
    + destruct (Dict.get actors actor_type) as [mns|] eqn:Hget;
        [|constructor].
      apply dict_get_In in Hget.
      rewrite List.Forall_forall in Hall. exact (Hall _ Hget).
    + repeat constructor. exists a. split; [exact Ha|].
      split; [reflexivity|]. exists keywords, keyword, sent.
      split; [exact Hkw|]. split; [exact Hkey|]. split; [exact Hsent|].
      split; [exact Hcontent|]. split; [exact Hhit|reflexivity].
Qed.

(** ** The per-article stages of [parse_and_load] *)

Lemma extract_requirements_accumulates `{Lower} `{NLP} article trs :
  extract_requirements article trs
  = ((extract_requirements article []).1,
     trs ++ (extract_requirements article []).2).
Proof.
  unfold extract_requirements.
  rewrite !classify_paragraphs_classified. reflexivity.
Qed.

Lemma decompose_and_classify_loop `{Lower} `{Engine} `{NLP} articles :
  forall processed trs,
    fold_left
      (fun '(processed, time_requirements) article =>
         let '(article, time_requirements) :=
           extract_requirements (extract_paragraphs_and_subparagraphs article)
                                time_requirements in
         (processed ++ [article], time_requirements))
      articles (processed, trs)
    = (processed ++
         List.map (fun a => (extract_requirements
                               (extract_paragraphs_and_subparagraphs a) []).1)
                  articles,
       trs ++
         flat_map (fun a => (extract_requirements
                               (extract_paragraphs_and_subparagraphs a) []).2)
                  articles).
Proof.
  induction articles as [|a articles IH]; intros processed trs.
  - simpl. now rewrite !app_nil_r.
  - cbn [fold_left List.map flat_map].
    rewrite (extract_requirements_accumulates
               (extract_paragraphs_and_subparagraphs a) trs).
    rewrite IH, <- !app_assoc. reflexivity.
Qed.

(** The loop over the articles treats each article by itself: the article it
    stores is the one that decomposition and classification give for that
    article alone, and the time requirements are those known before followed
    by those of each article, in article order. *)
Theorem decompose_and_classify_per_article
    (L : Lower) (E : Engine) (N : NLP) (articles : list Article)
    (trs : list TimeRequirement) :
  decompose_and_classify articles trs
  = (List.map (fun a => (extract_requirements
                           (extract_paragraphs_and_subparagraphs a) []).1)
              articles,
     trs ++
       flat_map (fun a => (extract_requirements
                             (extract_paragraphs_and_subparagraphs a) []).2)
                articles).
Proof.
  unfold decompose_and_classify. now rewrite decompose_and_classify_loop.
Qed.

(** ** [init_database] on an existing database file *)

Lemma create_tables_some (l : Dict.t string (list Column)) :
  forall (db : DB) t,
    is_Some (db !! t) \/ In t (List.map fst l) ->
    is_Some (fold_left (fun db '(name, _) =>
                          match db !! name with
                          | Some _ => db
                          | None => <[name := []]> db
                          end) l db !! t).
Proof.
  induction l as [|[name cols] l IH]; intros db t Ht; cbn [fold_left].
  - destruct Ht as [Ht|[]]. exact Ht.
  - apply IH. simpl in Ht. destruct Ht as [Ht|[<-|Ht]]; [| |now right]; left.
    + destruct (db !! name) eqn:E; [exact Ht|].
      destruct (decide (t = name)) as [->|Hne].
      * rewrite lookup_insert_eq. eauto.
      * rewrite lookup_insert_ne by congruence. exact Ht.
    + destruct (db !! name) eqn:E; [rewrite E; eauto|].
      rewrite lookup_insert_eq. eauto.
Qed.

(** [init_database] keeps every row of the database file; afterwards every
    table of the schema exists, and the new connection sees the database
    file only: rows that an earlier connection had inserted without a commit
    are gone. *)
Theorem init_database_keeps_committed_rows (s : Store) :
  (forall t, table (disk (init_database s).1) t = table (disk s) t) /\
  (forall t, In t (List.map fst schema) ->
             is_Some (disk (init_database s).1 !! t)) /\
  view_of (init_database s).1 = disk (init_database s).1.
Proof.
  split; [|split].
  - intros t. apply create_tables_table.
  - intros t Ht. apply create_tables_some. now right.
  - unfold init_database, view_of. cbn [fst conn view disk]. reflexivity.
Qed.

(** ** [search_by_keyword]: verbatim occurrences are found *)

Lemma pattern_compare_percent text : pattern_compare [37%N] text = true.
Proof.
  induction text as [|d text IH]; [reflexivity|].
  change (pattern_compare [] (d :: text) || pattern_compare [37%N] text = true).
  now rewrite IH, orb_true_r.
Qed.

Lemma pattern_compare_percent_skip pattern pre text :
  pattern_compare pattern text = true ->
  pattern_compare (37%N :: pattern) (pre ++ text) = true.
Proof.
  intros Hl. induction pre as [|d pre IH].
  - destruct text as [|d text].
    + change (pattern_compare pattern [] || false = true). now rewrite Hl.
    + change (pattern_compare pattern (d :: text)
              || pattern_compare (37%N :: pattern) text = true).
      now rewrite Hl.
  - change (pattern_compare pattern (d :: pre ++ text)
            || pattern_compare (37%N :: pattern) (pre ++ text) = true).
    now rewrite IH, orb_true_r.
Qed.

Lemma pattern_compare_verbatim keyword post :
  pattern_compare (keyword ++ [37%N]) (keyword ++ post) = true.
Proof.
  induction keyword as [|c keyword IH]; [apply pattern_compare_percent|].
  destruct (N.eqb_spec c 37) as [->|Hne].
  - exact (pattern_compare_percent_skip (keyword ++ [37%N]) [37%N]
             (keyword ++ post) IH).
  - cbn [app pattern_compare]. rewrite (proj2 (N.eqb_neq c 37) Hne).
    now rewrite N.eqb_refl, orb_true_r, IH.
Qed.

Lemma until_nul_app (a b : str) :
  ~ In 0%N a -> until_nul (a ++ b) = a ++ until_nul b.
Proof.
  induction a as [|c a IH]; intros Hnul; [reflexivity|].
  cbn [app until_nul]. destruct (N.eqb_spec c 0) as [->|_].
  - exfalso. apply Hnul. now left.
  - f_equal. apply IH. intros Hin. apply Hnul. now right.
Qed.

Lemma like_verbatim keyword pre post :
  ~ In 0%N keyword -> ~ In 0%N pre ->
  like (lit "%" ++ keyword ++ lit "%") (pre ++ keyword ++ post) = true.
Proof.
  intros Hk Hpre. unfold like.
  change (lit "%" ++ keyword ++ lit "%") with ([37%N] ++ keyword ++ [37%N]).
  rewrite (until_nul_app [37%N]) by (intros [H|[]]; discriminate H).
  rewrite (until_nul_app keyword) by exact Hk.
  rewrite (until_nul_app pre), (until_nul_app keyword) by assumption.
  apply pattern_compare_percent_skip, pattern_compare_verbatim.
Qed.

Lemma select_rows_total (condition : Row -> option bool) (f : Row -> bool)
    rows :
  (forall r, In r rows -> condition r = Some (f r)) ->
  select_rows condition rows = Some (List.filter f rows).
Proof.
  induction rows as [|r rows IH]; intros Hc; [reflexivity|].
  cbn [select_rows List.filter]. rewrite (Hc r) by now left.
  rewrite IH by (intros r' Hr'; apply Hc; now right).
  simpl. now destruct (f r).
Qed.

Lemma mapM_map {A B} (f : A -> option B) (g : A -> B) l :
  (forall x, In x l -> f x = Some (g x)) -> mapM f l = Some (List.map g l).
Proof.
  induction l as [|x l IH]; intros Hf; [reflexivity|].
  cbn [mapM List.map]. rewrite (Hf x) by now left.
  rewrite IH by (intros y Hy; apply Hf; now right). reflexivity.
Qed.

(** What LIKE says of a fetched value when the pattern is not too long. *)
Lemma sql_like_short pattern v :
  utf8_length pattern <= MAX_LIKE_PATTERN_LENGTH ->
  sql_like pattern v
  = Some match v with
         | Null => false
         | Int z => like pattern (decimal z)
         | Text t => like pattern t
         end.
Proof.
  intros Hlen. unfold sql_like.
  destruct (Z.ltb_spec MAX_LIKE_PATTERN_LENGTH (utf8_length pattern));
    [lia|reflexivity].
Qed.

(** On a database whose paragraph texts are texts or NULL, and for a
    keyword that can be encoded, is not too long for a LIKE pattern and
    holds no U+0000: an article whose content holds the keyword as it is
    written, after a text without U+0000, is listed, with its number and
    title, also when the keyword holds [%] or [_]; so is every paragraph of
    the article whose text holds the keyword in that way, with its number
    and its snippet. *)
Theorem search_lists_verbatim_occurrences
    (L : Lower) (db : DB) (keyword : str) (a : Row) (pre post : str) :
  is_Some (db !! "paragraphs"%string) ->
  (forall p z, In p (table db "paragraphs") -> col p "text" <> Int z) ->
  encodable keyword = true ->
  utf8_length (lit "%" ++ keyword ++ lit "%") <= MAX_LIKE_PATTERN_LENGTH ->
  ~ In 0%N keyword ->
  In a (table db "articles") ->
  col a "content" = Text (pre ++ keyword ++ post) ->
  ~ In 0%N pre ->
  exists results entry,
    search db keyword = Some results /\
    In entry results /\
    field entry "article" = OValue (col a "number") /\
    field entry "title" = OValue (col a "title") /\
    forall p pre' post',
      In p (table db "paragraphs") ->
      col p "article_id" = Int (rowid a) ->
      col p "text" = Text (pre' ++ keyword ++ post') ->
      ~ In 0%N pre' ->
      exists mt,
        In mt (items (field entry "matches")) /\
        field mt "paragraph" = OValue (col p "number") /\
        field mt "snippet"
        = OValue (Text (make_snippet (pre' ++ keyword ++ post') keyword)).
Proof.
  intros [paragraphs Hparagraphs] Htexts Henc Hlen Hnul Ha Hcontent Hpre.
  set (pattern := lit "%" ++ keyword ++ lit "%") in *.
  set (matches := fun v => match v with
                           | Null => false
                           | Int z => like pattern (decimal z)
                           | Text t => like pattern t
                           end).
  set (selects := fun (id : Value) (r : Row) =>
                    sql_eq (col r "article_id") id
                    && matches (col r "text")).
  set (shown := fun r : Row =>
                  ODict [("paragraph", OValue (col r "number"));
                         ("snippet",
                          OValue (Text (make_snippet (text_of (col r "text"))
                                                     keyword)))]%string).
  set (listed := fun a' : Row =>
                   ODict [("article", OValue (col a' "number"));
                          ("title", OValue (col a' "title"));
                          ("matches",
                           OList (List.map shown
                                    (order_by "number"
                                       (List.filter (selects (col a' "id"))
                                                    paragraphs))))]%string).
  assert (Htable : table db "paragraphs" = paragraphs)
    by (unfold table; now rewrite Hparagraphs).
  assert (Hsearch : forall id,
            search_paragraphs db id keyword
            = Some (List.map shown
                      (order_by "number"
                         (List.filter (selects id) paragraphs)))).
  { intros id. unfold search_paragraphs. rewrite Hparagraphs. cbn [mbind option_bind].
    rewrite (select_rows_total _ (selects id)).
    - cbn [mbind option_bind]. apply mapM_map. intros r Hr.
      apply (Permutation_in _ (order_by_perm _ _)) in Hr.
      apply List.filter_In in Hr as [Hr Hsel].
      apply andb_prop in Hsel as [_ Hsel].
      unfold matching_paragraph, shown.
      destruct (col r "text") as [|z|t] eqn:Et; [discriminate Hsel| |reflexivity].
      exfalso. apply (Htexts r z); [now rewrite Htable|exact Et].
    - intros r _. unfold selects.
      destruct (sql_eq (col r "article_id") id); [|reflexivity].
      now apply sql_like_short. }
  destruct (db !! "articles"%string) as [articles|] eqn:Harticles;
    [|unfold table in Ha; rewrite Harticles in Ha; destruct Ha].
  assert (Htable' : table db "articles" = articles)
    by (unfold table; now rewrite Harticles).
  rewrite Htable' in Ha.
  exists (List.map listed
            (order_by "number"
               (List.filter (fun a' => matches (col a' "content")) articles))),
         (listed a).
  split; [|split; [|split; [|split]]].
  - unfold search. rewrite Henc, Harticles. cbn [mbind option_bind].
    rewrite (select_rows_total _ (fun a' => matches (col a' "content")))
      by (intros r _; now apply sql_like_short).
    cbn [mbind option_bind]. apply mapM_map. intros a' _.
    rewrite Hsearch. reflexivity.
  - apply List.in_map_iff. exists a. split; [reflexivity|].
    apply (Permutation_in _ (Permutation_sym (order_by_perm _ _))).
    apply List.filter_In. split; [exact Ha|].
    rewrite Hcontent. now apply like_verbatim.
  - reflexivity.
  - reflexivity.
  - intros p pre' post' Hp Hid Htext Hpre'. exists (shown p).
    split; [|split].
    + change (items (field (listed a) "matches"))
        with (List.map shown
                (order_by "number"
                   (List.filter (selects (col a "id")) paragraphs))).
      apply List.in_map_iff. exists p. split; [reflexivity|].
      apply (Permutation_in _ (Permutation_sym (order_by_perm _ _))).
      apply List.filter_In. split; [now rewrite <- Htable|].
      unfold selects. rewrite Hid, Htext.
      apply andb_true_intro. split; [|now apply like_verbatim].
      change (col a "id") with (Int (rowid a)). simpl. apply Z.eqb_refl.
    + reflexivity.
    + unfold shown. change (field (ODict ?d) "snippet")
        with (OValue (Text (make_snippet (text_of (col p "text")) keyword))).
      now rewrite Htext.
Qed.

Lemma search_lists_verbatim_occurrences_witness :
  exists results entry,
    @search (populated [long_article]) ascii_lower (lit "scope")
    = Some results /\
    In entry results /\
    field entry "article" = OValue (Text (lit "3")).
Proof.
  destruct (search_lists_verbatim_occurrences ascii_lower
              (populated [long_article]) (lit "scope")
              {| rowid := 1;
                 cells := [("number", Text (lit "3"));
                           ("title", Text (lit "Territorial scope"));
                           ("content",
                            Text (lit "Article 3 - Territorial scope"));
                           ("chapter_id", Null);
                           ("section_id", Null)]%string |}
              (lit "Article 3 - Territorial ") [])
    as (results & entry & Hsearch & Hin & Hnumber & _).
  - vm_compute. eauto.
  - intros p z Hp Htext. vm_compute in Hp.
    repeat (destruct Hp as [<-|Hp]; [vm_compute in Htext; discriminate Htext|]).
    destruct Hp.
  - reflexivity.
  - vm_compute. discriminate.
  - vm_compute. intuition discriminate.
  - vm_compute. left. reflexivity.
  - reflexivity.
  - vm_compute. intuition discriminate.
  - exists results, entry. exact (conj Hsearch (conj Hin Hnumber)).
Defined.

(** A keyword with a U+0000 is cut there by LIKE, a pattern of more than
    50000 bytes is an error once a row is looked at, and without a table
    the call raises. *)
Example search_limits :
  like (lit "%" ++ [107; 0; 122]%N ++ lit "%") (lit "ok") = true /\
  like (lit "%key%") ([97; 0]%N ++ lit "key") = false /\
  @search ∅ ascii_lower (lit "scope") = None /\
  @search (populated []) ascii_lower (repeat 97%N (Z.to_nat 49999)) = Some [] /\
  @search (populated [long_article]) ascii_lower (repeat 97%N (Z.to_nat 49999)) = None /\
  @search (populated [long_article]) ascii_lower [55296%N] = None.
Proof. repeat split; vm_compute; reflexivity. Qed.

(** ** [populate_database] on a ready connection with a reliable storage *)

Lemma stable_true : stable (fun _ => True).
Proof. intros s s' _ _. exact I. Qed.

Lemma stable_and P Q : stable P -> stable Q -> stable (fun s => P s /\ Q s).
Proof. intros HP HQ s s' Hg [Hp Hq]. split; [eapply HP|eapply HQ]; eauto. Qed.

Lemma stable_has_rowid t id :
  stable (fun s => has_rowid (view_of s) t id = true).
Proof. intros s s' Hg Hs. now apply Hg. Qed.

Lemma stable_known t id : stable (known t id).
Proof. intros s s' Hg. destruct id as [i|]; simpl; [apply Hg|auto]. Qed.

Lemma stable_valid {K} `{Countable K} t (m : gmap K Z) : stable (valid t m).
Proof. intros s s' Hg Hv k. eapply stable_known; eauto. Qed.

Lemma stable_pure (P : Prop) : stable (fun _ => P).
Proof. intros s s' _ Hp. exact Hp. Qed.

Lemma valid_empty {K} `{Countable K} t s : valid t (∅ : gmap K Z) s.
Proof. intros k. now rewrite lookup_empty. Qed.

Lemma valid_insert {K} `{Countable K} t (m : gmap K Z) k id s :
  valid t m s -> has_rowid (view_of s) t id = true ->
  valid t (<[k := id]> m) s.
Proof.
  intros Hv Hid k'. destruct (decide (k' = k)) as [->|Hne].
  - now rewrite lookup_insert_eq.
  - rewrite lookup_insert_ne by congruence. apply Hv.
Qed.

Lemma grows_refl s : grows s s.
Proof. intros t id Hid. exact Hid. Qed.

Lemma grows_trans s1 s2 s3 : grows s1 s2 -> grows s2 s3 -> grows s1 s3.
Proof. intros H12 H23 t id Hid. auto. Qed.

Ltac stable_solve :=
  repeat first
    [ assumption
    | apply stable_and
    | apply stable_has_rowid
    | apply stable_valid
    | apply stable_known
    | apply stable_pure ].

(** Looks up the ids that the statement takes from the id maps. *)
Ltac use_valid :=
  repeat match goal with
  | Hv : valid ?t ?m ?s |- context [?m !! ?k] =>
      let Hk := fresh "Hk" in
      pose proof (Hv k) as Hk; change (known t (m !! k) s) in Hk;
      revert Hk; destruct (m !! k); intros Hk; simpl in Hk
  end.

(** Implications between conjunctions of facts about the ids. *)
Ltac reshape :=
  cbv beta; intros;
  repeat match goal with
  | H : _ /\ _ |- _ => destruct H
  end;
  repeat match goal with
  | |- _ /\ _ => split
  end;
  auto.

(** Evaluates the constraints of a statement down to the row ids that its
    foreign keys name. *)
Ltac sat_eval :=
  cbv -[has_rowid view_of];
  repeat match goal with
  | H : has_rowid _ _ _ = true |- _ =>
      cbv -[has_rowid view_of] in H; rewrite H; clear H
  end;
  reflexivity.

(** The constraints of a statement whose foreign keys are known ids. *)
Ltac sat :=
  let s := fresh "s" in
  let Hs := fresh "Hs" in
  intros s Hs;
  repeat match type of Hs with
  | _ /\ _ => let H1 := fresh "Hs" in destruct Hs as [H1 Hs]
  end;
  repeat match goal with
  | H : _ /\ _ |- _ => destruct H
  end;
  repeat match goal with
  | |- context [truthy ?v] => destruct (truthy v)
  | |- context [a_chapter ?a] => destruct (a_chapter a)
  | |- context [a_section ?a] => destruct (a_section a)
  end;
  use_valid;
  sat_eval.

Section Succeeds.
Context `{Storage}.
Hypothesis reliable : forall stmt db, storage_fails stmt db = false.

Lemma succeeds_ret {A} (P : Store -> Prop) (Q : A -> Store -> Prop) (a : A) :
  (forall s, P s -> Q a s) -> succeeds P (mret a) Q.
Proof.
  intros HPQ s Hr Hp. exists a, s. repeat split; auto using grows_refl.
Qed.

Lemma succeeds_bind {A B} (P : Store -> Prop) (Q : A -> Store -> Prop)
    (R : B -> Store -> Prop) (m : M A) (f : A -> M B) :
  succeeds P m Q -> (forall a, succeeds (Q a) (f a) R) ->
  succeeds P (m ≫= f) R.
Proof.
  intros Hm Hf s Hr Hp.
  destruct (Hm s Hr Hp) as (a & s1 & E1 & Hr1 & Hg1 & Hq).
  destruct (Hf a s1 Hr1 Hq) as (b & s2 & E2 & Hr2 & Hg2 & Hres).
  exists b, s2. unfold mbind, M_bind. rewrite E1.
  repeat split; eauto using grows_trans.
Qed.

Lemma succeeds_conseq {A} (P P' : Store -> Prop) (Q Q' : A -> Store -> Prop)
    (m : M A) :
  succeeds P m Q -> (forall s, P' s -> P s) ->
  (forall a s, Q a s -> Q' a s) -> succeeds P' m Q'.
Proof.
  intros Hm HP HQ s Hr Hp.
  destruct (Hm s Hr (HP s Hp)) as (a & s1 & E1 & Hr1 & Hg1 & Hq).
  exists a, s1. auto.
Qed.

Lemma succeeds_pure {A} (P : Store -> Prop) (fact : Prop) (m : M A) Q :
  (fact -> succeeds P m Q) -> succeeds (fun s => P s /\ fact) m Q.
Proof. intros Hm s Hr [Hp Hf]. now apply Hm. Qed.

Lemma succeeds_foldM {A B} (Inv : list A -> B -> Store -> Prop)
    (body : B -> A -> M B) l :
  (forall seen x acc,
     In x l ->
     succeeds (Inv seen acc) (body acc x) (Inv (seen ++ [x]))) ->
  forall seen acc,
    succeeds (Inv seen acc) (foldM body l acc) (Inv (seen ++ l)).
Proof.
  induction l as [|x l IH]; intros Hbody seen acc; simpl.
  - rewrite app_nil_r. apply succeeds_ret. auto.
  - eapply succeeds_bind; [apply Hbody; now left|]. intros acc'.
    replace (seen ++ x :: l) with ((seen ++ [x]) ++ l)
      by now rewrite <- app_assoc.
    apply IH. intros seen' y acc'' Hy. apply Hbody. now right.
Qed.

Lemma succeeds_for_each {A} (P : Store -> Prop) (body : A -> M unit) l :
  (forall x, In x l -> succeeds P (body x) (fun _ => P)) ->
  succeeds P (for_each l body) (fun _ => P).
Proof.
  intros Hbody. unfold for_each.
  apply (succeeds_foldM (fun _ _ => P) (fun _ x => body x) l
           (fun _ x _ Hx => Hbody x Hx) [] tt).
Qed.

Lemma succeeds_execute (Fr : Store -> Prop) stmt cols :
  Dict.get schema (into stmt) = Some cols ->
  stable Fr ->
  (forall s, Fr s ->
     forallb (satisfies (view_of s) (cells_of cols stmt)) cols = true) ->
  succeeds Fr (execute stmt)
           (fun _ s' => Fr s' /\ last_inserted (into stmt) s').
Proof.
  intros Hcols Hst Hsat s (c & Hc & Htables) Hfr.
  destruct (Htables _ _ Hcols) as [rows Hrows].
  specialize (Hsat s Hfr). unfold view_of in Hsat. rewrite Hc in Hsat.
  unfold execute. rewrite Hc, Hcols, Hrows, reliable, Hsat.
  eexists tt, _. split; [reflexivity|].
  assert (Hg : grows s {| disk := disk s;
                          conn := Some {| view := <[into stmt := rows ++
                                            [{| rowid := next_rowid rows;
                                                cells := cells_of cols stmt |}]]>
                                            (view c);
                                          lastrowid := next_rowid rows |} |}).
  { intros t id. unfold view_of. rewrite Hc. simpl.
    now apply has_rowid_insert. }
  split; [|split; [exact Hg|split; [now apply (Hst s)|]]].
  - eexists. split; [reflexivity|]. simpl. intros t cols' Ht.
    destruct (decide (t = into stmt)) as [->|Hne].
    + rewrite lookup_insert_eq. eauto.
    + rewrite lookup_insert_ne by congruence. eauto.
  - eexists. split; [reflexivity|]. simpl. unfold has_rowid.
    rewrite table_insert. destruct (decide _); [|congruence].
    rewrite existsb_app. simpl. now rewrite Z.eqb_refl, orb_true_r.
Qed.

Lemma succeeds_lastrowid (Fr : Store -> Prop) t :
  succeeds (fun s => Fr s /\ last_inserted t s) cursor_lastrowid
           (fun id s => Fr s /\ has_rowid (view_of s) t id = true).
Proof.
  intros s Hr [Hfr (c & Hc & Hid)]. exists (lastrowid c), s.
  unfold cursor_lastrowid, view_of. rewrite Hc.
  repeat split; auto using grows_refl.
Qed.

(** [execute(stmt); id = cursor.lastrowid; ...] *)
Lemma succeeds_insert {B} (Fr : Store -> Prop) stmt cols (k : Z -> M B)
    (R : B -> Store -> Prop) :
  Dict.get schema (into stmt) = Some cols ->
  stable Fr ->
  (forall s, Fr s ->
     forallb (satisfies (view_of s) (cells_of cols stmt)) cols = true) ->
  (forall id,
     succeeds (fun s => Fr s /\ has_rowid (view_of s) (into stmt) id = true)
              (k id) R) ->
  succeeds Fr (execute stmt;; id ← cursor_lastrowid; k id) R.
Proof.
  intros Hcols Hst Hsat Hk.
  eapply succeeds_bind; [now apply (succeeds_execute Fr stmt cols)|].
  intros []. eapply succeeds_bind; [apply succeeds_lastrowid|]. exact Hk.
Qed.

(** [execute(stmt)] where the id of the new row is not used *)
Lemma succeeds_statement (Fr : Store -> Prop) stmt cols :
  Dict.get schema (into stmt) = Some cols ->
  stable Fr ->
  (forall s, Fr s ->
     forallb (satisfies (view_of s) (cells_of cols stmt)) cols = true) ->
  succeeds Fr (execute stmt) (fun _ => Fr).
Proof.
  intros Hcols Hst Hsat.
  eapply succeeds_conseq; [now apply (succeeds_execute Fr stmt cols)|auto|].
  now intros [] s [Hfr _].
Qed.


Lemma succeeds_populate_subparagraph (Fr : Store -> Prop) article paragraph
    paragraph_id sm sp :
  stable Fr ->
  succeeds (fun s => (Fr s /\
                      has_rowid (view_of s) "paragraphs" paragraph_id = true)
                     /\ valid "subparagraphs" sm s)
           (populate_subparagraph article paragraph paragraph_id sm sp)
           (fun sm' s => (Fr s /\
                          has_rowid (view_of s) "paragraphs" paragraph_id
                          = true)
                         /\ valid "subparagraphs" sm' s).
Proof.
  intros HFr. unfold populate_subparagraph.
  eapply succeeds_insert; [reflexivity|stable_solve|sat|].
  intros subparagraph_id.
  eapply succeeds_bind.
  { apply succeeds_for_each. intros ssp _.
    eapply succeeds_statement; [reflexivity|stable_solve|sat]. }
  intros []. apply succeeds_ret.
  intros s [[Hctx Hsm] Hid]. split; [exact Hctx|].
  now apply valid_insert.
Qed.


Lemma succeeds_populate_paragraph (Fr : Store -> Prop) article article_id
    maps paragraph :
  stable Fr ->
  succeeds (fun s => (Fr s /\
                      has_rowid (view_of s) "articles" article_id = true)
                     /\ valid "paragraphs" maps.1 s
                     /\ valid "subparagraphs" maps.2 s)
           (populate_paragraph article article_id maps paragraph)
           (fun maps' s => (Fr s /\
                            has_rowid (view_of s) "articles" article_id
                            = true)
                           /\ valid "paragraphs" maps'.1 s
                           /\ valid "subparagraphs" maps'.2 s).
Proof.
  intros HFr. destruct maps as [pm sm]. unfold populate_paragraph.
  cbn [fst snd].
  eapply succeeds_insert; [reflexivity|stable_solve|sat|].
  intros paragraph_id. eapply succeeds_bind.
  { eapply succeeds_conseq.
    - apply (succeeds_foldM
               (fun _ sm' s =>
                  (((Fr s /\
                     has_rowid (view_of s) "articles" article_id = true)
                    /\ valid "paragraphs" pm s)
                   /\ has_rowid (view_of s) "paragraphs" paragraph_id = true)
                  /\ valid "subparagraphs" sm' s))
        with (seen := []).
      intros seen sp sm' _. apply succeeds_populate_subparagraph.
      stable_solve.
    - reshape.
    - intros sm' s Hs. exact Hs. }
  intros sm'. apply succeeds_ret. reshape. now apply valid_insert.
Qed.

Lemma succeeds_populate_requirement (Fr : Store -> Prop) article article_id
    pm sm requirement :
  stable Fr ->
  succeeds (fun s => (Fr s /\
                      has_rowid (view_of s) "articles" article_id = true)
                     /\ valid "paragraphs" pm s
                     /\ valid "subparagraphs" sm s)
           (populate_requirement article article_id pm sm requirement)
           (fun _ s => (Fr s /\
                        has_rowid (view_of s) "articles" article_id = true)
                       /\ valid "paragraphs" pm s
                       /\ valid "subparagraphs" sm s).
Proof.
  intros HFr. unfold populate_requirement. cbv zeta.
  eapply succeeds_statement; [reflexivity|stable_solve|sat].
Qed.

Lemma succeeds_populate_article (Fr : Store -> Prop) cmap smap
    (maps : IdMaps) article :
  stable Fr ->
  succeeds (fun s => (Fr s /\ valid "chapters" cmap s
                      /\ valid "sections" smap s)
                     /\ valid "articles" maps.1.1 s
                     /\ valid "paragraphs" maps.1.2 s
                     /\ valid "subparagraphs" maps.2 s)
           (populate_article cmap smap maps article)
           (fun maps' s => ((Fr s /\ valid "chapters" cmap s
                             /\ valid "sections" smap s)
                            /\ valid "articles" maps'.1.1 s
                            /\ valid "paragraphs" maps'.1.2 s
                            /\ valid "subparagraphs" maps'.2 s)
                           /\ is_Some (maps'.1.1 !! a_number article)
                           /\ forall k, is_Some (maps.1.1 !! k) ->
                                        is_Some (maps'.1.1 !! k)).
Proof.
  intros HFr. destruct maps as [[am pm] sm]. unfold populate_article.
  cbn [fst snd]. cbv zeta.
  eapply succeeds_insert; [reflexivity|stable_solve|sat|].
  intros article_id. eapply succeeds_bind.
  { eapply succeeds_conseq.
    - apply (succeeds_foldM
               (fun _ (maps' : gmap (str * str) Z * gmap (str * str * str) Z)
                    s =>
                  (((Fr s /\ valid "chapters" cmap s
                     /\ valid "sections" smap s)
                    /\ valid "articles" am s)
                   /\ has_rowid (view_of s) "articles" article_id = true)
                  /\ valid "paragraphs" maps'.1 s
                  /\ valid "subparagraphs" maps'.2 s))
        with (seen := []).
      intros seen p maps' _. apply succeeds_populate_paragraph.
      stable_solve.
    - reshape.
    - intros maps' s Hs. exact Hs. }
  intros [pm' sm']. cbn [fst snd]. eapply succeeds_bind.
  { apply succeeds_for_each. intros r _.
    apply succeeds_populate_requirement. stable_solve. }
  intros []. eapply succeeds_bind.
  { apply succeeds_for_each. intros e _.
    eapply succeeds_statement; [reflexivity|stable_solve|sat]. }
  intros []. apply succeeds_ret. reshape; cbn [fst snd].
  - now apply valid_insert.
  - rewrite lookup_insert_eq. eauto.
  - intros k Hk. destruct (decide (k = a_number article)) as [->|Hne].
    + rewrite lookup_insert_eq. eauto.
    + now rewrite lookup_insert_ne by congruence.
Qed.


Lemma section_chapter_id_known cmap section articles s :
  valid "chapters" cmap s ->
  known "chapters" (section_chapter_id cmap section articles) s.
Proof.
  intros Hv. induction articles as [|a articles IH]; simpl; [exact I|].
  destruct (a_section a), (a_chapter a); try exact IH.
  destruct (bool_decide _); [apply Hv|exact IH].
Qed.

Lemma succeeds_populate_chapters (Fr : Store -> Prop) self :
  stable Fr ->
  succeeds Fr (populate_chapters self)
           (fun cmap s => Fr s /\ valid "chapters" cmap s).
Proof.
  intros HFr. unfold populate_chapters. eapply succeeds_conseq.
  - apply (succeeds_foldM
             (fun _ (cmap : gmap str Z) s => Fr s /\ valid "chapters" cmap s))
      with (seen := []).
    intros seen chapter cmap _.
    eapply succeeds_insert; [reflexivity|stable_solve|sat|].
    intros chapter_id. apply succeeds_ret. reshape.
    now apply valid_insert.
  - intros s Hs. split; [exact Hs|apply valid_empty].
  - intros cmap s Hs. exact Hs.
Qed.

Lemma succeeds_populate_sections (Fr : Store -> Prop) self articles cmap :
  stable Fr ->
  succeeds (fun s => Fr s /\ valid "chapters" cmap s)
           (populate_sections self articles cmap)
           (fun smap s => Fr s /\ valid "chapters" cmap s
                          /\ valid "sections" smap s).
Proof.
  intros HFr. unfold populate_sections. eapply succeeds_conseq.
  - apply (succeeds_foldM
             (fun _ (smap : gmap str Z) s =>
                (Fr s /\ valid "chapters" cmap s) /\ valid "sections" smap s))
      with (seen := []).
    intros seen section smap _. cbv zeta.
    eapply succeeds_insert; [reflexivity|stable_solve| |].
    + intros s [[Hfr Hc] Hs].
      pose proof (section_chapter_id_known cmap section articles s Hc) as Hk.
      destruct (section_chapter_id cmap section articles); simpl in Hk;
        cbv -[has_rowid view_of]; [rewrite Hk|]; reflexivity.
    + intros section_id. apply succeeds_ret. reshape.
      now apply valid_insert.
  - intros s Hs. split; [exact Hs|apply valid_empty].
  - reshape.
Qed.


Lemma succeeds_populate_definition (Fr : Store -> Prop) (maps : IdMaps) item :
  stable Fr ->
  succeeds (fun s => Fr s /\ valid "articles" maps.1.1 s
                     /\ valid "paragraphs" maps.1.2 s
                     /\ valid "subparagraphs" maps.2 s)
           (populate_definition maps item)
           (fun _ s => Fr s /\ valid "articles" maps.1.1 s
                       /\ valid "paragraphs" maps.1.2 s
                       /\ valid "subparagraphs" maps.2 s).
Proof.
  intros HFr. destruct maps as [[am pm] sm], item as [term definition].
  unfold populate_definition. cbn [fst snd]. cbv zeta.
  eapply succeeds_statement; [reflexivity|stable_solve|sat].
Qed.

Lemma truthy_id_known (t : string) (m : gmap str Z) (k : str) (s : Store) :
  valid t m s -> truthy_id (m !! k) = true ->
  has_rowid (view_of s) t (default 0 (m !! k)) = true.
Proof.
  intros Hv Ht. specialize (Hv k). destruct (m !! k); [exact Hv|discriminate].
Qed.

Lemma succeeds_populate_cross_references (Fr : Store -> Prop)
    (am : gmap str Z) item :
  stable Fr ->
  succeeds (fun s => Fr s /\ valid "articles" am s)
           (populate_cross_references am item)
           (fun _ s => Fr s /\ valid "articles" am s).
Proof.
  intros HFr. destruct item as [from_article references].
  unfold populate_cross_references. cbv zeta.
  destruct (truthy_id (am !! from_article)) eqn:Hfrom;
    [|apply succeeds_ret; auto].
  apply succeeds_for_each. intros reference _.
  destruct (truthy_id (am !! ref_article reference)) eqn:Hto;
    [|apply succeeds_ret; auto].
  eapply succeeds_statement; [reflexivity|stable_solve|].
  intros s [Hfr Hv].
  pose proof (truthy_id_known _ _ _ _ Hv Hfrom) as H1.
  pose proof (truthy_id_known _ _ _ _ Hv Hto) as H2.
  sat_eval.
Qed.

Lemma succeeds_populate_time_requirement (Fr : Store -> Prop)
    (maps : IdMaps) time_req :
  stable Fr ->
  is_Some (maps.1.1 !! t_article time_req) ->
  succeeds (fun s => Fr s /\ valid "articles" maps.1.1 s
                     /\ valid "paragraphs" maps.1.2 s
                     /\ valid "subparagraphs" maps.2 s)
           (populate_time_requirement maps time_req)
           (fun _ s => Fr s /\ valid "articles" maps.1.1 s
                       /\ valid "paragraphs" maps.1.2 s
                       /\ valid "subparagraphs" maps.2 s).
Proof.
  intros HFr. destruct maps as [[am pm] sm]. cbn [fst snd].
  intros [article_id Hid]. unfold populate_time_requirement. cbv zeta.
  eapply succeeds_statement; [reflexivity|stable_solve|].
  intros s (Hfr & Ha & Hp & Hs).
  pose proof (Ha (t_article time_req)) as Hart.
  change (known "articles" (am !! t_article time_req) s) in Hart.
  rewrite Hid in Hart |- *. simpl in Hart. clear Ha.
  destruct (truthy _); use_valid; sat_eval.
Qed.

Lemma succeeds_populate_key_actors (Fr : Store -> Prop)
    (am : gmap str Z) item :
  stable Fr ->
  succeeds (fun s => Fr s /\ valid "articles" am s)
           (populate_key_actors am item)
           (fun _ s => Fr s /\ valid "articles" am s).
Proof.
  intros HFr. destruct item as [actor_type mentions].
  unfold populate_key_actors.
  apply succeeds_for_each. intros mention _. cbv zeta.
  destruct (truthy_id (am !! mn_article mention)) eqn:Hid;
    [|apply succeeds_ret; auto].
  eapply succeeds_statement; [reflexivity|stable_solve|].
  intros s [Hfr Hv].
  pose proof (truthy_id_known _ _ _ _ Hv Hid) as H1.
  sat_eval.
Qed.

Lemma succeeds_populate_rows self recitals articles actors :
  Forall (fun time_req => In (t_article time_req)
                             (List.map a_number articles))
         (time_requirements self) ->
  succeeds (fun _ => True) (populate_rows self recitals articles actors)
           (fun _ _ => True).
Proof.
  intros Htime. unfold populate_rows.
  eapply succeeds_bind;
    [apply succeeds_populate_chapters; apply stable_pure|].
  intros cmap. eapply succeeds_bind;
    [apply succeeds_populate_sections; apply stable_pure|].
  intros smap. eapply succeeds_bind.
  { apply succeeds_for_each. intros recital _.
    eapply succeeds_statement; [reflexivity|stable_solve|sat]. }
  intros []. eapply succeeds_bind.
  { eapply succeeds_conseq.
    - apply (succeeds_foldM
               (fun seen (maps : IdMaps) s =>
                  ((True /\ valid "chapters" cmap s
                    /\ valid "sections" smap s)
                   /\ valid "articles" maps.1.1 s
                   /\ valid "paragraphs" maps.1.2 s
                   /\ valid "subparagraphs" maps.2 s)
                  /\ forall a, In a seen -> is_Some (maps.1.1 !! a_number a)))
        with (seen := []).
      intros seen article maps _. apply succeeds_pure. intros Hseen.
      eapply succeeds_conseq;
        [apply (succeeds_populate_article (fun _ => True));
         apply stable_pure|auto|].
      intros maps' s (Hv & Hnew & Hold). split; [exact Hv|].
      intros a Ha. apply List.in_app_iff in Ha as [Ha|[<-|[]]]; auto.
    - intros s Hs. cbn [fst snd]. repeat split; try apply valid_empty;
        try apply Hs. intros a [].
    - intros maps s Hs. exact Hs. }
  intros [[am pm] sm]. cbn [fst snd app]. apply succeeds_pure. intros Hkeys.
  eapply succeeds_conseq with
    (P := fun s => True /\ valid "articles" am s /\ valid "paragraphs" pm s
                   /\ valid "subparagraphs" sm s)
    (Q := fun _ _ => True); [|reshape|auto].
  eapply succeeds_bind.
  { apply succeeds_for_each. intros item _.
    apply (succeeds_populate_definition (fun _ => True) (am, pm, sm)).
    apply stable_pure. }
  intros []. cbn [fst snd]. eapply succeeds_bind.
  { apply succeeds_for_each. intros item _.
    eapply succeeds_conseq;
      [apply (succeeds_populate_cross_references
                (fun s => (True /\ valid "paragraphs" pm s)
                          /\ valid "subparagraphs" sm s) am);
       stable_solve|reshape|reshape]. }
  intros []. eapply succeeds_bind.
  { apply succeeds_for_each. intros time_req Hin.
    apply (succeeds_populate_time_requirement (fun _ => True) (am, pm, sm));
      [apply stable_pure|].
    rewrite List.Forall_forall in Htime. specialize (Htime _ Hin).
    apply List.in_map_iff in Htime as (a & <- & Ha). now apply Hkeys. }
  intros []. cbn [fst snd]. eapply succeeds_bind.
  { apply succeeds_for_each. intros item _.
    eapply succeeds_conseq;
      [apply (succeeds_populate_key_actors
                (fun s => (True /\ valid "paragraphs" pm s)
                          /\ valid "subparagraphs" sm s) am);
       stable_solve|reshape|reshape]. }
  intros []. eapply succeeds_conseq with (P := fun _ => True); [|auto|auto].
  apply succeeds_for_each. intros [[[name description] related] required] _.
  eapply succeeds_statement; [reflexivity|apply stable_pure|].
  intros s' _. reflexivity.
Qed.

End Succeeds.

(** On an open connection that sees every table of the schema, and with a
    storage that does not fail, [populate_database] returns and commits,
    provided that every cached time requirement names one of the articles:
    no statement violates a NOT NULL or a foreign-key constraint. *)
Theorem populate_database_succeeds
    (F : Storage) (self : Caches) (recitals : list Recital)
    (articles : list Article) (actors : Dict.t str (list Mention))
    (s : Store) :
  (forall stmt db, storage_fails stmt db = false) ->
  ready s ->
  Forall (fun time_req => In (t_article time_req)
                             (List.map a_number articles))
         (time_requirements self) ->
  exists s',
    populate_database self recitals articles actors s = Returned tt s' /\
    disk s' = view_of s'.
Proof.
  intros Hrel Hready Htime.
  destruct (succeeds_populate_rows Hrel self recitals articles actors Htime
              s Hready I) as ([] & s1 & E & (c & Hc & _) & _ & _).
  unfold populate_database, mbind, M_bind. rewrite E.
  unfold commit. rewrite Hc. eexists. split; reflexivity.
Qed.

Lemma ready_init_database (s : Store) : ready (init_database s).1.
Proof.
  eexists. split; [reflexivity|]. cbn [view]. intros t cols Ht.
  apply create_tables_some. right.
  apply dict_get_In in Ht. now apply (List.in_map fst) in Ht.
Qed.

Lemma populate_database_succeeds_witness :
  exists s',
    @populate_database reliable_storage
      {| chapters := [{| h_number := lit "I"; h_title := lit "General" |}];
         sections := []; definitions := []; cross_references := [];
         time_requirements :=
           [{| t_article := lit "3"; t_paragraph := lit "1";
               t_subparagraph := None; t_text := lit "within one month" |}] |}
      [] [long_article] [] (init_database empty_store).1 = Returned tt s' /\
    disk s' = view_of s'.
Proof.
  apply (populate_database_succeeds reliable_storage
           {| chapters := [{| h_number := lit "I"; h_title := lit "General" |}];
              sections := []; definitions := []; cross_references := [];
              time_requirements :=
                [{| t_article := lit "3"; t_paragraph := lit "1";
                    t_subparagraph := None;
                    t_text := lit "within one month" |}] |}
           [] [long_article] [] (init_database empty_store).1
           (fun _ _ => eq_refl) (ready_init_database empty_store)).
  constructor; [left; reflexivity|constructor].
Defined.

(** ** The rows of the articles *)

Lemma rows_in_none (entries : list Entry) t :
  (forall e, In e entries -> fst e <> t) -> rows_in entries t = [].
Proof.
  intros Hne. unfold rows_in.
  induction entries as [|e entries IH]; [reflexivity|]. simpl.
  rewrite bool_decide_eq_false_2 by (apply Hne; now left).
  apply IH. intros e' He'. apply Hne. now right.
Qed.

Lemma rows_in_map_none {A} (f : A -> Entry) l t :
  (forall x, fst (f x) <> t) -> rows_in (List.map f l) t = [].
Proof.
  intros Hne. apply rows_in_none. intros e He.
  apply List.in_map_iff in He as (x & <- & _). apply Hne.
Qed.

Lemma rows_in_flat_map_none {A} (f : A -> list Entry) l t :
  (forall x, rows_in (f x) t = []) -> rows_in (flat_map f l) t = [].
Proof.
  intros Hne. induction l as [|x l IH]; [reflexivity|]. simpl.
  now rewrite rows_in_app, Hne, IH.
Qed.

Lemma rows_in_cons e entries t :
  rows_in (e :: entries) t
  = (if bool_decide (fst e = t) then [snd e] else []) ++ rows_in entries t.
Proof. unfold rows_in. simpl. now destruct (bool_decide (fst e = t)). Qed.

Lemma article_entries_rows article :
  rows_in (article_entries article) "articles"
  = [article_payload (a_number article) (a_title article)
                     (a_content article)].
Proof.
  unfold article_entries.
  rewrite rows_in_cons, !rows_in_app.
  rewrite rows_in_flat_map_none, !rows_in_map_none; try easy.
  intros p. unfold paragraph_entries. rewrite rows_in_cons.
  rewrite rows_in_flat_map_none; [reflexivity|].
  intros sp. unfold subparagraph_entries. rewrite rows_in_cons.
  now rewrite rows_in_map_none.
Qed.

Lemma model_rows_articles self recitals articles :
  model_rows self recitals articles "articles"
  = List.map (fun a => article_payload (a_number a) (a_title a) (a_content a))
             articles.
Proof.
  unfold model_rows, model_entries. rewrite !rows_in_app.
  repeat match goal with
  | |- context [rows_in (List.map ?f ?l) "articles"] =>
      rewrite (rows_in_map_none f l "articles")
        by first [easy|intros [? ?]; easy|intros [[[? ?] ?] ?]; easy]
  end.
  rewrite app_nil_r. cbn [app].
  induction articles as [|a articles IH]; [reflexivity|].
  cbn [flat_map List.map].
  now rewrite rows_in_app, article_entries_rows, IH.
Qed.

Lemma populate_database_article_rows
    (F : Storage) (self : Caches) (recitals : list Recital)
    (articles : list Article) (actors : Dict.t str (list Mention))
    (s s' : Store) :
  populate_database self recitals articles actors s = Returned tt s' ->
  conn s' <> None /\ disk s' = view_of s' /\
  payloads (disk s') "articles"
  = payloads (view_of s) "articles"
    ++ List.map (fun a => article_payload (a_number a) (a_title a)
                                          (a_content a)) articles.
Proof.
  intros Hret.
  pose proof (populate_database_wrote F self recitals articles actors s)
    as Hw.
  rewrite Hret in Hw. destruct Hw as (Hdisk & tr & Hrows & Htr).
  split; [|split; [exact Hdisk|]].
  - revert Hret. unfold populate_database, mbind, M_bind.
    destruct (populate_rows _ _ _ _ s) as [[] s1|e s1]; [|discriminate].
    unfold commit. destruct (conn s1); [|discriminate].
    now intros [= <-].
  - rewrite Hdisk, Hrows. f_equal.
    rewrite <- (rows_in_unguarded tr "articles") by reflexivity.
    rewrite Htr. apply model_rows_articles.
Qed.

(** ** Round trip: an article that was stored is found by its number *)

Lemma dict_get_payload t (cells : list (string * Value)) name :
  is_foreign_key t name = false ->
  Dict.get (payload t cells) name = Dict.get cells name.
Proof.
  intros Hfk. unfold payload.
  induction cells as [|[k v] cells IH]; [reflexivity|]. simpl.
  destruct (decide (name = k)) as [->|Hne].
  - rewrite Hfk. simpl. now rewrite decide_True.
  - destruct (is_foreign_key t k); simpl; [exact IH|].
    now rewrite decide_False.
Qed.

Lemma col_payload (r : Row) name :
  name <> "id"%string -> is_foreign_key "articles" name = false ->
  col r name
  = default Null (Dict.get (payload "articles" (cells r)) name).
Proof.
  intros Hid Hfk. unfold col.
  rewrite bool_decide_eq_false_2 by exact Hid.
  now rewrite dict_get_payload.
Qed.

Lemma first_numbered (rows : list Row) art after :
  forall (old : list (list (string * Value))) before,
  List.map (fun r => payload "articles" (cells r)) rows
  = old ++ List.map (fun a => article_payload (a_number a) (a_title a)
                                              (a_content a))
                    (before ++ art :: after) ->
  Forall (fun p => default Null (Dict.get p "number") <> Text (a_number art))
         old ->
  Forall (fun a => a_number a <> a_number art) before ->
  exists a rest,
    where_eq "number" (Text (a_number art)) rows = a :: rest /\
    payload "articles" (cells a)
    = article_payload (a_number art) (a_title art) (a_content art).
Proof.
  induction rows as [|r rows IH]; intros old before Hmap Hold Hbefore.
  - destruct old; [destruct before|]; discriminate.
  - unfold where_eq. cbn [List.filter].
    rewrite (col_payload r "number") by easy.
    destruct old as [|p old]; [destruct before as [|b before]|];
      simpl in Hmap; injection Hmap as Hr Hrows; rewrite Hr.
    + exists r. eexists. simpl.
      rewrite bool_decide_eq_true_2 by reflexivity.
      split; [reflexivity|exact Hr].
    + apply List.Forall_cons_iff in Hbefore as [Hb Hbefore']. simpl.
      rewrite bool_decide_eq_false_2 by exact Hb.
      apply (IH [] before); auto.
    + apply List.Forall_cons_iff in Hold as [Hp Hold'].
      replace (sql_eq (default Null (Dict.get p "number"))
                      (Text (a_number art)))
        with false.
      * apply (IH old before); auto.
      * symmetry. apply not_true_is_false. intros Heq.
        apply sql_eq_eq in Heq. contradiction.
Qed.

(** After [populate_database] returned, [get_article_by_number] finds every
    article of the call by its number, with its title and content, when no
    article row carried the number before; of several articles of the call
    with the same number it finds the first. *)
Theorem stored_article_is_found_by_number
    (F : Storage) (self : Caches) (recitals : list Recital)
    (before : list Article) (art : Article) (after : list Article)
    (actors : Dict.t str (list Mention)) (s s' : Store) :
  populate_database self recitals (before ++ art :: after) actors s
  = Returned tt s' ->
  Forall (fun r => col r "number" <> Text (a_number art))
         (table (view_of s) "articles") ->
  Forall (fun a => a_number a <> a_number art) before ->
  exists obj,
    (get_article_by_number (a_number art) s').1 = Some obj /\
    field obj "number" = OValue (Text (a_number art)) /\
    field obj "title" = OValue (Text (a_title art)) /\
    field obj "content" = OValue (Text (a_content art)).
Proof.
  intros Hret Hold Hbefore.
  apply populate_database_article_rows in Hret as (Hconn & Hdisk & Hrows).
  unfold get_article_by_number, ensure_connected. cbn [fst].
  destruct (conn s') as [c|] eqn:Hc; [|contradiction]. rewrite <- Hdisk.
  destruct (first_numbered (table (disk s') "articles") art after
              (payloads (view_of s) "articles") before)
    as (a & rest & Hfirst & Hpay); auto.
  { unfold payloads. rewrite List.Forall_map.
    eapply List.Forall_impl; [|exact Hold]. intros r Hr.
    now rewrite <- (col_payload r "number"). }
  unfold get_article. rewrite Hfirst. eexists. split; [reflexivity|].
  change (field (ODict ?d) "number") with (OValue (col a "number")).
  change (field (ODict ?d) "title") with (OValue (col a "title")).
  change (field (ODict ?d) "content") with (OValue (col a "content")).
  rewrite !col_payload, Hpay by easy. repeat split.
Qed.

Lemma stored_article_is_found_by_number_witness :
  exists obj,
    (get_article_by_number (a_number long_article)
                           (populated_store [sample_article; long_article])).1
    = Some obj /\
    field obj "number" = OValue (Text (a_number long_article)) /\
    field obj "title" = OValue (Text (a_title long_article)) /\
    field obj "content" = OValue (Text (a_content long_article)).
Proof.
  apply (stored_article_is_found_by_number reliable_storage no_caches []
           [sample_article] long_article [] []
           (init_database empty_store).1
           (populated_store [sample_article; long_article])).
  - vm_compute. reflexivity.
  - vm_compute. constructor.
  - repeat constructor. vm_compute. discriminate.
Defined.
(** ** From the headers of the document to the rows of the articles *)

Lemma extract_articles_spans `{Engine} (text : str) :
  extract_articles_with_structure text
  = List.map (fun '(m, body) =>
                new_article (positions chapter_pattern text)
                            (positions section_pattern text)
                            (m_start m) (group m 1) (strip (group m 2))
                            (strip body))
             (header_spans text (finditer article_pattern [] text)).
Proof.
  unfold extract_articles_with_structure.
  destruct (finditer article_pattern [] text) as [|m0 ms]; [reflexivity|].
  cbn [fold_left article_step].
  change (Some (m_start m0, group m0 1, strip (group m0 2)))
    with (Some (header_of m0)).
  pose proof (article_loop_spans text (positions chapter_pattern text)
                (positions section_pattern text) ms [] m0) as Hloop.
  destruct (fold_left _ ms _) as [arts last]. exact Hloop.
Qed.

Lemma processed_article_payload `{Lower} `{Engine} `{NLP} (a : Article) :
  let a' := (extract_requirements (extract_paragraphs_and_subparagraphs a)
                                  []).1 in
  article_payload (a_number a') (a_title a') (a_content a')
  = article_payload (a_number a) (a_title a) (a_content a).
Proof.
  cbv zeta. unfold extract_requirements.
  destruct (fold_left _ _ _) as [requirements trs]. reflexivity.
Qed.

(** When [parse_and_load] returns [True], the article rows of the database
    file are those it held before followed by one row per article header of
    the preprocessed text, in order: the number and the stripped title of
    the header, and as content the stripped text from the header to the next
    header, or to the end of the text. *)
Theorem parse_and_load_stores_one_article_per_header
    (L : Lower) (E : Engine) (N : NLP) (F : Storage) (D : Pdf)
    (self self' : Parser) (pages : list str) :
  page_texts = Some pages ->
  parse_and_load self = Returned true self' ->
  payloads (disk (store self')) "articles"
  = payloads (disk (store self)) "articles"
    ++ List.map
         (fun '(m, body) =>
            article_payload (group m 1) (strip (group m 2)) (strip body))
         (header_spans (preprocess_text (full_text_of pages))
            (finditer article_pattern []
                      (preprocess_text (full_text_of pages)))).
Proof.
  intros Hpages. unfold parse_and_load, parse_and_load_body.
  rewrite Hpages.
  destruct (extract_table_of_contents _ _ _) as [toc_chapters toc_sections].
  unfold decompose_and_classify. rewrite decompose_and_classify_loop.
  cbn [app init_database].
  match goal with
  | |- context [populate_database ?c ?r ?a ?k ?s] =>
      pose proof (populate_database_article_rows F c r a k s) as Hrows;
      destruct (populate_database c r a k s) as [[] s'|e s'];
      [|discriminate]
  end.
  intros [= <-]. cbn [store].
  destruct (Hrows s' eq_refl) as (_ & _ & ->). f_equal.
  - unfold payloads, view_of. cbn [conn view].
    now rewrite create_tables_table.
  - rewrite List.map_map, extract_articles_spans, List.map_map.
    apply List.map_ext. intros [m body].
    now rewrite processed_article_payload.
Qed.

Lemma parse_and_load_stores_one_article_per_header_witness :
  exists self',
    @parse_and_load ascii_lower
      (scripted_engine
         [(article_pattern,
           preprocess_text (full_text_of [lit "Article 1 - Scope Data shall be kept."]),
           [{| m_start := 0;
               m_groups := [Some (lit "1");
                            Some (lit "Scope Data shall be kept.")] |}])])
      full_stop_nlp reliable_storage
      (Some [lit "Article 1 - Scope Data shall be kept."]) new_parser
    = Returned true self' /\
    payloads (disk (store self')) "articles"
    = [article_payload (lit "1") (lit "Scope Data shall be kept.")
                       (lit "Article 1 - Scope Data shall be kept.")].
Proof.
  eexists. split; [vm_compute; reflexivity|].
  rewrite (parse_and_load_stores_one_article_per_header ascii_lower
             (scripted_engine
                [(article_pattern,
                  preprocess_text (full_text_of [lit "Article 1 - Scope Data shall be kept."]),
                  [{| m_start := 0;
                      m_groups := [Some (lit "1");
                                   Some (lit "Scope Data shall be kept.")] |}])])
             full_stop_nlp reliable_storage
             (Some [lit "Article 1 - Scope Data shall be kept."]) new_parser _
             [lit "Article 1 - Scope Data shall be kept."] eq_refl).
  - vm_compute. reflexivity.
  - vm_compute. reflexivity.
Defined.

(** ** [get_requirements_for_role]: each requirement once *)

Lemma mapM_total {A B} (f : A -> option (list B)) l :
  Forall (fun x => is_Some (f x)) l ->
  @concat B <$> mapM f l = Some (flat_map (fun x => default [] (f x)) l).
Proof.
  induction 1 as [|x l [y Hy] Hl IH]; [reflexivity|].
  simpl. rewrite Hy. simpl.
  destruct (mapM f l) as [ys|]; [|discriminate].
  simpl in *. injection IH as ->. reflexivity.
Qed.

Lemma flat_map_flat_map {A B C} (f : A -> list B) (g : B -> list C) l :
  flat_map g (flat_map f l) = flat_map (fun x => flat_map g (f x)) l.
Proof.
  induction l as [|x l IH]; [reflexivity|]. simpl.
  now rewrite List.flat_map_app, IH.
Qed.

Lemma flat_map_gather {K A B} (select : K -> A -> bool) (h : A -> list B)
    (ids : list K) (rows : list A) :
  List.NoDup ids ->
  (forall id id' r, select id r = true -> select id' r = true -> id = id') ->
  Permutation
    (flat_map (fun id => flat_map h (List.filter (select id) rows)) ids)
    (flat_map (fun r => if existsb (fun id => select id r) ids
                        then h r else []) rows).
Proof.
  intros Hnd Hone. induction Hnd as [|id ids Hid Hnd IH].
  - simpl. now rewrite flat_map_nil.
  - cbn [flat_map]. rewrite IH. clear IH.
    induction rows as [|r rows IHr]; [reflexivity|].
    cbn [List.filter flat_map existsb].
    destruct (select id r) eqn:Hsel.
    + assert (Hnone : existsb (fun id' => select id' r) ids = false).
      { apply not_true_is_false. intros Hex.
        apply existsb_exists in Hex as (id' & Hin & Hsel').
        now rewrite (Hone _ _ _ Hsel Hsel') in Hid. }
      rewrite Hnone. cbn [flat_map app orb].
      rewrite <- app_assoc. now apply Permutation_app_head.
    + cbn [orb]. rewrite <- IHr.
      rewrite !app_assoc. apply Permutation_app_tail, Permutation_app_comm.
Qed.

Lemma article_mentions_ids `{SetOrder} (db : DB) (role : str) (r : Row) :
  existsb (fun id => sql_eq (col r "article_id") id)
          (set_iter (List.map (fun k => col k "article_id")
                              (where_eq "actor_type" (Text role)
                                        (table db "key_actors"))))
  = article_mentions db role r.
Proof.
  unfold article_mentions. apply eq_true_iff_eq.
  rewrite !existsb_exists. split.
  - intros (id & Hin & Heq). apply (proj1 (set_iter_In _ _)) in Hin.
    apply List.in_map_iff in Hin as (k & <- & Hk).
    apply List.filter_In in Hk as [Hk Hrole].
    exists k. split; [exact Hk|]. now rewrite Hrole, Heq.
  - intros (k & Hk & Hboth). apply andb_prop in Hboth as [Hrole Heq].
    exists (col k "article_id"). split; [|exact Heq].
    apply (proj2 (set_iter_In _ _)), List.in_map_iff.
    exists k. split; [reflexivity|].
    apply List.filter_In. now split.
Qed.

(** On a database that has the tables [key_actors], [requirements] and
    [articles] and whose requirement rows hold a text, and for a role that
    can be encoded, [get_requirements_for_role] returns, up to the order of
    the articles, what the requirement rows add one by one: a row is
    reported once, however many mentions of the role its article has, and
    only if its article has such a mention, its article row exists and its
    lowercased text holds the role with underscores replaced by spaces. *)
Theorem requirements_for_role_reports_each_row_once
    (L : Lower) (O : SetOrder) (db : DB) (role : str) :
  is_Some (db !! "key_actors"%string) ->
  is_Some (db !! "requirements"%string) ->
  is_Some (db !! "articles"%string) ->
  encodable role = true ->
  Forall (fun r => exists t, col r "text" = Text t)
         (table db "requirements") ->
  exists objs,
    requirements_for_role db role = Some objs /\
    Permutation objs
      (flat_map (reported_for_role db role) (table db "requirements")).
Proof.
  intros [key_actors Hk] [requirements Hr] [articles Ha] Henc Htext.
  assert (Tk : table db "key_actors" = key_actors)
    by (unfold table; now rewrite Hk).
  assert (Tr : table db "requirements" = requirements)
    by (unfold table; now rewrite Hr).
  assert (Ta : table db "articles" = articles)
    by (unfold table; now rewrite Ha).
  unfold requirements_for_role. rewrite Henc, Hk. cbn [mbind option_bind].
  rewrite <- Tk. set (ids := set_iter _).
  set (reported := fun x : Row * Row => default [] (role_requirement role x)).
  assert (Hone : forall id,
            (rows ← role_rows db id;
             @concat Obj <$> mapM (role_requirement role) rows)
            = Some (flat_map reported
                      (joined_requirements articles requirements id))).
  { intros id. unfold role_rows. rewrite Hr, Ha. cbn [mbind option_bind].
    apply mapM_total. apply List.Forall_forall. intros [a r] Hin.
    unfold joined_requirements in Hin.
    apply List.in_flat_map in Hin as (r' & Hr' & Hin).
    destruct (List.find _ articles); [|destruct Hin].
    destruct Hin as [[= <- <-]|[]].
    apply List.filter_In in Hr' as [Hr' _]. rewrite <- Tr in Hr'.
    rewrite List.Forall_forall in Htext. destruct (Htext _ Hr') as [t Ht].
    unfold role_requirement. rewrite Ht. eauto. }
  eexists. split.
  - rewrite mapM_total
      by (apply List.Forall_forall; intros id _; rewrite Hone; eauto).
    reflexivity.
  - erewrite List.flat_map_ext by (intros id; rewrite Hone; reflexivity).
    cbn [default]. unfold joined_requirements.
    erewrite List.flat_map_ext
      by (intros id; rewrite flat_map_flat_map; reflexivity).
    unfold where_eq.
    rewrite (flat_map_gather
               (fun id r => sql_eq (col r "article_id") id)
               (fun r => flat_map reported
                           match List.find
                                   (fun a => sql_eq (col r "article_id")
                                                    (Int (rowid a)))
                                   articles with
                           | Some a => [(a, r)]
                           | None => []
                           end)
               ids requirements).
    + rewrite Tr. apply Permutation_refl'. apply List.flat_map_ext. intros r.
      unfold ids. rewrite article_mentions_ids. unfold reported_for_role.
      destruct (article_mentions db role r); [|reflexivity].
      unfold joined. rewrite Ta.
      destruct (List.find _ articles); [|reflexivity].
      simpl. now rewrite app_nil_r.
    + apply set_iter_NoDup.
    + intros id id' r H1 H2. apply sql_eq_eq in H1, H2. congruence.
Qed.

Lemma requirements_for_role_reports_each_row_once_witness :
  exists objs,
    @requirements_for_role ascii_lower insertion_order controller_db
      (lit "controller") = Some objs /\
    Permutation objs
      (flat_map (@reported_for_role ascii_lower controller_db
                   (lit "controller"))
                (table controller_db "requirements")).
Proof.
  apply (requirements_for_role_reports_each_row_once ascii_lower
           insertion_order controller_db (lit "controller")).
  - vm_compute. eauto.
  - vm_compute. eauto.
  - vm_compute. eauto.
  - reflexivity.
  - vm_compute. repeat constructor. eexists. reflexivity.
Defined.

(** The one requirement of the controller's article is reported once for
    its two mentions; a role without mentions has no requirements; without
    the tables the call raises. *)
Example requirements_for_role_example :
  length (default [] (@requirements_for_role ascii_lower insertion_order
                        controller_db (lit "controller"))) = 1%nat /\
  length (table controller_db "key_actors") = 2%nat /\
  @requirements_for_role ascii_lower insertion_order controller_db
    (lit "data_subject") = Some [] /\
  @requirements_for_role ascii_lower insertion_order ∅ (lit "controller")
  = None /\
  @requirements_for_role ascii_lower insertion_order
    (delete "requirements"%string controller_db) (lit "controller") = None /\
  @requirements_for_role ascii_lower insertion_order
    (delete "requirements"%string controller_db) (lit "processor") = Some [].
Proof. vm_compute. repeat split; reflexivity. Qed.

(** ** A failed run and the runs after it *)





(** ** TextNormalizer: the code points that are replaced *)

Lemma replace_aux_keeps (Q : char -> bool) old new :
  forallb Q new = true ->
  forall s k, forallb Q s = true ->
              forallb Q (replace_aux old new k s) = true.
Proof.
  intros Hnew. induction s as [|c s IH]; intros k Hs; [reflexivity|].
  simpl in Hs. apply andb_prop in Hs as [Hc Hs]. cbn [replace_aux].
  destruct k as [|k]; [|now apply IH].
  destruct (startswith old (c :: s)).
  - rewrite forallb_app. apply andb_true_intro. split; [exact Hnew|].
    now apply IH.
  - cbn [forallb]. apply andb_true_intro. split; [exact Hc|now apply IH].
Qed.

Lemma replace_keeps (Q : char -> bool) old new s :
  old <> [] -> forallb Q new = true -> forallb Q s = true ->
  forallb Q (replace old new s) = true.
Proof.
  intros Hold Hnew Hs. destruct old as [|o old]; [easy|].
  now apply replace_aux_keeps.
Qed.

Lemma replace_removes (b : char) new s :
  forallb (fun c => negb (c =? b)%N) new = true ->
  forallb (fun c => negb (c =? b)%N) (replace [b] new s) = true.
Proof.
  intros Hnew. unfold replace.
  induction s as [|c s IH]; [reflexivity|].
  cbn [replace_aux startswith length Nat.sub]. rewrite andb_true_r.
  destruct (N.eqb_spec b c) as [->|Hne].
  - rewrite forallb_app. apply andb_true_intro. split; [exact Hnew|exact IH].
  - cbn [forallb]. apply andb_true_intro. split; [|exact IH].
    apply negb_true_iff, N.eqb_neq. congruence.
Qed.

Lemma forallb_skipn {A} (Q : A -> bool) k l :
  forallb Q l = true -> forallb Q (skipn k l) = true.
Proof.
  revert l. induction k as [|k IH]; intros [|x l] Hl; try easy.
  simpl in *. apply andb_prop in Hl as [_ Hl]. now apply IH.
Qed.

Lemma sub_article_headers_keeps (Q : char -> bool) :
  forallb Q (lit "Article - ") = true ->
  (forall c, isdecimal c = true -> Q c = true) ->
  forall s k, forallb Q s = true ->
              forallb Q (sub_article_headers k s) = true.
Proof.
  intros Hlit Hdec.
  assert (Hzero : forall n s, (length s <= n)%nat -> forallb Q s = true ->
                              forallb Q (sub_article_headers 0 s) = true).
  { induction n as [|n IH]; intros [|c rest] Hlen Hs; try easy.
    simpl in Hlen. apply le_S_n in Hlen.
    change (sub_article_headers 0 (c :: rest)) with
      (match match_article_header (c :: rest) with
       | Some (num, tail) =>
           lit "Article " ++ num ++ lit " - "
             ++ sub_article_headers (length rest - length tail) rest
       | None => c :: sub_article_headers 0 rest
       end).
    pose proof Hs as Hs'. simpl in Hs'. apply andb_prop in Hs' as [Hc Hrest].
    destruct (match_article_header (c :: rest)) as [[num tail]|] eqn:Hm.
    - apply match_article_header_spec in Hm as (_ & _ & Hnum & _).
      rewrite !forallb_app. rewrite sub_article_headers_skip.
      assert (Hq : forallb Q num = true).
      { rewrite forallb_forall in Hnum |- *. auto. }
      assert (Hrest' : forallb Q (sub_article_headers 0
                         (skipn (length rest - length tail) rest)) = true).
      { apply IH; [rewrite length_skipn; lia|now apply forallb_skipn]. }
      apply andb_true_intro; split;
        [|apply andb_true_intro; split;
          [exact Hq|apply andb_true_intro; split; [|exact Hrest']]];
        rewrite forallb_forall in Hlit |- *; intros x Hx; apply Hlit;
        cbn in Hx |- *; tauto.
    - cbn [forallb]. apply andb_true_intro. split; [exact Hc|now apply IH]. }
  intros s k Hs. rewrite sub_article_headers_skip.
  apply (Hzero (length (skipn k s))); [apply le_n|now apply forallb_skipn].
Qed.

(** The text that [preprocess_text] returns holds no vertical bar, no em
    dash and no en dash, whatever the text it is given. *)
Theorem preprocess_text_replaces_bars_and_dashes (text : str) :
  forallb (fun c => negb (replaced_code_point c)) (preprocess_text text)
  = true.
Proof.
  assert (Hsplit : forall s,
            forallb (fun c => negb (c =? 124)%N) s = true ->
            forallb (fun c => negb (c =? 8212)%N) s = true ->
            forallb (fun c => negb (c =? 8211)%N) s = true ->
            forallb (fun c => negb (replaced_code_point c)) s = true).
  { intros s H1 H2 H3. rewrite forallb_forall in *. intros c Hc.
    specialize (H1 c Hc). specialize (H2 c Hc). specialize (H3 c Hc).
    unfold replaced_code_point.
    destruct (c =? 124)%N, (c =? 8212)%N, (c =? 8211)%N; easy. }
  assert (Hdec : forall b, isdecimal b = false ->
                           forall c, isdecimal c = true ->
                                     negb (c =? b)%N = true).
  { intros b Hb c Hc. apply negb_true_iff, N.eqb_neq. congruence. }
  unfold preprocess_text.
  set (t1 := sub_whitespace_runs false text).
  apply Hsplit.
  - apply sub_article_headers_keeps; [reflexivity|now apply Hdec|].
    do 3 (apply replace_keeps; [easy|reflexivity|]).
    now apply replace_removes.
  - apply sub_article_headers_keeps; [reflexivity|now apply Hdec|].
    apply replace_keeps; [easy|reflexivity|].
    now apply replace_removes.
  - apply sub_article_headers_keeps; [reflexivity|now apply Hdec|].
    now apply replace_removes.
Qed.
